(** * memcached.c: the text-protocol core of the cache server

  A shallow embedding of the functions of [memcached.c] that decide the
  store semantics ([do_store_item], [do_add_delta]), the expiration-time
  conversion ([realtime]), the one-line reply writer ([out_string]), the
  scatter/gather reply builder ([add_msghdr], [add_iov],
  [build_udp_headers]), the UDP reader ([try_read_udp]), the transmitter
  ([transmit]) and the cases of [drive_machine] that follow them; then the
  tokenizer ([tokenize_command]), the readers ([try_read_command],
  [try_read_network]), the free list of connections, the statistics buffer
  ([append_to_buffer]), the delete and arithmetic commands with the
  deferred-delete queue, and [conn_cleanup].

  C integers are [Z]; where the C type is narrower than the value computed
  (the [uint32_t] counter of [do_add_delta], the [rel_time_t] result of
  [realtime], the [unsigned char] stores of [build_udp_headers]) the
  wrap-around is written out.  Bytes are [Z] in [0, 256).  Arrays indexed
  by the code ([msglist], [iov], [hdrbuf], [wbuf]) are lists read with
  [!!] and written with [<[ i := x ]>]. *)

From Stdlib Require Import ZArith Lia DecimalString DecimalFacts DecimalPos DecimalN
  Ascii String.
From stdpp Require Import base numbers option list strings gmap.

Local Open Scope Z_scope.

(** ** Machine integers *)

Module Int.

(** Value kept by a store into a [uint32_t] / [unsigned int] / [rel_time_t]. *)
Definition to_uint32 (x : Z) : Z := x mod 2 ^ 32.

(** Value kept by a store into an [unsigned char]. *)
Definition to_uchar (x : Z) : Z := x mod 256.


Definition UINT32_MAX : Z := 2 ^ 32 - 1.


Definition fits_uint32 (x : Z) : Prop := 0 <= x <= UINT32_MAX.

End Int.

(** ** Server time: [realtime] *)

Module RelTime.

(** The two globals [realtime] reads: [time_t started] and
    [volatile rel_time_t current_time]. *)
Record clock := Clock { started : Z; current_time : Z }.

(** [#define REALTIME_MAXDELTA 60*60*24*30] *)
Definition REALTIME_MAXDELTA : Z := 60 * 60 * 24 * 30.

(** [rel_time_t realtime(const time_t exptime)].  The subtraction and the
    addition are done in [time_t]; the casts to [rel_time_t]
    ([unsigned int]) keep the low 32 bits. *)
Definition realtime (k : clock) (exptime : Z) : Z :=
  if exptime =? 0 then 0
  else if exptime >? REALTIME_MAXDELTA then
    if exptime <=? started k then Int.to_uint32 1
    else Int.to_uint32 (exptime - started k)
  else Int.to_uint32 (exptime + current_time k).

End RelTime.

(** ** Bytes and C strings *)

Module Bytes.

(** A C string literal as the bytes it holds (without the terminating NUL). *)
Definition bytes_of_string (s : string) : list Z :=
  (fun a => Z.of_N (N_of_ascii a)) <$> list_ascii_of_string s.

(** [strlen]: C strings have no interior NUL, so it is the length. *)
Definition strlen (s : string) : Z := Z.of_nat (String.length s).

(** The two bytes of ["\r\n"]. *)
Definition CRLF : list Z := [13; 10].

(** [snprintf(buf, 32, "%u", value)] for a [uint32_t] value: at most ten
    digits, so the 32-byte buffer never truncates. *)
Definition decimal (v : Z) : string :=
  NilZero.string_of_uint (N.to_uint (Z.to_N v)).

(** [memcpy(dst + off, src, n)] into an array modelled as a list: the
    first [n] bytes of [src] overwrite [dst] from offset [off]. *)
Definition memcpy (dst : list Z) (off : nat) (src : list Z) (n : nat) : list Z :=
  list_inserts off (take n src) dst.

End Bytes.

(** ** The item store

  [items.c] and [assoc.c] are not part of the sources at hand: the primitives
  that [do_store_item] and [do_add_delta] call are modelled from the
  contract the specification gives them. *)

Module Store.

Import Int Bytes.

(** An item.  [it_slot] is the number of value bytes the allocated storage
    can hold; [it_deleted] is the delete-locked flag. *)
Record item := Item {
  it_key : string;
  it_data : list Z;
  it_slot : Z;
  it_flags : Z;
  it_exptime : Z;
  it_time : Z;
  it_refcount : Z;
  it_linked : bool;
  it_deleted : bool }.

Definition ITEM_nbytes (it : item) : Z := Z.of_nat (length (it_data it)).

(** The shared store: item storage by address, the hash index, the LRU
    chain (head first) and the two time globals the lookups read. *)
Record cache := Cache {
  heap : gmap nat item;
  assoc : gmap string nat;
  lru : list nat;
  now : Z;
  oldest_live : Z }.

Definition with_heap (h : gmap nat item) (s : cache) : cache :=
  Cache h (assoc s) (lru s) (now s) (oldest_live s).

Definition with_refcount (n : Z) (it : item) : item :=
  Item (it_key it) (it_data it) (it_slot it) (it_flags it) (it_exptime it)
       (it_time it) n (it_linked it) (it_deleted it).

Definition with_linked (b : bool) (it : item) : item :=
  Item (it_key it) (it_data it) (it_slot it) (it_flags it) (it_exptime it)
       (it_time it) (it_refcount it) b (it_deleted it).

Definition with_data (d : list Z) (it : item) : item :=
  Item (it_key it) d (it_slot it) (it_flags it) (it_exptime it)
       (it_time it) (it_refcount it) (it_linked it) (it_deleted it).

Definition pin (it : item) : item := with_refcount (it_refcount it + 1) it.
Definition unpin (it : item) : item := with_refcount (it_refcount it - 1) it.

Definition lru_remove (p : nat) (l : list nat) : list nat :=
  filter (fun q => q ≠ p) l.

(** Modelled from the spec: [do_item_link] of items.c.  "link(item): inserts
    into index and LRU head; sets linked bit; bumps refcount by 1." *)
Definition do_item_link (p : nat) (key : string) (s : cache) : cache :=
  Cache (alter (fun it => with_linked true (pin it)) p (heap s))
        (<[key := p]> (assoc s))
        (p :: lru s) (now s) (oldest_live s).

(** Modelled from the spec: the release of storage in items.c.  "Storage is
    freed only when the reference count reaches zero and the item is
    unlinked." *)
Definition free_if_unreferenced (p : nat) (s : cache) : cache :=
  match heap s !! p with
  | Some it =>
      if (it_refcount it <=? 0) && negb (it_linked it)
      then with_heap (delete p (heap s)) s
      else s
  | None => s
  end.

(** Modelled from the spec: [do_item_unlink] of items.c.  "unlink(item):
    removes from index and LRU; clears linked bit; decrements refcount." *)
Definition do_item_unlink (p : nat) (s : cache) : cache :=
  match heap s !! p with
  | Some it =>
      if it_linked it then
        free_if_unreferenced p
          (Cache (<[p := with_linked false (unpin it)]> (heap s))
                 (delete (it_key it) (assoc s))
                 (lru_remove p (lru s)) (now s) (oldest_live s))
      else s
  | None => s
  end.

(** Modelled from the spec: [do_item_replace] of items.c.  "replace(old,
    new): substitutes new for old under the same key; old is unlinked; the
    new item is inserted at the head." *)
Definition do_item_replace (old new : nat) (key : string) (s : cache) : cache :=
  do_item_link new key (do_item_unlink old s).

(** Modelled from the spec: [do_item_update] of items.c.  "update(item):
    moves to LRU head; no-op if unlinked." *)
Definition do_item_update (p : nat) (s : cache) : cache :=
  match heap s !! p with
  | Some it =>
      if it_linked it
      then Cache (heap s) (assoc s) (p :: lru_remove p (lru s)) (now s) (oldest_live s)
      else s
  | None => s
  end.

(** Modelled from the spec: [do_item_deref] of items.c.  "deref(item):
    decrements refcount; if it reaches zero and item is unlinked, frees
    storage." *)
Definition do_item_deref (p : nat) (s : cache) : cache :=
  free_if_unreferenced p (with_heap (alter unpin p (heap s)) s).

(** Modelled from the spec: "Expired means exptime != never && exptime <=
    current_time, or created <= oldest_live." *)
Definition item_expired (s : cache) (it : item) : bool :=
  (negb (it_exptime it =? 0) && (it_exptime it <=? now s))
  || (it_time it <=? oldest_live s).

(** Modelled from the spec: [do_item_get_notedeleted] of items.c, the lookup
    that reports a delete lock.  A delete-locked item is hidden (the result
    is NULL and [*delete_locked] is set); an expired item is unlinked when
    the lookup touches it and reported absent; a live item is returned with
    its reference count bumped. *)
Definition do_item_get_notedeleted (key : string) (s : cache)
  : option nat * bool * cache :=
  match assoc s !! key with
  | None => (None, false, s)
  | Some p =>
      match heap s !! p with
      | None => (None, false, s)
      | Some it =>
          if it_deleted it then (None, true, s)
          else if item_expired s it then (None, false, do_item_unlink p s)
          else (Some p, false, with_heap (<[p := pin it]> (heap s)) s)
      end
  end.

(** Modelled from the spec: [do_item_get_nocheck] of items.c, the raw index
    lookup "that's in the namespace/LRU but wasn't returned by item_get";
    the item found is returned with its reference count bumped. *)
Definition do_item_get_nocheck (key : string) (s : cache) : option nat * cache :=
  match assoc s !! key with
  | None => (None, s)
  | Some p => (Some p, with_heap (alter pin p (heap s)) s)
  end.

(** The three commands that reach [do_store_item] ([NREAD_ADD], [NREAD_SET],
    [NREAD_REPLACE] of memcached.h). *)
Inductive nread_comm := NREAD_ADD | NREAD_SET | NREAD_REPLACE.

Definition comm_eqb (a b : nread_comm) : bool :=
  match a, b with
  | NREAD_ADD, NREAD_ADD | NREAD_SET, NREAD_SET | NREAD_REPLACE, NREAD_REPLACE => true
  | _, _ => false
  end.

(** [int do_store_item(item *it, int comm, const char* key)].  The
    statistics calls ([stats_set], [stats_prefix_record_byte_total_change])
    touch counters only and are left out. *)
Definition do_store_item (it : nat) (comm : nread_comm) (key : string) (s : cache)
  : Z * cache :=
  let '(old_it, delete_locked, s) := do_item_get_notedeleted key s in
  let '(stored, old_it, s) :=
    if bool_decide (old_it ≠ None) && comm_eqb comm NREAD_ADD then
      (* add only adds a nonexistent item, but promote to head of LRU *)
      (0, old_it, match old_it with Some o => do_item_update o s | None => s end)
    else if bool_decide (old_it = None) && comm_eqb comm NREAD_REPLACE then
      (* replace only replaces an existing value; don't store *)
      (0, old_it, s)
    else if delete_locked && (comm_eqb comm NREAD_REPLACE || comm_eqb comm NREAD_ADD) then
      (* replace and add can't override delete locks; don't store *)
      (0, old_it, s)
    else
      let '(old_it, s) :=
        if delete_locked then do_item_get_nocheck key s else (old_it, s) in
      let s :=
        match old_it with
        | Some o => do_item_replace o it key s
        | None => do_item_link it key s
        end in
      (1, old_it, s)
  in
  let s := match old_it with Some o => do_item_deref o s | None => s end in
  (stored, s).

(** The reply [complete_nread] chooses from the result of [store_item]. *)
Definition nread_reply (stored : Z) : string :=
  if stored =? 0 then "NOT_STORED" else "STORED".

(** *** The decision table of the specification

    A second definition, written from the words of the specification, to
    compare [do_store_item] with. *)

(** The three rows of the table. *)
Inductive lookup_state :=
| NoO
| Present (o : nat)
| DeleteLocked.

(** The entries of the table: store N, reject, or reject and touch O. *)
Inductive decision := StoreN | Reject | RejectTouch.

Definition store_table (st : lookup_state) (op : nread_comm) : decision :=
  match st, op with
  | NoO, NREAD_ADD => StoreN
  | NoO, NREAD_SET => StoreN
  | NoO, NREAD_REPLACE => Reject
  | Present _, NREAD_ADD => RejectTouch
  | Present _, NREAD_SET => StoreN
  | Present _, NREAD_REPLACE => StoreN
  | DeleteLocked, NREAD_ADD => Reject
  | DeleteLocked, NREAD_SET => StoreN
  | DeleteLocked, NREAD_REPLACE => Reject
  end.

(** "Look up the existing item O (allowing delete-locked)". *)
Definition classify (key : string) (s : cache) : lookup_state * cache :=
  match do_item_get_notedeleted key s with
  | (Some o, _, s') => (Present o, s')
  | (None, true, s') => (DeleteLocked, s')
  | (None, false, s') => (NoO, s')
  end.

(** "Storing means: if O exists, replace(O, N); else link(N)."  Under a
    delete lock O is the hidden item the index still holds. *)
Definition store_N (st : lookup_state) (n : nat) (key : string) (s : cache) : cache :=
  match st with
  | NoO => do_item_link n key s
  | Present o => do_item_deref o (do_item_replace o n key s)
  | DeleteLocked =>
      match do_item_get_nocheck key s with
      | (Some o, s') => do_item_deref o (do_item_replace o n key s')
      | (None, s') => do_item_link n key s'
      end
  end.

Definition table_store_item (n : nat) (op : nread_comm) (key : string) (s : cache)
  : string * cache :=
  let '(st, s) := classify key s in
  match store_table st op with
  | StoreN => ("STORED", store_N st n key s)
  | Reject =>
      ("NOT_STORED", match st with Present o => do_item_deref o s | _ => s end)
  | RejectTouch =>
      ("NOT_STORED",
       match st with Present o => do_item_deref o (do_item_update o s) | _ => s end)
  end.

(** What a later [get] of [key] would find in the index. *)
Definition indexed (key : string) (s : cache) : option item :=
  assoc s !! key ≫= fun p => heap s !! p.

(** *** Arithmetic *)

(** [ULONG_MAX] of the platform (a 64-bit [unsigned long]). *)
Definition ULONG_MAX : Z := 2 ^ 64 - 1.

Definition is_digit (b : Z) : bool := (48 <=? b) && (b <=? 57).

Fixpoint strtoul_digits (acc : Z) (l : list Z) : Z :=
  match l with
  | b :: l' =>
      if is_digit b
      then strtoul_digits (Z.min ULONG_MAX (acc * 10 + (b - 48))) l'
      else acc
  | [] => acc
  end.

(** Modelled from the spec: [item_strtoul] of items.c.  "Parse its value as
    a decimal unsigned integer; treat any non-digit prefix as zero and
    saturate on overflow." *)
Definition item_strtoul (it : item) : Z := strtoul_digits 0 (it_data it).

(** Modelled from the spec: [item_need_realloc] of items.c.  "If the new
    byte length fits the existing slot ... mutate in place." *)
Definition item_need_realloc (it : item) (res : Z) : bool := it_slot it <? res.

(** Modelled from the spec: [do_item_alloc] of items.c.  "alloc(key, flags,
    exptime, nbytes) -> item | out_of_memory: allocate an unlinked item."
    The allocator itself is outside the core: [mem_ok] is its answer.  The
    new item is handed out with the caller's reference. *)
Definition do_item_alloc (mem_ok : bool) (key : string) (flags exptime nbytes : Z)
    (s : cache) : option nat * cache :=
  if mem_ok then
    let p := fresh (dom (heap s)) in
    (Some p,
     with_heap (<[p := Item key (replicate (Z.to_nat nbytes) 0) nbytes flags
                            exptime (now s) 1 false false]> (heap s)) s)
  else (None, s).

(** Modelled from the spec: [ITEM_set_nbytes] then [item_memcpy_to(it, 0,
    buf, res, false)]: the value becomes the first [res] bytes of [buf]. *)
Definition item_set_value (buf : list Z) (res : Z) (it : item) : item :=
  with_data (memcpy (replicate (Z.to_nat res) 0) 0 buf (Z.to_nat res)) it.

(** [char *do_add_delta(key, nkey, incr, delta, buf, res_val, addr)].
    The result is the reply string, the value written through [res_val]
    (when the item was found) and the store afterwards.  [value] is a
    [uint32_t] and [delta] an [unsigned int].  Statistics and
    [do_try_item_stamp] (which records a time stamp and an address next to
    the value) are left out. *)
Definition do_add_delta (key : string) (incr : Z) (delta : Z) (mem_ok : bool)
    (s : cache) : string * option Z * cache :=
  let '(found, _, s) := do_item_get_notedeleted key s in
  match found with
  | None => ("NOT_FOUND", None, s)
  | Some p =>
      match heap s !! p with
      | None => ("NOT_FOUND", None, s)
      | Some it =>
          let value := to_uint32 (item_strtoul it) in
          let value :=
            if negb (incr =? 0) then to_uint32 (value + delta)
            else if delta >=? value then 0
            else to_uint32 (value - delta) in
          let buf := decimal value in
          let res := strlen buf in
          if item_need_realloc it res || (it_refcount it >? 1) then
            (* need to realloc *)
            match do_item_alloc mem_ok key (it_flags it) (it_exptime it) res s with
            | (None, s) => ("SERVER_ERROR out of memory", Some value, do_item_deref p s)
            | (Some new_it, s) =>
                let s := with_heap (alter (item_set_value (bytes_of_string buf) res)
                                          new_it (heap s)) s in
                let s := do_item_replace p new_it key s in
                let s := do_item_deref new_it s in
                (buf, Some value, do_item_deref p s)
            end
          else
            (* replace in-place *)
            let s := with_heap (alter (item_set_value (bytes_of_string buf) res)
                                      p (heap s)) s in
            let s := do_item_update p s in
            (buf, Some value, do_item_deref p s)
      end
  end.

(** An existing item for [key]: in the index, linked, not delete-locked and
    not expired (what [get] would return). *)
Definition existing (key : string) (s : cache) (it : item) : Prop :=
  exists p, assoc s !! key = Some p /\ heap s !! p = Some it /\
    it_linked it = true /\ it_deleted it = false /\ item_expired s it = false.

(** The value bytes a later [get] of [key] would read. *)
Definition stored_value (key : string) (s : cache) : option (list Z) :=
  it_data <$> indexed key s.

(** A store holding one linked item, under key [key] with value [data],
    created at second 2 and held by nobody but the index. *)
Definition singleton_cache (key : string) (data : list Z) : cache :=
  Cache {[ 0%nat := Item key data (Z.of_nat (length data)) 0 0 2 1 true false ]}
        {[ key := 0%nat ]} [0%nat] 10 0.

(** A store holding a linked item for key "k" (value "x", address 0) and a
    new item for the same key (value "y", address 1) that a connection has
    received and not yet stored. *)
Definition pending_cache : cache :=
  Cache {[ 0%nat := Item "k" [120] 1 0 0 2 1 true false;
           1%nat := Item "k" [121] 1 0 0 10 1 false false ]}
        {[ "k" := 0%nat ]} [0%nat] 10 0.

(** The same store when the new item was given an expiration time, second
    5, that has passed. *)
Definition past_cache : cache :=
  Cache {[ 0%nat := Item "k" [120] 1 0 0 2 1 true false;
           1%nat := Item "k" [121] 1 0 5 10 1 false false ]}
        {[ "k" := 0%nat ]} [0%nat] 10 0.

End Store.

(** ** Connections

    [memcached.h], [conn_buffer.h] and [items.h] are not part of the sources at
    hand.  The sizes they define are parameters ([limits]); the fields of
    [struct conn] are the ones the functions below read or write (the
    descriptors, the event, the peer address, the receive iovecs and the
    binary-protocol fields are left out). *)

Module Connection.

Import Int Bytes Store.

(** The constants of the absent headers that the specification does not
    fix. *)
Class limits := Limits {
  DATA_BUFFER_SIZE : Z;
  WRITE_BUFFER_HIGHWAT : Z;
  ITEM_LIST_INITIAL : nat;
  ITEM_LIST_HIGHWAT : nat;
  MSG_LIST_INITIAL : nat;
  MSG_LIST_HIGHWAT : nat;
  (** [CONN_BUFFER_DATA_SZ], the size of a pooled connection buffer *)
  CONN_BUFFER_DATA_SZ : Z;
  (** [sizeof(struct iovec)] *)
  sizeof_iovec : Z;
  (** [IOV_MAX] of the platform *)
  IOV_MAX : nat }.

(** The values of memcached.h and of a 64-bit Linux, for the examples. *)
Definition linux_limits : limits :=
  Limits 2048 8192 200 400 10 100 16384 16 1024.

(** Modelled from the spec: "fragment to fit UDP_MAX_PAYLOAD_SIZE (1400
    bytes) per datagram", "an 8-byte header", "Key: 1-250 bytes". *)
Definition UDP_MAX_PAYLOAD_SIZE : Z := 1400.
Definition UDP_HEADER_SIZE : Z := 8.
Definition KEY_MAX_LENGTH : Z := 250.

(** [enum conn_states]; the last one belongs to the binary protocol. *)
Inductive conn_state :=
| conn_listening
| conn_read
| conn_write
| conn_nread
| conn_swallow
| conn_closing
| conn_mwrite
| conn_bp_header_size_unknown.

#[export] Instance conn_state_eq_dec : EqDecision conn_state.
Proof. solve_decision. Defined.

(** Where an [iov_base] points: nowhere, into the connection's header
    scratch buffer, into its write buffer, or at other memory (item data, a
    string literal), by address. *)
Inductive ptr :=
| PNull
| PHdr (off : Z)
| PWbuf (off : Z)
| PMem (addr : Z).

(** [p + n] on a [char *]. *)
Definition ptr_add (p : ptr) (n : Z) : ptr :=
  match p with
  | PNull => PNull
  | PHdr o => PHdr (o + n)
  | PWbuf o => PWbuf (o + n)
  | PMem a => PMem (a + n)
  end.

#[export] Instance ptr_eq_dec : EqDecision ptr.
Proof. solve_decision. Defined.

Record iovec := Iovec { iov_base : ptr; iov_len : Z }.

#[export] Instance iovec_eq_dec : EqDecision iovec.
Proof. solve_decision. Defined.

(** A [struct msghdr].  [msg_iov] points into the connection's [iov] array
    and is kept as the index it points at. *)
Record msghdr := Msghdr {
  msg_iov : nat;
  msg_iovlen : nat;
  msg_flags : Z;
  msg_controllen : nat }.

(** [memset(msg, 0, sizeof(struct msghdr))] *)
Definition zero_msghdr : msghdr := Msghdr 0 0 0 0.
Definition zero_iovec : iovec := Iovec PNull 0.

(** [struct conn].  [rbuf] is [None] for a NULL pointer; [rcurr] and
    [wcurr] are offsets into [rbuf] and [wbuf]; [iov] is [[]] for a NULL
    pointer; [write_and_free] tells whether the pointer is set; [icurr] is
    an index into [ilist].  Two fields are not in the C struct: [pool], the
    answers the buffer pools give to the connection's next requests
    ([pool_malloc], [pool_realloc], [alloc_conn_buffer]; [true] grants, an
    exhausted list refuses), and [bp_error], the message last handed to
    [bp_write_err_msg] of the binary protocol. *)
Record conn := Conn {
  state : conn_state;
  write_and_go : conn_state;
  udp : bool;
  binary : bool;
  rbuf : option (list Z);
  rcurr : Z;
  rsize : Z;
  rbytes : Z;
  wbuf : list Z;
  wcurr : Z;
  wsize : Z;
  wbytes : Z;
  write_and_free : bool;
  sbytes : Z;
  item : option nat;
  item_comm : nread_comm;
  update_key : string;
  crlf : list Z;
  riov_left : Z;
  ilist : list nat;
  isize : nat;
  icurr : nat;
  ileft : nat;
  iov : list iovec;
  iovsize : nat;
  iovused : nat;
  msglist : list msghdr;
  msgsize : nat;
  msgused : nat;
  msgcurr : nat;
  msgbytes : Z;
  hdrbuf : list Z;
  hdrsize : nat;
  request_id : Z;
  bucket : Z;
  gen : Z;
  pool : list bool;
  bp_error : option string }.

(** Field updates ([c->f = v]). *)
Definition set_state (v : conn_state) (c : conn) : conn :=
  Conn v (write_and_go c) (udp c) (binary c) (rbuf c) (rcurr c) (rsize c)
    (rbytes c) (wbuf c) (wcurr c) (wsize c) (wbytes c) (write_and_free c)
    (sbytes c) (item c) (item_comm c) (update_key c) (crlf c) (riov_left c)
    (ilist c) (isize c) (icurr c) (ileft c) (iov c) (iovsize c) (iovused c)
    (msglist c) (msgsize c) (msgused c) (msgcurr c) (msgbytes c) (hdrbuf c)
    (hdrsize c) (request_id c) (bucket c) (gen c) (pool c) (bp_error c).
Definition set_write_and_go (v : conn_state) (c : conn) : conn :=
  Conn (state c) v (udp c) (binary c) (rbuf c) (rcurr c) (rsize c) (rbytes c)
    (wbuf c) (wcurr c) (wsize c) (wbytes c) (write_and_free c) (sbytes c)
    (item c) (item_comm c) (update_key c) (crlf c) (riov_left c) (ilist c)
    (isize c) (icurr c) (ileft c) (iov c) (iovsize c) (iovused c) (msglist c)
    (msgsize c) (msgused c) (msgcurr c) (msgbytes c) (hdrbuf c) (hdrsize c)
    (request_id c) (bucket c) (gen c) (pool c) (bp_error c).
Definition set_rbuf (v : option (list Z)) (c : conn) : conn :=
  Conn (state c) (write_and_go c) (udp c) (binary c) v (rcurr c) (rsize c)
    (rbytes c) (wbuf c) (wcurr c) (wsize c) (wbytes c) (write_and_free c)
    (sbytes c) (item c) (item_comm c) (update_key c) (crlf c) (riov_left c)
    (ilist c) (isize c) (icurr c) (ileft c) (iov c) (iovsize c) (iovused c)
    (msglist c) (msgsize c) (msgused c) (msgcurr c) (msgbytes c) (hdrbuf c)
    (hdrsize c) (request_id c) (bucket c) (gen c) (pool c) (bp_error c).
Definition set_rcurr (v : Z) (c : conn) : conn :=
  Conn (state c) (write_and_go c) (udp c) (binary c) (rbuf c) v (rsize c)
    (rbytes c) (wbuf c) (wcurr c) (wsize c) (wbytes c) (write_and_free c)
    (sbytes c) (item c) (item_comm c) (update_key c) (crlf c) (riov_left c)
    (ilist c) (isize c) (icurr c) (ileft c) (iov c) (iovsize c) (iovused c)
    (msglist c) (msgsize c) (msgused c) (msgcurr c) (msgbytes c) (hdrbuf c)
    (hdrsize c) (request_id c) (bucket c) (gen c) (pool c) (bp_error c).
Definition set_rsize (v : Z) (c : conn) : conn :=
  Conn (state c) (write_and_go c) (udp c) (binary c) (rbuf c) (rcurr c) v
    (rbytes c) (wbuf c) (wcurr c) (wsize c) (wbytes c) (write_and_free c)
    (sbytes c) (item c) (item_comm c) (update_key c) (crlf c) (riov_left c)
    (ilist c) (isize c) (icurr c) (ileft c) (iov c) (iovsize c) (iovused c)
    (msglist c) (msgsize c) (msgused c) (msgcurr c) (msgbytes c) (hdrbuf c)
    (hdrsize c) (request_id c) (bucket c) (gen c) (pool c) (bp_error c).
Definition set_rbytes (v : Z) (c : conn) : conn :=
  Conn (state c) (write_and_go c) (udp c) (binary c) (rbuf c) (rcurr c)
    (rsize c) v (wbuf c) (wcurr c) (wsize c) (wbytes c) (write_and_free c)
    (sbytes c) (item c) (item_comm c) (update_key c) (crlf c) (riov_left c)
    (ilist c) (isize c) (icurr c) (ileft c) (iov c) (iovsize c) (iovused c)
    (msglist c) (msgsize c) (msgused c) (msgcurr c) (msgbytes c) (hdrbuf c)
    (hdrsize c) (request_id c) (bucket c) (gen c) (pool c) (bp_error c).
Definition set_wbuf (v : list Z) (c : conn) : conn :=
  Conn (state c) (write_and_go c) (udp c) (binary c) (rbuf c) (rcurr c)
    (rsize c) (rbytes c) v (wcurr c) (wsize c) (wbytes c) (write_and_free c)
    (sbytes c) (item c) (item_comm c) (update_key c) (crlf c) (riov_left c)
    (ilist c) (isize c) (icurr c) (ileft c) (iov c) (iovsize c) (iovused c)
    (msglist c) (msgsize c) (msgused c) (msgcurr c) (msgbytes c) (hdrbuf c)
    (hdrsize c) (request_id c) (bucket c) (gen c) (pool c) (bp_error c).
Definition set_wcurr (v : Z) (c : conn) : conn :=
  Conn (state c) (write_and_go c) (udp c) (binary c) (rbuf c) (rcurr c)
    (rsize c) (rbytes c) (wbuf c) v (wsize c) (wbytes c) (write_and_free c)
    (sbytes c) (item c) (item_comm c) (update_key c) (crlf c) (riov_left c)
    (ilist c) (isize c) (icurr c) (ileft c) (iov c) (iovsize c) (iovused c)
    (msglist c) (msgsize c) (msgused c) (msgcurr c) (msgbytes c) (hdrbuf c)
    (hdrsize c) (request_id c) (bucket c) (gen c) (pool c) (bp_error c).
Definition set_wsize (v : Z) (c : conn) : conn :=
  Conn (state c) (write_and_go c) (udp c) (binary c) (rbuf c) (rcurr c)
    (rsize c) (rbytes c) (wbuf c) (wcurr c) v (wbytes c) (write_and_free c)
    (sbytes c) (item c) (item_comm c) (update_key c) (crlf c) (riov_left c)
    (ilist c) (isize c) (icurr c) (ileft c) (iov c) (iovsize c) (iovused c)
    (msglist c) (msgsize c) (msgused c) (msgcurr c) (msgbytes c) (hdrbuf c)
    (hdrsize c) (request_id c) (bucket c) (gen c) (pool c) (bp_error c).
Definition set_wbytes (v : Z) (c : conn) : conn :=
  Conn (state c) (write_and_go c) (udp c) (binary c) (rbuf c) (rcurr c)
    (rsize c) (rbytes c) (wbuf c) (wcurr c) (wsize c) v (write_and_free c)
    (sbytes c) (item c) (item_comm c) (update_key c) (crlf c) (riov_left c)
    (ilist c) (isize c) (icurr c) (ileft c) (iov c) (iovsize c) (iovused c)
    (msglist c) (msgsize c) (msgused c) (msgcurr c) (msgbytes c) (hdrbuf c)
    (hdrsize c) (request_id c) (bucket c) (gen c) (pool c) (bp_error c).
Definition set_write_and_free (v : bool) (c : conn) : conn :=
  Conn (state c) (write_and_go c) (udp c) (binary c) (rbuf c) (rcurr c)
    (rsize c) (rbytes c) (wbuf c) (wcurr c) (wsize c) (wbytes c) v (sbytes c)
    (item c) (item_comm c) (update_key c) (crlf c) (riov_left c) (ilist c)
    (isize c) (icurr c) (ileft c) (iov c) (iovsize c) (iovused c) (msglist c)
    (msgsize c) (msgused c) (msgcurr c) (msgbytes c) (hdrbuf c) (hdrsize c)
    (request_id c) (bucket c) (gen c) (pool c) (bp_error c).
Definition set_item (v : option nat) (c : conn) : conn :=
  Conn (state c) (write_and_go c) (udp c) (binary c) (rbuf c) (rcurr c)
    (rsize c) (rbytes c) (wbuf c) (wcurr c) (wsize c) (wbytes c)
    (write_and_free c) (sbytes c) v (item_comm c) (update_key c) (crlf c)
    (riov_left c) (ilist c) (isize c) (icurr c) (ileft c) (iov c) (iovsize c)
    (iovused c) (msglist c) (msgsize c) (msgused c) (msgcurr c) (msgbytes c)
    (hdrbuf c) (hdrsize c) (request_id c) (bucket c) (gen c) (pool c)
    (bp_error c).
Definition set_update_key (v : string) (c : conn) : conn :=
  Conn (state c) (write_and_go c) (udp c) (binary c) (rbuf c) (rcurr c)
    (rsize c) (rbytes c) (wbuf c) (wcurr c) (wsize c) (wbytes c)
    (write_and_free c) (sbytes c) (item c) (item_comm c) v (crlf c)
    (riov_left c) (ilist c) (isize c) (icurr c) (ileft c) (iov c) (iovsize c)
    (iovused c) (msglist c) (msgsize c) (msgused c) (msgcurr c) (msgbytes c)
    (hdrbuf c) (hdrsize c) (request_id c) (bucket c) (gen c) (pool c)
    (bp_error c).
Definition set_crlf (v : list Z) (c : conn) : conn :=
  Conn (state c) (write_and_go c) (udp c) (binary c) (rbuf c) (rcurr c)
    (rsize c) (rbytes c) (wbuf c) (wcurr c) (wsize c) (wbytes c)
    (write_and_free c) (sbytes c) (item c) (item_comm c) (update_key c) v
    (riov_left c) (ilist c) (isize c) (icurr c) (ileft c) (iov c) (iovsize c)
    (iovused c) (msglist c) (msgsize c) (msgused c) (msgcurr c) (msgbytes c)
    (hdrbuf c) (hdrsize c) (request_id c) (bucket c) (gen c) (pool c)
    (bp_error c).
Definition set_isize (v : nat) (c : conn) : conn :=
  Conn (state c) (write_and_go c) (udp c) (binary c) (rbuf c) (rcurr c)
    (rsize c) (rbytes c) (wbuf c) (wcurr c) (wsize c) (wbytes c)
    (write_and_free c) (sbytes c) (item c) (item_comm c) (update_key c)
    (crlf c) (riov_left c) (ilist c) v (icurr c) (ileft c) (iov c) (iovsize c)
    (iovused c) (msglist c) (msgsize c) (msgused c) (msgcurr c) (msgbytes c)
    (hdrbuf c) (hdrsize c) (request_id c) (bucket c) (gen c) (pool c)
    (bp_error c).
Definition set_icurr (v : nat) (c : conn) : conn :=
  Conn (state c) (write_and_go c) (udp c) (binary c) (rbuf c) (rcurr c)
    (rsize c) (rbytes c) (wbuf c) (wcurr c) (wsize c) (wbytes c)
    (write_and_free c) (sbytes c) (item c) (item_comm c) (update_key c)
    (crlf c) (riov_left c) (ilist c) (isize c) v (ileft c) (iov c) (iovsize c)
    (iovused c) (msglist c) (msgsize c) (msgused c) (msgcurr c) (msgbytes c)
    (hdrbuf c) (hdrsize c) (request_id c) (bucket c) (gen c) (pool c)
    (bp_error c).
Definition set_ileft (v : nat) (c : conn) : conn :=
  Conn (state c) (write_and_go c) (udp c) (binary c) (rbuf c) (rcurr c)
    (rsize c) (rbytes c) (wbuf c) (wcurr c) (wsize c) (wbytes c)
    (write_and_free c) (sbytes c) (item c) (item_comm c) (update_key c)
    (crlf c) (riov_left c) (ilist c) (isize c) (icurr c) v (iov c) (iovsize c)
    (iovused c) (msglist c) (msgsize c) (msgused c) (msgcurr c) (msgbytes c)
    (hdrbuf c) (hdrsize c) (request_id c) (bucket c) (gen c) (pool c)
    (bp_error c).
Definition set_iov (v : list iovec) (c : conn) : conn :=
  Conn (state c) (write_and_go c) (udp c) (binary c) (rbuf c) (rcurr c)
    (rsize c) (rbytes c) (wbuf c) (wcurr c) (wsize c) (wbytes c)
    (write_and_free c) (sbytes c) (item c) (item_comm c) (update_key c)
    (crlf c) (riov_left c) (ilist c) (isize c) (icurr c) (ileft c) v
    (iovsize c) (iovused c) (msglist c) (msgsize c) (msgused c) (msgcurr c)
    (msgbytes c) (hdrbuf c) (hdrsize c) (request_id c) (bucket c) (gen c)
    (pool c) (bp_error c).
Definition set_iovsize (v : nat) (c : conn) : conn :=
  Conn (state c) (write_and_go c) (udp c) (binary c) (rbuf c) (rcurr c)
    (rsize c) (rbytes c) (wbuf c) (wcurr c) (wsize c) (wbytes c)
    (write_and_free c) (sbytes c) (item c) (item_comm c) (update_key c)
    (crlf c) (riov_left c) (ilist c) (isize c) (icurr c) (ileft c) (iov c) v
    (iovused c) (msglist c) (msgsize c) (msgused c) (msgcurr c) (msgbytes c)
    (hdrbuf c) (hdrsize c) (request_id c) (bucket c) (gen c) (pool c)
    (bp_error c).
Definition set_iovused (v : nat) (c : conn) : conn :=
  Conn (state c) (write_and_go c) (udp c) (binary c) (rbuf c) (rcurr c)
    (rsize c) (rbytes c) (wbuf c) (wcurr c) (wsize c) (wbytes c)
    (write_and_free c) (sbytes c) (item c) (item_comm c) (update_key c)
    (crlf c) (riov_left c) (ilist c) (isize c) (icurr c) (ileft c) (iov c)
    (iovsize c) v (msglist c) (msgsize c) (msgused c) (msgcurr c) (msgbytes c)
    (hdrbuf c) (hdrsize c) (request_id c) (bucket c) (gen c) (pool c)
    (bp_error c).
Definition set_msglist (v : list msghdr) (c : conn) : conn :=
  Conn (state c) (write_and_go c) (udp c) (binary c) (rbuf c) (rcurr c)
    (rsize c) (rbytes c) (wbuf c) (wcurr c) (wsize c) (wbytes c)
    (write_and_free c) (sbytes c) (item c) (item_comm c) (update_key c)
    (crlf c) (riov_left c) (ilist c) (isize c) (icurr c) (ileft c) (iov c)
    (iovsize c) (iovused c) v (msgsize c) (msgused c) (msgcurr c) (msgbytes c)
    (hdrbuf c) (hdrsize c) (request_id c) (bucket c) (gen c) (pool c)
    (bp_error c).
Definition set_msgsize (v : nat) (c : conn) : conn :=
  Conn (state c) (write_and_go c) (udp c) (binary c) (rbuf c) (rcurr c)
    (rsize c) (rbytes c) (wbuf c) (wcurr c) (wsize c) (wbytes c)
    (write_and_free c) (sbytes c) (item c) (item_comm c) (update_key c)
    (crlf c) (riov_left c) (ilist c) (isize c) (icurr c) (ileft c) (iov c)
    (iovsize c) (iovused c) (msglist c) v (msgused c) (msgcurr c) (msgbytes c)
    (hdrbuf c) (hdrsize c) (request_id c) (bucket c) (gen c) (pool c)
    (bp_error c).
Definition set_msgused (v : nat) (c : conn) : conn :=
  Conn (state c) (write_and_go c) (udp c) (binary c) (rbuf c) (rcurr c)
    (rsize c) (rbytes c) (wbuf c) (wcurr c) (wsize c) (wbytes c)
    (write_and_free c) (sbytes c) (item c) (item_comm c) (update_key c)
    (crlf c) (riov_left c) (ilist c) (isize c) (icurr c) (ileft c) (iov c)
    (iovsize c) (iovused c) (msglist c) (msgsize c) v (msgcurr c) (msgbytes c)
    (hdrbuf c) (hdrsize c) (request_id c) (bucket c) (gen c) (pool c)
    (bp_error c).
Definition set_msgcurr (v : nat) (c : conn) : conn :=
  Conn (state c) (write_and_go c) (udp c) (binary c) (rbuf c) (rcurr c)
    (rsize c) (rbytes c) (wbuf c) (wcurr c) (wsize c) (wbytes c)
    (write_and_free c) (sbytes c) (item c) (item_comm c) (update_key c)
    (crlf c) (riov_left c) (ilist c) (isize c) (icurr c) (ileft c) (iov c)
    (iovsize c) (iovused c) (msglist c) (msgsize c) (msgused c) v (msgbytes c)
    (hdrbuf c) (hdrsize c) (request_id c) (bucket c) (gen c) (pool c)
    (bp_error c).
Definition set_msgbytes (v : Z) (c : conn) : conn :=
  Conn (state c) (write_and_go c) (udp c) (binary c) (rbuf c) (rcurr c)
    (rsize c) (rbytes c) (wbuf c) (wcurr c) (wsize c) (wbytes c)
    (write_and_free c) (sbytes c) (item c) (item_comm c) (update_key c)
    (crlf c) (riov_left c) (ilist c) (isize c) (icurr c) (ileft c) (iov c)
    (iovsize c) (iovused c) (msglist c) (msgsize c) (msgused c) (msgcurr c) v
    (hdrbuf c) (hdrsize c) (request_id c) (bucket c) (gen c) (pool c)
    (bp_error c).
Definition set_hdrbuf (v : list Z) (c : conn) : conn :=
  Conn (state c) (write_and_go c) (udp c) (binary c) (rbuf c) (rcurr c)
    (rsize c) (rbytes c) (wbuf c) (wcurr c) (wsize c) (wbytes c)
    (write_and_free c) (sbytes c) (item c) (item_comm c) (update_key c)
    (crlf c) (riov_left c) (ilist c) (isize c) (icurr c) (ileft c) (iov c)
    (iovsize c) (iovused c) (msglist c) (msgsize c) (msgused c) (msgcurr c)
    (msgbytes c) v (hdrsize c) (request_id c) (bucket c) (gen c) (pool c)
    (bp_error c).
Definition set_hdrsize (v : nat) (c : conn) : conn :=
  Conn (state c) (write_and_go c) (udp c) (binary c) (rbuf c) (rcurr c)
    (rsize c) (rbytes c) (wbuf c) (wcurr c) (wsize c) (wbytes c)
    (write_and_free c) (sbytes c) (item c) (item_comm c) (update_key c)
    (crlf c) (riov_left c) (ilist c) (isize c) (icurr c) (ileft c) (iov c)
    (iovsize c) (iovused c) (msglist c) (msgsize c) (msgused c) (msgcurr c)
    (msgbytes c) (hdrbuf c) v (request_id c) (bucket c) (gen c) (pool c)
    (bp_error c).
Definition set_request_id (v : Z) (c : conn) : conn :=
  Conn (state c) (write_and_go c) (udp c) (binary c) (rbuf c) (rcurr c)
    (rsize c) (rbytes c) (wbuf c) (wcurr c) (wsize c) (wbytes c)
    (write_and_free c) (sbytes c) (item c) (item_comm c) (update_key c)
    (crlf c) (riov_left c) (ilist c) (isize c) (icurr c) (ileft c) (iov c)
    (iovsize c) (iovused c) (msglist c) (msgsize c) (msgused c) (msgcurr c)
    (msgbytes c) (hdrbuf c) (hdrsize c) v (bucket c) (gen c) (pool c)
    (bp_error c).
Definition set_bucket (v : Z) (c : conn) : conn :=
  Conn (state c) (write_and_go c) (udp c) (binary c) (rbuf c) (rcurr c)
    (rsize c) (rbytes c) (wbuf c) (wcurr c) (wsize c) (wbytes c)
    (write_and_free c) (sbytes c) (item c) (item_comm c) (update_key c)
    (crlf c) (riov_left c) (ilist c) (isize c) (icurr c) (ileft c) (iov c)
    (iovsize c) (iovused c) (msglist c) (msgsize c) (msgused c) (msgcurr c)
    (msgbytes c) (hdrbuf c) (hdrsize c) (request_id c) v (gen c) (pool c)
    (bp_error c).
Definition set_gen (v : Z) (c : conn) : conn :=
  Conn (state c) (write_and_go c) (udp c) (binary c) (rbuf c) (rcurr c)
    (rsize c) (rbytes c) (wbuf c) (wcurr c) (wsize c) (wbytes c)
    (write_and_free c) (sbytes c) (item c) (item_comm c) (update_key c)
    (crlf c) (riov_left c) (ilist c) (isize c) (icurr c) (ileft c) (iov c)
    (iovsize c) (iovused c) (msglist c) (msgsize c) (msgused c) (msgcurr c)
    (msgbytes c) (hdrbuf c) (hdrsize c) (request_id c) (bucket c) v (pool c)
    (bp_error c).
Definition set_pool (v : list bool) (c : conn) : conn :=
  Conn (state c) (write_and_go c) (udp c) (binary c) (rbuf c) (rcurr c)
    (rsize c) (rbytes c) (wbuf c) (wcurr c) (wsize c) (wbytes c)
    (write_and_free c) (sbytes c) (item c) (item_comm c) (update_key c)
    (crlf c) (riov_left c) (ilist c) (isize c) (icurr c) (ileft c) (iov c)
    (iovsize c) (iovused c) (msglist c) (msgsize c) (msgused c) (msgcurr c)
    (msgbytes c) (hdrbuf c) (hdrsize c) (request_id c) (bucket c) (gen c) v
    (bp_error c).
Definition set_bp_error (v : option string) (c : conn) : conn :=
  Conn (state c) (write_and_go c) (udp c) (binary c) (rbuf c) (rcurr c)
    (rsize c) (rbytes c) (wbuf c) (wcurr c) (wsize c) (wbytes c)
    (write_and_free c) (sbytes c) (item c) (item_comm c) (update_key c)
    (crlf c) (riov_left c) (ilist c) (isize c) (icurr c) (ileft c) (iov c)
    (iovsize c) (iovused c) (msglist c) (msgsize c) (msgused c) (msgcurr c)
    (msgbytes c) (hdrbuf c) (hdrsize c) (request_id c) (bucket c) (gen c)
    (pool c) v.

(** The next answer of the buffer pools. *)
Definition pool_take (c : conn) : bool * conn :=
  match pool c with
  | b :: rest => (b, set_pool rest c)
  | [] => (false, c)
  end.

(** The process-wide settings and globals the text protocol reads. *)
Record settings_t := Settings {
  managed : bool;
  buckets : list Z;
  (** [time_t started] *)
  started : Z }.

Section WithLimits.
Context {L : limits}.

(** [void conn_shrink(conn* c)], one definition per block of the function:
    the read buffer is dropped when empty and compacted otherwise; *)
Definition shrink_rbuf (c : conn) : conn :=
  match rbuf c with
  | Some buf =>
      if rbytes c =? 0 then
        (* drop the buffer since we have no bytes to preserve. *)
        set_rsize 0 (set_rcurr 0 (set_rbuf None c))
      else
        set_rcurr 0
          (set_rbuf (Some (memcpy buf 0 (drop (Z.to_nat (rcurr c)) buf)
                                  (Z.to_nat (rbytes c)))) c)
  | None => set_rcurr 0 c
  end.

(** the write buffer goes back to [DATA_BUFFER_SIZE] when it has grown past
    the high-water mark and the pool can reallocate it; *)
Definition shrink_wbuf (c : conn) : conn :=
  if wsize c >? WRITE_BUFFER_HIGHWAT then
    let '(ok, c) := pool_take c in
    if ok then
      set_wsize DATA_BUFFER_SIZE
        (set_wbuf (take (Z.to_nat DATA_BUFFER_SIZE) (wbuf c)) c)
    else c
  else c.

(** so do the item list *)
Definition shrink_ilist (c : conn) : conn :=
  if bool_decide (ITEM_LIST_HIGHWAT < isize c)%nat then
    let '(ok, c) := pool_take c in
    if ok then set_isize ITEM_LIST_INITIAL c else c
  else c.

(** and the message list; *)
Definition shrink_msglist (c : conn) : conn :=
  if bool_decide (MSG_LIST_HIGHWAT < msgsize c)%nat then
    let '(ok, c) := pool_take c in
    if ok then
      set_msgsize MSG_LIST_INITIAL
        (set_msglist (take MSG_LIST_INITIAL (msglist c)) c)
    else c
  else c.

(** the iovec list is returned to the pool. *)
Definition shrink_iov (c : conn) : conn :=
  if bool_decide (iov c ≠ []) then set_iovsize 0 (set_iov [] c) else c.

Definition conn_shrink (c : conn) : conn :=
  if udp c then c
  else shrink_iov (shrink_msglist (shrink_ilist (shrink_wbuf (shrink_rbuf c)))).

(** [static void conn_set_state(conn* c, int state)].  The rehash step
    [assoc_move_next_bucket] does not change what the index holds. *)
Definition conn_set_state (st : conn_state) (c : conn) : conn :=
  if bool_decide (st ≠ state c) then
    let c :=
      if bool_decide (st = conn_read) then
        set_iovused 0 (set_msgused 0 (set_msgcurr 0 (conn_shrink c)))
      else c in
    set_state st c
  else c.

(** ["SERVER_ERROR output line too long"] *)
Definition too_long : string := "SERVER_ERROR output line too long".

(** [static void out_string(conn* c, const char *str)].  [len + 2 >
    c->wsize] compares in [size_t]; with a nonnegative [wsize] that is the
    comparison of the numbers. *)
Definition out_string (str : string) (c : conn) : conn :=
  let c := set_iovused 0 (set_msgused 0 c) in
  let len := strlen str in
  let '(str, len) :=
    if len + 2 >? wsize c then
      (* ought to be always enough. just fail for simplicity *)
      (too_long, strlen too_long)
    else (str, len) in
  let c := set_wbuf (memcpy (wbuf c) 0 (bytes_of_string str) (Z.to_nat len)) c in
  let c := set_wbuf (memcpy (wbuf c) (Z.to_nat len) CRLF 2) c in
  let c := set_wbytes (len + 2) c in
  let c := set_wcurr 0 c in
  let c := conn_set_state conn_write c in
  set_write_and_go conn_read c.

(** Where [out_string]'s two [memcpy] calls end: the first byte they do not
    write, counted from the start of [wbuf]. *)
Definition out_string_copy_end (str : string) (c : conn) : Z :=
  let len := strlen str in
  (if len + 2 >? wsize c then strlen too_long else len) + 2.

(** The bytes a connection in [conn_write] has to send: [wbytes] bytes from
    [wcurr]. *)
Definition pending_reply (c : conn) : list Z :=
  take (Z.to_nat (wbytes c)) (drop (Z.to_nat (wcurr c)) (wbuf c)).

(** [static void complete_nread(conn* c)], entered with [c->item] set.
    [store_item] and [item_deref] are [do_store_item] and [do_item_deref]
    under the cache lock. *)
Definition complete_nread (c : conn) (s : cache) : conn * cache :=
  match item c with
  | None => (c, s)
  | Some it =>
      let comm := item_comm c in
      let '(c, s) :=
        if bool_decide (take 2 (crlf c) ≠ CRLF) then
          (out_string "CLIENT_ERROR bad data chunk" c, s)
        else
          let '(stored, s) := do_store_item it comm (update_key c) s in
          if negb (stored =? 0) then (out_string "STORED" c, s)
          else (out_string "NOT_STORED" c, s) in
      (* release the c->item reference *)
      (set_item None c, do_item_deref it s)
  end.

(** The [conn_nread] case of [drive_machine] once the body has been read
    ([riov_left == 0]): [complete_nread].  While iovecs are left the case
    copies or reads into them; that part is not embedded and the result is
    [None]. *)
Definition drive_machine_nread (c : conn) (s : cache) : option (conn * cache) :=
  if riov_left c =? 0 then Some (complete_nread c s) else None.




(** *** The scatter/gather reply builder *)

#[export] Instance msghdr_inhabited : Inhabited msghdr := populate zero_msghdr.
#[export] Instance iovec_inhabited : Inhabited iovec := populate zero_iovec.

(** [CONN_BUFFER_DATA_SZ / sizeof(struct iovec)] *)
Definition iov_capacity : nat := Z.to_nat (CONN_BUFFER_DATA_SZ / sizeof_iovec).

(** [static int ensure_iov_space(conn* c)] *)
Definition ensure_iov_space (c : conn) : conn * Z :=
  let c :=
    if bool_decide (iovsize c = 0%nat) then
      let '(ok, c) := pool_take c in
      if ok then set_iovsize iov_capacity (set_iov (replicate iov_capacity zero_iovec) c)
      else set_iov [] c
    else c in
  if bool_decide (iovsize c <= iovused c)%nat then (c, -1) else (c, 0).

(** The body of [add_msghdr] up to [c->msgused++]: the next slot of the
    message list (doubled first when it is full) is wiped and pointed at the
    next free iovec. *)
Definition open_msghdr (c : conn) : conn * Z :=
  let '(c, grown) :=
    if bool_decide (msgsize c = msgused c) then
      let '(ok, c) := pool_take c in
      if ok then
        (set_msgsize (msgsize c * 2)
           (set_msglist (msglist c ++ replicate (msgsize c) zero_msghdr) c), true)
      else (c, false)
    else (c, true) in
  if negb grown then (c, -1)
  else
    let i := msgused c in
    (* this wipes msg_iovlen, msg_control, msg_controllen, and msg_flags *)
    let c := set_msglist (<[i := zero_msghdr]> (msglist c)) c in
    let '(c, r) := ensure_iov_space c in
    if negb (r =? 0) then (c, -1)
    else
      let c := set_msglist (<[i := Msghdr (iovused c) 0 0 0]> (msglist c)) c in
      let c := set_msgbytes 0 c in
      (set_msgused (S (msgused c)) c, 0).

(** [int add_msghdr(conn* c)], over the [add_iov] it calls for the UDP
    header.  The result is [None] only when that call gives [None]. *)
Definition add_msghdr_with (add_iov : ptr -> Z -> bool -> conn -> option (conn * Z))
    (c : conn) : option (conn * Z) :=
  let '(c, r) := open_msghdr c in
  if negb (r =? 0) then Some (c, -1)
  else if udp c then
    (* Leave room for the UDP header, which we'll fill in later. *)
    add_iov PNull UDP_HEADER_SIZE false c
  else Some (c, 0).

(** The body of the loop of [add_iov] from [m->msg_iov[m->msg_iovlen]] to
    [m->msg_iovlen++]: the fragment becomes the next iovec of the last
    message. *)
Definition append_iov (buf : ptr) (len : Z) (is_start : bool) (c : conn) : conn :=
  let i := (msgused c - 1)%nat in
  let m := msglist c !!! i in
  let c := set_iov (<[(msg_iov m + msg_iovlen m)%nat := Iovec buf len]> (iov c)) c in
  (* If this is the start of a response (e.g., a "VALUE" line), and it's
     the first one so far in this message, mark it as such so we can put
     its offset in the UDP header. *)
  let m :=
    if udp c && is_start && (msg_flags m =? 0)
    then Msghdr (msg_iov m) (msg_iovlen m) 1 (msg_iovlen m)
    else m in
  let c := set_msgbytes (msgbytes c + len) c in
  let c := set_iovused (S (iovused c)) c in
  let m := Msghdr (msg_iov m) (S (msg_iovlen m)) (msg_flags m) (msg_controllen m) in
  set_msglist (<[i := m]> (msglist c)) c.

(** [int add_iov(conn* c, const void *buf, int len, bool is_start)]: one
    unit of [fuel] per iteration of the [do ... while (leftover > 0)] loop
    and per nested call through [add_msghdr]; [None] when it runs out.  The
    result of the [add_msghdr] call is ignored, as in the source. *)
Fixpoint add_iov_fuel (fuel : nat) (buf : ptr) (len : Z) (is_start : bool)
    (c : conn) : option (conn * Z) :=
  match fuel with
  | O => None
  | S fuel =>
      let m := msglist c !!! (msgused c - 1)%nat in
      (* Limit UDP packets, and the first payloads of TCP replies, to
         UDP_MAX_PAYLOAD_SIZE bytes. *)
      let limit_to_mtu := udp c || bool_decide (1%nat = msgused c) in
      (* We may need to start a new msghdr if this one is full. *)
      let next :=
        if bool_decide (msg_iovlen m = IOV_MAX)
           || (limit_to_mtu && (msgbytes c >=? UDP_MAX_PAYLOAD_SIZE))
        then fst <$> add_msghdr_with (add_iov_fuel fuel) c
        else Some c in
      match next with
      | None => None
      | Some c =>
          let '(c, r) := ensure_iov_space c in
          if negb (r =? 0) then Some (c, -1)
          else
            (* If the fragment is too big to fit in the datagram, split it up *)
            let leftover :=
              if limit_to_mtu && (len + msgbytes c >? UDP_MAX_PAYLOAD_SIZE)
              then len + msgbytes c - UDP_MAX_PAYLOAD_SIZE else 0 in
            let len := len - leftover in
            let c := append_iov buf len is_start c in
            if leftover >? 0
            then add_iov_fuel fuel (ptr_add buf len) leftover false c
            else Some (c, 0)
      end
  end.

(** Iovec slots still free, counting the list that [ensure_iov_space] would
    allocate. *)
Definition iov_room (c : conn) : nat :=
  ((if bool_decide (iovsize c = 0%nat) then iov_capacity else iovsize c)
   - iovused c)%nat.

(** Every iteration of [add_iov] takes an iovec slot, so [iov_room c + 2]
    units of fuel are enough ([add_iov_total] below). *)
Definition add_iov (buf : ptr) (len : Z) (is_start : bool) (c : conn)
  : option (conn * Z) :=
  add_iov_fuel (iov_room c + 2) buf len is_start c.

Definition add_msghdr (c : conn) : option (conn * Z) :=
  add_msghdr_with (add_iov_fuel (iov_room c + 2)) c.

(** The eight bytes [build_udp_headers] stores for one message; [/] and [%]
    on [int] truncate, and each store keeps the low eight bits. *)
Definition udp_header (request_id i total offset : Z) : list Z :=
  [ to_uchar (Z.quot request_id 256); to_uchar (Z.rem request_id 256);
    to_uchar (Z.quot i 256); to_uchar (Z.rem i 256);
    to_uchar (Z.quot total 256); to_uchar (Z.rem total 256);
    to_uchar (Z.quot offset 256); to_uchar (Z.rem offset 256) ].

(** [for (j = 0; j < msg_controllen; j++) offset += msg_iov[j].iov_len] *)
Definition first_line_offset (m : msghdr) (c : conn) : Z :=
  foldl (fun off j => off + iov_len (iov c !!! (msg_iov m + j)%nat)) 0
        (seq 0 (msg_controllen m)).

(** The body of the loop of [build_udp_headers] for message [i]; [hdr] has
    advanced to [hdrbuf + 8 * i]. *)
Definition build_udp_header (c : conn) (i : nat) : conn :=
  let m := msglist c !!! i in
  let hdr := UDP_HEADER_SIZE * Z.of_nat i in
  let c := set_iov (<[msg_iov m := Iovec (PHdr hdr) UDP_HEADER_SIZE]> (iov c)) c in
  (* Find the offset of the first response line in the message, if any *)
  let '(offset, c) :=
    if negb (msg_flags m =? 0) then
      (first_line_offset m c,
       set_msglist (<[i := Msghdr (msg_iov m) (msg_iovlen m) 0 0]> (msglist c)) c)
    else (0, c) in
  set_hdrbuf
    (memcpy (hdrbuf c) (Z.to_nat hdr)
            (udp_header (request_id c) (Z.of_nat i) (Z.of_nat (msgused c)) offset) 8) c.

(** [int build_udp_headers(conn* c)] *)
Definition build_udp_headers (c : conn) : conn * Z :=
  let '(c, grown) :=
    if bool_decide (hdrsize c < msgused c)%nat then
      let '(ok, c) := pool_take c in
      if ok then
        let n := (msgused c * 2 * Z.to_nat UDP_HEADER_SIZE)%nat in
        (set_hdrsize (msgused c * 2)
           (set_hdrbuf (take n (hdrbuf c ++ replicate n 0)) c), true)
      else (c, false)
    else (c, true) in
  if negb grown then (c, -1)
  else (foldl build_udp_header c (seq 0 (msgused c)), 0).

(** *** Transmission *)

Inductive transmit_result :=
| TRANSMIT_COMPLETE
| TRANSMIT_INCOMPLETE
| TRANSMIT_SOFT_ERROR
| TRANSMIT_HARD_ERROR.

Inductive errno_t := EAGAIN | EWOULDBLOCK | EOTHER.

(** What a [read], [recvfrom] or [sendmsg] call returned, with [errno]. *)
Record io_outcome := IoOutcome { io_res : Z; io_errno : errno_t }.

Definition would_block (o : io_outcome) : bool :=
  (io_res o =? -1)
  && match io_errno o with EAGAIN | EWOULDBLOCK => true | EOTHER => false end.

(** [while (m->msg_iovlen > 0 && res >= m->msg_iov->iov_len)]: drop the
    iovecs written in full; at most [n] of them. *)
Fixpoint drop_written (n : nat) (res : Z) (m : msghdr) (c : conn) : Z * msghdr :=
  match n with
  | O => (res, m)
  | S n =>
      if bool_decide (0 < msg_iovlen m)%nat && (res >=? iov_len (iov c !!! msg_iov m))
      then drop_written n (res - iov_len (iov c !!! msg_iov m))
             (Msghdr (S (msg_iov m)) (msg_iovlen m - 1) (msg_flags m) (msg_controllen m)) c
      else (res, m)
  end.

(** [int transmit(conn* c)]; [sent] is what [sendmsg] returns when it is
    called and [event_ok] what [update_event] returns when it is called. *)
Definition transmit (sent : io_outcome) (event_ok : bool) (c : conn)
  : conn * transmit_result :=
  let c :=
    if bool_decide (msgcurr c < msgused c)%nat
       && bool_decide (msg_iovlen (msglist c !!! msgcurr c) = 0%nat)
    then (* Finished writing the current msg; advance to the next. *)
      set_msgcurr (S (msgcurr c)) c
    else c in
  if bool_decide (msgcurr c < msgused c)%nat then
    let m := msglist c !!! msgcurr c in
    let res := io_res sent in
    if res >? 0 then
      (* We've written some of the data. Remove the completed iovec
         entries from the list of pending writes. *)
      let '(res, m) := drop_written (msg_iovlen m) res m c in
      let c := set_msglist (<[msgcurr c := m]> (msglist c)) c in
      (* Might have written just part of the last iovec entry; adjust it
         so the next write will do the rest. *)
      let c :=
        if res >? 0 then
          let v := iov c !!! msg_iov m in
          set_iov (<[msg_iov m := Iovec (ptr_add (iov_base v) res) (iov_len v - res)]>
                     (iov c)) c
        else c in
      (c, TRANSMIT_INCOMPLETE)
    else if would_block sent then
      if negb event_ok then
        ((if binary c then set_state conn_closing c
          else conn_set_state conn_closing c), TRANSMIT_HARD_ERROR)
      else (c, TRANSMIT_SOFT_ERROR)
    else
      (* if res==0 or res==-1 and error is not EAGAIN or EWOULDBLOCK, we
         have a real error, on which we close the connection *)
      let c :=
        if binary c then
          if udp c then set_state conn_bp_header_size_unknown c
          else set_state conn_closing c
        else
          if udp c then conn_set_state conn_read c
          else conn_set_state conn_closing c in
      (c, TRANSMIT_HARD_ERROR)
  else (c, TRANSMIT_COMPLETE).

(** The loop that releases the pinned items: while [ileft > 0], deref the
    item [icurr] points at, advance [icurr], decrement [ileft]. *)
Fixpoint release_items (n : nat) (c : conn) (s : cache) : conn * cache :=
  match n with
  | O => (c, s)
  | S n =>
      if bool_decide (0 < ileft c)%nat then
        let s := match ilist c !! icurr c with
                 | Some it => do_item_deref it s
                 | None => s
                 end in
        release_items n (set_ileft (ileft c - 1) (set_icurr (S (icurr c)) c)) s
      else (c, s)
  end.

(** The [conn_mwrite] case of [drive_machine], which the [conn_write] case
    falls through to.  The last component is [stop]. *)
Definition drive_machine_mwrite (sent : io_outcome) (event_ok : bool)
    (c : conn) (s : cache) : conn * cache * bool :=
  let '(c, r) := transmit sent event_ok c in
  match r with
  | TRANSMIT_COMPLETE =>
      let '(c, s) :=
        if bool_decide (state c = conn_mwrite) then
          let '(c, s) := release_items (ileft c) c s in
          (conn_set_state conn_read c, s)
        else if bool_decide (state c = conn_write) then
          let c := if write_and_free c then set_write_and_free false c else c in
          (conn_set_state (write_and_go c) c, s)
        else (conn_set_state conn_closing c, s) in
      (* clear and reset wbuf. *)
      (set_wbytes 0 (set_wcurr 0 c), s, false)
  | TRANSMIT_INCOMPLETE | TRANSMIT_HARD_ERROR => (c, s, false)
  | TRANSMIT_SOFT_ERROR => (c, s, true)
  end.





(** *** The UDP reader *)



(** The command input of a connection: [rbytes] bytes from [rcurr]. *)
Definition command_input (c : conn) : list Z :=
  match rbuf c with
  | Some buf => take (Z.to_nat (rbytes c)) (drop (Z.to_nat (rcurr c)) buf)
  | None => []
  end.

(** *** Predicates and harnesses the properties are stated with *)

(** The write buffer is an array of [wsize] bytes, and large enough for the
    replies considered below, which are all shorter than 64 bytes
    ([conn_new] allocates [DATA_BUFFER_SIZE] bytes, and [conn_shrink] and
    [ensure_wbuf] never leave fewer). *)
Definition wbuf_ok (c : conn) : Prop :=
  length (wbuf c) = Z.to_nat (wsize c) /\ 64 <= wsize c.

(** A reply line on the wire: the message followed by CR LF. *)
Definition reply_line (msg : string) : list Z := bytes_of_string msg ++ CRLF.

(** The message [out_string] copies for [str]. *)
Definition out_string_message (str : string) (c : conn) : string :=
  if strlen str + 2 >? wsize c then too_long else str.

(** [transmit] calls [sendmsg]: a message is left after the step over a
    finished one. *)
Definition sendmsg_called (c : conn) : bool :=
  let c :=
    if bool_decide (msgcurr c < msgused c)%nat
       && bool_decide (msg_iovlen (msglist c !!! msgcurr c) = 0%nat)
    then set_msgcurr (S (msgcurr c)) c
    else c in
  bool_decide (msgcurr c < msgused c)%nat.

(** A hard transmit failure: [sendmsg] returned 0, or failed with an error
    other than would-block. *)
Definition hard_failure (sent : io_outcome) : bool :=
  negb (io_res sent >? 0) && negb (would_block sent).




(** *** UDP replies *)

Definition iov_bytes (l : list iovec) : Z :=
  foldr (fun v n => iov_len v + n) 0 l.

(** The iovecs of message [i]: [msg_iovlen] entries of [iov] from [msg_iov]. *)
Definition msg_iovs (c : conn) (i : nat) : list iovec :=
  let m := msglist c !!! i in
  take (msg_iovlen m) (drop (msg_iov m) (iov c)).

(** Datagram [i] of a reply as [sendmsg] gathers it: the bytes its first
    iovec points at in the header buffer, and the length of the rest. *)
Definition datagram_header (c : conn) (i : nat) : list Z :=
  match msg_iovs c i with
  | Iovec (PHdr off) n :: _ => take (Z.to_nat n) (drop (Z.to_nat off) (hdrbuf c))
  | _ => []
  end.

Definition datagram_payload_len (c : conn) (i : nat) : Z :=
  iov_bytes (tail (msg_iovs c i)).

(** Two connections that differ at most in the iovec list, its size and
    the pool. *)
Definition same_messages (c c' : conn) : Prop :=
  udp c' = udp c /\ msglist c' = msglist c /\ msgsize c' = msgsize c
  /\ msgused c' = msgused c /\ msgbytes c' = msgbytes c
  /\ hdrbuf c' = hdrbuf c /\ hdrsize c' = hdrsize c
  /\ request_id c' = request_id c /\ iovused c' = iovused c.

(** The iovecs of a datagram under construction: the place of the 8-byte
    header, then fragments of nonnegative length, within the limit. *)
Definition group_ok (g : list iovec) : Prop :=
  exists rest, g = Iovec PNull UDP_HEADER_SIZE :: rest
    /\ Forall (fun v => 0 <= iov_len v) rest
    /\ iov_bytes g <= UDP_MAX_PAYLOAD_SIZE.

(** The messages of [c] are laid out over [iov] as the groups [gs], one
    after the other. *)
Definition laid_out (c : conn) (gs : list (list iovec)) : Prop :=
  length gs = msgused c
  /\ concat gs = take (iovused c) (iov c)
  /\ forall i g, gs !! i = Some g ->
       exists m, msglist c !! i = Some m
         /\ msg_iov m = length (concat (take i gs))
         /\ msg_iovlen m = length g.

(** The lists of a UDP connection are consistent and its messages are the
    groups [gs], each a datagram under construction. *)
Definition reply_layout (c : conn) (gs : list (list iovec)) : Prop :=
  udp c = true /\ (0 < IOV_MAX)%nat
  /\ length (msglist c) = msgsize c /\ (0 < msgsize c)%nat
  /\ (msgused c <= msgsize c)%nat
  /\ length (iov c) = iovsize c /\ (iovused c <= iovsize c)%nat
  /\ length (hdrbuf c) = (hdrsize c * 8)%nat
  /\ laid_out c gs /\ Forall group_ok gs.

(** The invariant of a UDP reply under construction: there is a message,
    and [msgbytes] counts the bytes of the last one. *)
Definition udp_reply (c : conn) : Prop :=
  exists gs, reply_layout c gs /\ gs <> []
    /\ forall g, last gs = Some g -> msgbytes c = iov_bytes g.

(** A UDP connection about to assemble a reply: [process_command] and the
    [conn_write] case start from [msgused == 0] and [iovused == 0]; the
    lists have the sizes the connection records. *)
Definition reply_start (c : conn) : Prop :=
  udp c = true /\ (0 < IOV_MAX)%nat
  /\ msgused c = 0%nat /\ iovused c = 0%nat
  /\ length (msglist c) = msgsize c /\ (0 < msgsize c)%nat
  /\ length (iov c) = iovsize c
  /\ length (hdrbuf c) = (hdrsize c * 8)%nat.

(** The groups of a reply once [build_udp_headers] has treated the first [k]
    messages: their first iovec points at the header. *)
Definition stamp (k : nat) (gs : list (list iovec)) : list (list iovec) :=
  imap (fun i g =>
          if bool_decide (i < k)%nat
          then Iovec (PHdr (UDP_HEADER_SIZE * Z.of_nat i)) UDP_HEADER_SIZE :: tail g
          else g) gs.

(** The loop invariant of [build_udp_headers] after [k] iterations, from
    the connection [c0] with groups [gs]. *)
Definition headers_built (c0 : conn) (gs : list (list iovec)) (k : nat)
    (c : conn) : Prop :=
  msgused c = msgused c0 /\ iovused c = iovused c0
  /\ request_id c = request_id c0
  /\ length (hdrbuf c) = length (hdrbuf c0)
  /\ length (iov c) = length (iov c0)
  /\ laid_out c (stamp k gs)
  /\ forall i, (i < k)%nat ->
       exists off,
         take 8 (drop (8 * i) (hdrbuf c))
         = udp_header (request_id c0) (Z.of_nat i) (Z.of_nat (msgused c0)) off.

(** The connections a reply under construction goes through: the first
    [add_msghdr], then any calls of [add_iov], whatever they return. *)
Inductive building : conn -> Prop :=
| building_first c c' :
    reply_start c -> add_msghdr c = Some (c', 0) -> building c'
| building_more c buf len is_start c' r :
    building c -> 0 <= len -> add_iov buf len is_start c = Some (c', r) ->
    building c'.

(** A two-byte big-endian field. *)
Definition be16 (hi lo : Z) : Z := hi * 256 + lo.

Definition is_byte (b : Z) : Prop := 0 <= b < 256.


End WithLimits.

(** A fresh TCP connection as [conn_new] leaves it, with [linux_limits]. *)
Definition tcp_conn : conn :=
  Conn conn_read conn_read false false None 0 0 0 (replicate 2048 0) 0 2048 0
       false 0 None NREAD_SET "" [0; 0] 0 [] 200 0 0 [] 0 0
       (replicate 10 zero_msghdr) 10 0 0 0 [] 0 0 (-1) 0 [true; true; true] None.

(** A fresh UDP connection. *)
Definition udp_conn : conn :=
  Conn conn_read conn_read true false None 0 0 0 (replicate 2048 0) 0 2048 0
       false 0 None NREAD_SET "" [0; 0] 0 [] 200 0 0 [] 0 0
       (replicate 10 zero_msghdr) 10 0 0 0 [] 0 0 (-1) 0 [true; true; true] None.

(** A TCP connection that has read the body of [set k 0 0 1] into item 1,
    with the two bytes after the value in [crlf]. *)
Definition nread_conn (crlf : list Z) : conn :=
  set_crlf crlf (set_update_key "k" (set_item (Some 1%nat)
    (set_state conn_nread tcp_conn))).

Definition plain_settings : settings_t := Settings false [] 1200000000.



(** A connection with one message of one 8-byte iovec left to send. *)
Definition sending_conn (is_udp : bool) : conn :=
  set_state conn_write
    (set_msglist [Msghdr 0 1 0 0]
       (set_msgused 1
          (set_iovused 1
             (set_iovsize 1
                (set_iov [Iovec (PWbuf 0) 8]
                   (set_wbytes 8
                      (if is_udp then udp_conn else tcp_conn))))))).

End Connection.

(** ** The command tokenizer *)

Module Tokens.

(** [token_t]: [value] is a pointer into the command, kept as the offset
    from its start ([None] for NULL), and [length] the token's length. *)
Record token_t := Token { tk_value : option nat; tk_length : nat }.

(** [#define MAX_TOKENS 6], [#define KEY_TOKEN 1] *)
Definition MAX_TOKENS : nat := 6.
Definition KEY_TOKEN : nat := 1.

(** [*p] for [p] at offset [i] of the command: the array ends with the NUL
    that terminates the string, also when the list holds none. *)
Definition char_at (cmd : list Z) (i : nat) : Z := default 0 (cmd !! i).

(** The loop of [tokenize_command].  [rest] is what [e] has still to read,
    [s] and [e] are offsets from [command], [cmd] is the string with the
    spaces replaced so far and [tokens] the filled part of the array
    ([ntokens] is its length).  The result carries [e] as the loop leaves
    it. *)
Fixpoint scan (rest : list Z) (s e : nat) (max_tokens : nat) (cmd : list Z)
    (tokens : list token_t) : list Z * list token_t * nat :=
  if bool_decide (length tokens < max_tokens - 1)%nat then
    match rest with
    | ch :: rest' =>
        if ch =? 32 then
          let '(cmd, tokens) :=
            if bool_decide (s ≠ e)
            then (<[e := 0]> cmd, tokens ++ [Token (Some s) (e - s)])
            else (cmd, tokens) in
          scan rest' (e + 1) (e + 1) max_tokens cmd tokens
        else if ch =? 0 then
          (cmd,
           if bool_decide (s ≠ e) then tokens ++ [Token (Some s) (e - s)]
           else tokens,
           e)   (* string end *)
        else scan rest' s (e + 1) max_tokens cmd tokens
    | [] =>
        (cmd,
         if bool_decide (s ≠ e) then tokens ++ [Token (Some s) (e - s)]
         else tokens,
         e)
    end
  else (cmd, tokens, e).

(** [static size_t tokenize_command(char *command, token_t *tokens, const
    size_t max_tokens)]: the command as the call leaves it and the tokens
    written; [ntokens] is their number. *)
Definition tokenize_command (command : list Z) (max_tokens : nat)
  : list Z * list token_t :=
  let '(cmd, tokens, e) := scan command 0 0 max_tokens command [] in
  (* If we scanned the whole string, the terminal value pointer is null,
     otherwise it is the first unprocessed character. *)
  (cmd, tokens ++ [Token (if char_at cmd e =? 0 then None else Some e) 0]).

(** The spaces of the C string [l]: the second loop of
    [count_total_tokens], which runs to the NUL. *)
Fixpoint count_spaces (l : list Z) : nat :=
  match l with
  | ch :: l' =>
      if ch =? 0 then 0%nat
      else ((if (ch =? 32)%Z then 1 else 0) + count_spaces l')%nat
  | [] => 0%nat
  end.

(** [static size_t count_total_tokens(const token_t* const tokens)], on the
    tokens from [key_token] on; [cmd] is the memory the token values point
    into.  The array is left through a token of length 0. *)
Fixpoint count_from (cmd : list Z) (key_tokens : list token_t) (count : nat) : nat :=
  match key_tokens with
  | t :: rest =>
      if bool_decide (tk_length t ≠ 0%nat) then
        (* count already tokenized keys *)
        count_from cmd rest (count + 1)
      else
        (* scan untokenized keys *)
        match tk_value t with
        | Some p => (count + count_spaces (drop p cmd))%nat
        | None => count
        end
  | [] => count
  end.

Definition count_total_tokens (cmd : list Z) (tokens : list token_t) : nat :=
  count_from cmd (drop KEY_TOKEN tokens) 0.

(** *** What the properties are stated with *)

(** The C string at the start of [l]: the bytes before the first NUL. *)
Fixpoint cstring (l : list Z) : list Z :=
  match l with
  | ch :: l' => if ch =? 0 then [] else ch :: cstring l'
  | [] => []
  end.

(** The bytes a token designates in [cmd]. *)
Definition token_text (cmd : list Z) (t : token_t) : list Z :=
  match tk_value t with
  | Some p => take (tk_length t) (drop p cmd)
  | None => []
  end.

(** The words of a C string: its maximal runs of bytes other than space,
    up to the first NUL.  [cur] is the run being read. *)
Fixpoint words_from (cur : list Z) (l : list Z) : list (list Z) :=
  match l with
  | ch :: l' =>
      if ch =? 32 then
        match cur with [] => words_from [] l' | _ => cur :: words_from [] l' end
      else if ch =? 0 then
        match cur with [] => [] | _ => [cur] end
      else words_from (cur ++ [ch]) l'
  | [] => match cur with [] => [] | _ => [cur] end
  end.

Definition words (l : list Z) : list (list Z) := words_from [] l.

(** What the terminal token leaves to tokenize: the string its value points
    at, nothing when it is NULL. *)
Definition unprocessed (command : list Z) (tokens : list token_t) : list Z :=
  match last tokens with
  | Some (Token (Some p) _) => drop p command
  | _ => []
  end.

(** A token that designates a word of [command] and is, in [cmd], a C
    string of its own: [length] bytes of the command that are neither space
    nor NUL, followed by a NUL. *)
Definition token_ok (command cmd : list Z) (t : token_t) : Prop :=
  exists p, tk_value t = Some p /\ (0 < tk_length t)%nat
    /\ (p + tk_length t <= length command)%nat
    /\ take (tk_length t) (drop p cmd) = take (tk_length t) (drop p command)
    /\ Forall (fun b => b <> 32 /\ b <> 0) (take (tk_length t) (drop p command))
    /\ char_at cmd (p + tk_length t) = 0.

(** A token that ends before offset [e]. *)
Definition token_before (e : nat) (t : token_t) : Prop :=
  exists p, tk_value t = Some p /\ (p + tk_length t < e)%nat.

(** ["get a b c d e"] *)
Definition get_five : list Z :=
  [103; 101; 116; 32; 97; 32; 98; 32; 99; 32; 100; 32; 101].

End Tokens.

(** ** Reading commands *)

Module Reader.

Import Bytes Connection.

(** [memchr(p, ch, n)] on the bytes [l] from [p] on: the offset of the first
    [ch] among the first [n] bytes ([None] for NULL). *)
Fixpoint memchr (l : list Z) (ch : Z) (n : nat) : option nat :=
  match n, l with
  | S n, b :: l' => if b =? ch then Some 0%nat else S <$> memchr l' ch n
  | _, _ => None
  end.

(** What a stream socket has for a non-blocking [read]: the bytes that have
    arrived, and what a [read] finds once they are consumed. *)
Inductive sock_end := WouldBlock | Eof | Failed.

Record socket := Socket { readable : list Z; at_end : sock_end }.

(** [read(fd, buf, n)] on such a socket: a count of 0 returns 0; the bytes
    that have arrived are returned up to the count asked for; when there
    are none, the call returns 0 at the end of the stream and -1 otherwise
    (with [EAGAIN] when the stream is open). *)
Definition sock_read (n : Z) (s : socket) : io_outcome * list Z * socket :=
  if n <=? 0 then (IoOutcome 0 EOTHER, [], s)
  else
    match readable s with
    | [] =>
        match at_end s with
        | WouldBlock => (IoOutcome (-1) EAGAIN, [], s)
        | Eof => (IoOutcome 0 EOTHER, [], s)
        | Failed => (IoOutcome (-1) EOTHER, [], s)
        end
    | _ =>
        let got := take (Z.to_nat n) (readable s) in
        (IoOutcome (Z.of_nat (length got)) EOTHER, got,
         Socket (drop (Z.to_nat n) (readable s)) (at_end s))
    end.

Section WithLimits.
Context {L : limits}.

(** The rest of the server that [process_command] works on (the store, the
    settings, the statistics), and [process_command] itself, which gets the
    command as a pointer into the read buffer: here its offset. *)
Context {world : Type}.
Variable process_command : Z -> conn -> world -> conn * world.

(** [static int try_read_command(conn* c)] *)
Definition try_read_command (c : conn) (w : world) : conn * world * Z :=
  match rbuf c with
  | None =>
      (* we have no allocated buffers, so we definitely don't have any
         commands to read. *)
      (c, w, 0)
  | Some buf =>
      if rbytes c =? 0 then (c, w, 0)
      else
        match memchr (drop (Z.to_nat (rcurr c)) buf) 10 (Z.to_nat (rbytes c)) with
        | None => (c, w, 0)
        | Some k =>
            let el := rcurr c + Z.of_nat k in
            let cont := el + 1 in
            let el :=
              if (el - rcurr c >? 1)
                 && (default 0 (buf !! Z.to_nat (el - 1)) =? 13)
              then el - 1 else el in
            let c := set_rbuf (Some (<[Z.to_nat el := 0]> buf)) c in
            let '(c, w) := process_command (rcurr c) c w in
            let c := set_rbytes (rbytes c - (cont - rcurr c)) c in
            (set_rcurr cont c, w, 1)
        end
  end.

(** The head of [try_read_network]: the incomplete fragment of a command is
    moved to the beginning of the buffer, or a buffer is taken from the
    pool.  The second component tells whether there is a buffer. *)
Definition read_buffer (c : conn) : conn * bool :=
  match rbuf c with
  | Some buf =>
      if negb (rcurr c =? 0) then
        let c :=
          if negb (rbytes c =? 0) (* otherwise there's nothing to copy *)
          then set_rbuf (Some (memcpy buf 0 (drop (Z.to_nat (rcurr c)) buf)
                                      (Z.to_nat (rbytes c)))) c
          else c in
        (set_rcurr 0 c, true)
      else (c, true)
  | None =>
      let '(ok, c) := pool_take c in
      if ok then
        (set_rsize CONN_BUFFER_DATA_SZ
           (set_rcurr 0
              (set_rbuf (Some (replicate (Z.to_nat CONN_BUFFER_DATA_SZ) 0)) c)),
         true)
      else (c, false)
  end.

(** The [while (1)] loop of [try_read_network], one unit of [fuel] per
    iteration; [None] when it runs out. *)
Fixpoint read_loop (fuel : nat) (gotdata : Z) (s : socket) (c : conn)
  : option (conn * socket * Z) :=
  match fuel with
  | O => None
  | S fuel =>
      let avail := rsize c - rbytes c in
      let '(rd, bytes, s) := sock_read avail s in
      let res := io_res rd in
      if res >? 0 then
        let gotdata := 1 in
        let c :=
          set_rbuf ((fun buf => memcpy buf (Z.to_nat (rbytes c)) bytes
                                       (Z.to_nat res)) <$> rbuf c) c in
        let c := set_rbytes (rbytes c + res) c in
        if res <? avail then Some (c, s, gotdata)
        else read_loop fuel gotdata s c
      else if res =? 0 then
        Some ((if binary c then set_state conn_closing c
               else (* connection closed *) conn_set_state conn_closing c),
              s, 1)
      else if would_block rd then
        (* if we have no data, release the connection buffer *)
        let c :=
          if rbytes c =? 0
          then set_rsize 0 (set_rcurr 0 (set_rbuf None c))
          else c in
        Some (c, s, gotdata)
      else Some (c, s, 0)
  end.

(** [int try_read_network(conn* c)].  The loop ends within two iterations:
    the buffer is not grown, and a [read] into a full buffer returns 0. *)
Definition try_read_network (s : socket) (c : conn) : option (conn * socket * Z) :=
  let '(c, ok) := read_buffer c in
  if negb ok then
    Some ((if binary c then set_bp_error (Some "out of memory") c
           else out_string "SERVER_ERROR out of memory" c), s, 0)
  else read_loop 2 0 s c.

(** The read buffer is an array of [rsize] bytes of which [rbytes], from
    [rcurr] on, are input. *)
Definition rbuf_ok (c : conn) : Prop :=
  match rbuf c with
  | Some buf =>
      length buf = Z.to_nat (rsize c) /\ 0 <= rcurr c /\ 0 <= rbytes c
      /\ rcurr c + rbytes c <= rsize c
  | None => rbytes c = 0
  end.

(** The line [try_read_command] passes on: the bytes before the line feed,
    without a carriage return that ends them unless it is the only byte. *)
Definition command_line (line : list Z) : list Z :=
  if bool_decide (1 < length line)%nat && bool_decide (last line = Some 13)
  then take (length line - 1) line else line.

(** [process_command] does not move the input: it leaves [rcurr] and
    [rbytes] as they are and the read buffer as it is from [cont] on. *)
Definition keeps_input (cont : Z) (c : conn) (w : world) : Prop :=
  let c' := (process_command (rcurr c) c w).1 in
  rcurr c' = rcurr c /\ rbytes c' = rbytes c
  /\ (drop (Z.to_nat cont)) <$> rbuf c' = (drop (Z.to_nat cont)) <$> rbuf c.

End WithLimits.

(** A connection whose read buffer holds ["get k\r\nget"]: a command and
    the start of the next. *)
Definition two_lines : conn :=
  set_rbytes 10
    (set_rsize 16
       (set_rbuf (Some ([103; 101; 116; 32; 107; 13; 10; 103; 101; 116]
                        ++ replicate 6 0))
          tcp_conn)).

End Reader.

(** ** The free list of connections *)

Module Freelist.

Section WithConn.
(** [conn*]; [junk] is what a slot of the array holds before it is
    written. *)
Context {A : Type}.
Variable junk : A.

(** [static conn* *freeconns; static int freetotal; static int freecurr;] *)
Record freelist := FreeList {
  freeconns : list A;
  freetotal : Z;
  freecurr : Z }.

(** [conn* do_conn_from_freelist()]; [None] is NULL. *)
Definition do_conn_from_freelist (f : freelist) : option A * freelist :=
  if freecurr f >? 0 then
    let cur := freecurr f - 1 in
    (freeconns f !! Z.to_nat cur, FreeList (freeconns f) (freetotal f) cur)
  else (None, f).

(** [bool do_conn_add_to_freelist(conn* c)]; [realloc_ok] tells whether
    [pool_realloc] succeeds when it is called. *)
Definition do_conn_add_to_freelist (realloc_ok : bool) (c : A) (f : freelist)
  : bool * freelist :=
  if freecurr f <? freetotal f then
    (false,
     FreeList (<[Z.to_nat (freecurr f) := c]> (freeconns f)) (freetotal f)
              (freecurr f + 1))
  else
    (* try to enlarge free connections array *)
    if realloc_ok then
      let new_freeconns :=
        freeconns f ++ replicate (Z.to_nat (freetotal f)) junk in
      (false,
       FreeList (<[Z.to_nat (freecurr f) := c]> new_freeconns)
                (freetotal f * 2) (freecurr f + 1))
    else (true, f).

(** The array has [freetotal] slots, of which the first [freecurr] hold
    the free connections. *)
Definition wf (f : freelist) : Prop :=
  length (freeconns f) = Z.to_nat (freetotal f)
  /\ 0 <= freecurr f <= freetotal f /\ 0 < freetotal f.

Definition held (f : freelist) : list A :=
  take (Z.to_nat (freecurr f)) (freeconns f).

End WithConn.

(** A full list of two slots, holding connections 7 and 8. *)
Definition full_list : freelist (A := nat) := FreeList [7; 8]%nat 2 2.

End Freelist.

(** ** The statistics buffer *)

Module Stats.

Import Bytes.

(** Value kept by a [size_t]. *)
Definition to_size_t (x : Z) : Z := x mod 2 ^ 64.

(** What [vsnprintf] makes of the format and its arguments: the text (it
    holds no NUL), or an output error, with the bytes stored before it. *)
Inductive formatted :=
| Text (t : list Z)
| OutputError (stored : list Z).

(** [vsnprintf(&buf[off], n, fmt, ap)]: at most [n] bytes are stored, the
    text cut to [n - 1] bytes and a NUL; the result is the length of the
    whole text, or negative on an output error. *)
Definition vsnprintf (buf : list Z) (off : nat) (n : Z) (f : formatted)
  : list Z * Z :=
  match f with
  | Text t =>
      let out := take (Z.to_nat (n - 1)) t ++ [0] in
      ((if n =? 0 then buf else memcpy buf off out (length out)),
       Z.of_nat (length t))
  | OutputError stored => (memcpy buf off stored (Z.to_nat n), -1)
  end.

(** [size_t append_to_buffer(char* const buffer_start, const size_t
    buffer_size, const size_t buffer_off, const size_t reserved, const char*
    fmt, ...)] *)
Definition append_to_buffer (buffer : list Z)
    (buffer_size buffer_off reserved : Z) (f : formatted) : list Z * Z :=
  let left := to_size_t (buffer_size - buffer_off - reserved) in
  let '(buffer, written) := vsnprintf buffer (Z.to_nat buffer_off) left f in
  if written <? 0 then (buffer, buffer_off)
  else if written >=? left then
    (<[Z.to_nat buffer_off := 0]> buffer, buffer_off)
  else (buffer, buffer_off + written).

(** ["STAT "] in a buffer of 12 bytes. *)
Definition stat_buffer : list Z := [83; 84; 65; 84; 32; 0; 0; 0; 0; 0; 0; 0].

End Stats.

(** ** What is on the wire *)

Module Wire.

Import Connection.

(** The addresses [sendmsg] gathers the bytes of an iovec from, in order,
    and those of a list of iovecs. *)
Definition iovec_addrs (v : iovec) : list ptr :=
  (fun k => ptr_add (iov_base v) (Z.of_nat k)) <$> seq 0 (Z.to_nat (iov_len v)).

Definition gathered (l : list iovec) : list ptr := l ≫= iovec_addrs.

(** What is left to send of message [i]. *)
Definition msg_gathered (c : conn) (i : nat) : list ptr :=
  gathered (msg_iovs c i).

(** What datagram [i] of a UDP reply carries after its header: the
    addresses its iovecs but the first gather from; and what the reply
    carries, datagram after datagram. *)
Definition datagram_payload (c : conn) (i : nat) : list ptr :=
  gathered (tail (msg_iovs c i)).

Definition reply_payload (c : conn) : list ptr :=
  seq 0 (msgused c) ≫= datagram_payload c.

(** The same for the groups of iovecs of a layout. *)
Definition payload_of (gs : list (list iovec)) : list ptr :=
  gs ≫= (fun g => gathered (tail g)).

Section WithLimits.
Context {L : limits}.

(** A UDP reply built without a failure, with the bytes given to [add_iov]
    so far: [add_msghdr] on a connection whose message and iovec lists are
    empty, then [add_iov] calls, each returning 0. *)
Inductive built : conn -> list ptr -> Prop :=
| built_first c c' :
    reply_start c -> add_msghdr c = Some (c', 0) -> built c' []
| built_more c bytes buf len is_start c' :
    built c bytes -> 0 <= len ->
    add_iov buf len is_start c = Some (c', 0) ->
    built c' (bytes ++ iovec_addrs (Iovec buf len)).

End WithLimits.

(** A connection with one message of two iovecs left to send: 5 bytes of
    the write buffer and 7 bytes of an item. *)
Definition two_iovecs : conn :=
  set_state conn_mwrite
    (set_msglist [Msghdr 0 2 0 0]
       (set_msgused 1
          (set_iovused 2
             (set_iovsize 2
                (set_iov [Iovec (PWbuf 0) 5; Iovec (PMem 100) 7] tcp_conn))))).

End Wire.

(** ** Delete and arithmetic commands *)

Module Commands.

Import Int Bytes Store Connection.

(** [static item **todelete; static int delcurr; static int deltotal;] *)
Record delete_queue := DeleteQueue {
  todelete : list nat;
  delcurr : Z;
  deltotal : Z }.


Definition with_deleted (b : bool) (it : Store.item) : Store.item :=
  Item (it_key it) (it_data it) (it_slot it) (it_flags it) (it_exptime it)
       (it_time it) (it_refcount it) (it_linked it) b.

(** Modelled from the spec: [item_delete_lock_over] of items.c.  "Items
    whose delete window has passed": the delete time is not after the
    current time. *)
Definition item_delete_lock_over (s : cache) (p : nat) : bool :=
  match heap s !! p with
  | Some it => it_exptime it <=? now s
  | None => false
  end.


(** The loop of [do_run_deferred_deletes]: [n] iterations are left, [i] and
    [j] are the two indices into [todelete]. *)
Fixpoint run_loop (n : nat) (i j : nat) (todelete : list nat) (s : cache)
  : nat * list nat * cache :=
  match n with
  | O => (j, todelete, s)
  | S n =>
      let it := default 0%nat (todelete !! i) in
      if item_delete_lock_over s it then
        let s := with_heap (alter (with_deleted false) it (heap s)) s in
        let s := do_item_unlink it s in
        let s := do_item_deref it s in
        run_loop n (S i) j todelete s
      else run_loop n (S i) (S j) (<[j := it]> todelete) s
  end.

(** [void do_run_deferred_deletes(void)] *)
Definition do_run_deferred_deletes (q : delete_queue) (s : cache)
  : delete_queue * cache :=
  let '(j, td, s) := run_loop (Z.to_nat (delcurr q)) 0 0 (todelete q) s in
  (DeleteQueue td (Z.of_nat j) (deltotal q), s).


(** The number [do_add_delta] computes from the counter [value] and
    [delta]: the sum for incr, the difference or 0 for decr, in
    [uint32_t]. *)
Definition counter_after (incr value delta : Z) : Z :=
  if negb (incr =? 0) then to_uint32 (value + delta)
  else if delta >=? value then 0
  else to_uint32 (value - delta).

(** The items in the queue. *)
Definition queued (q : delete_queue) : list nat :=
  take (Z.to_nat (delcurr q)) (todelete q).

(** The queue is an array of [deltotal] slots of which [delcurr] are in
    use. *)
Definition queue_ok (q : delete_queue) : Prop :=
  length (todelete q) = Z.to_nat (deltotal q)
  /\ 0 <= delcurr q <= deltotal q /\ 0 < deltotal q.

Section WithLimits.
Context {L : limits}.



(** The key token of an incr or decr command and what [strtoul] made of
    token 2. *)
Record arith_tokens := ArithTokens {
  ar_key : string;
  ar_delta : Z;
  ar_erange : bool }.

(** [static void process_arithmetic_command(conn* c, token_t *tokens,
    const size_t ntokens, const int incr)].  [delta] is an [unsigned int];
    [add_delta] is [do_add_delta] under the cache lock, and [mem_ok] what
    the allocator answers when it is asked. *)
Definition process_arithmetic_command (g : settings_t) (mem_ok : bool)
    (t : arith_tokens) (incr : Z) (c : conn) (s : cache) : conn * cache :=
  if strlen (ar_key t) >? KEY_MAX_LENGTH then
    (out_string "CLIENT_ERROR bad command line format" c, s)
  else
    let key := ar_key t in
    let go (c : conn) :=
      let delta := to_uint32 (ar_delta t) in
      if ar_erange t then
        (out_string "CLIENT_ERROR bad command line format" c, s)
      else
        let '(reply, _, s) := do_add_delta key incr delta mem_ok s in
        (out_string reply c, s) in
    if managed g then
      let bucket := bucket c in
      if bucket =? -1 then
        (out_string "CLIENT_ERROR no BG data in managed mode" c, s)
      else
        let c := set_bucket (-1) c in
        if negb (default 0 (buckets g !! Z.to_nat bucket) =? gen c) then
          (out_string "ERROR_NOT_OWNER" c, s)
        else go c
    else go c.

End WithLimits.

(** A store with three linked items, at addresses 1, 2 and 3, whose delete
    times are 5, 50 and 8, at second 10; and the queue that holds them. *)
Definition three_locked : cache :=
  Cache {[ 1%nat := Item "a" [120] 1 0 5 2 2 true true;
           2%nat := Item "b" [121] 1 0 50 2 2 true true;
           3%nat := Item "c" [122] 1 0 8 2 2 true true ]}
        {[ "a" := 1%nat; "b" := 2%nat; "c" := 3%nat ]} [3; 2; 1]%nat 10 0.

Definition three_queue : delete_queue := DeleteQueue [1; 2; 3; 0]%nat 3 4.

End Commands.

(** ** Closing a connection *)

Module Closing.

Import Store Connection.

(** [void conn_cleanup(conn* c)].  [item_deref] is [do_item_deref] under
    the cache lock.  Handing a buffer back ([free], [free_conn_buffer])
    leaves no trace in the model but the pointer set to NULL; the
    connection record has no [riov] field, whose release is left out. *)
Definition conn_cleanup (c : conn) (s : cache) : conn * cache :=
  let '(c, s) :=
    match item c with
    | Some it => (set_item None c, do_item_deref it s)
    | None => (c, s)
    end in
  let '(c, s) :=
    if bool_decide (ileft c ≠ 0%nat) then release_items (ileft c) c s
    else (c, s) in
  let c := if write_and_free c then set_write_and_free false c else c in
  let c :=
    match rbuf c with
    | Some _ => set_rsize 0 (set_rbuf None c)
    | None => c
    end in
  let c := if bool_decide (iov c ≠ []) then set_iovsize 0 (set_iov [] c) else c in
  (c, s).

(** The item references a connection holds: the item being received and
    the items of the reply being sent that are not released yet. *)
Definition held (c : conn) : list nat :=
  option_list (item c) ++ take (ileft c) (drop (icurr c) (ilist c)).

(** A connection sending a [get] reply with items 1 and 2 (item 1 twice)
    over a store where both are linked and pinned by it. *)
Definition getting_conn : conn :=
  Conn conn_mwrite conn_read false false None 0 0 0 (replicate 2048 0) 0 2048 0
       false 0 None NREAD_SET "" [0; 0] 0 [1; 2; 1]%nat 200 0 3 [] 0 0
       (replicate 10 zero_msghdr) 10 0 0 0 [] 0 0 (-1) 0 [true; true; true] None.

Definition pinned_cache : cache :=
  Cache {[ 1%nat := Item "a" [120] 1 0 0 2 3 true false;
           2%nat := Item "b" [121] 1 0 0 2 2 true false ]}
        {[ "a" := 1%nat; "b" := 2%nat ]} [2; 1]%nat 10 0.

End Closing.

(* ===================================================================== *)
(** * Properties *)
(* ===================================================================== *)

(** ** Machine integers *)

Section IntFacts.
Import Int.

Lemma to_uint32_fits x : fits_uint32 x -> to_uint32 x = x.
Proof.
  unfold fits_uint32, UINT32_MAX, to_uint32. intros H.
  apply Z.mod_small. lia.
Qed.

Lemma to_uint32_range x : fits_uint32 (to_uint32 x).
Proof.
  unfold fits_uint32, UINT32_MAX, to_uint32.
  pose proof (Z.mod_pos_bound x (2 ^ 32) ltac:(lia)). lia.
Qed.


Lemma to_uchar_range x : 0 <= to_uchar x < 256.
Proof. unfold to_uchar. apply Z.mod_pos_bound. lia. Qed.

Lemma to_uchar_small x : 0 <= x < 256 -> to_uchar x = x.
Proof. apply Z.mod_small. Qed.

End IntFacts.

(** ** [realtime] *)

Section RealtimeFacts.
Import Int RelTime.

Lemma realtime_zero k : realtime k 0 = 0.
Proof. reflexivity. Qed.

Lemma realtime_delta k t :
  t <> 0 -> t <= REALTIME_MAXDELTA ->
  realtime k t = to_uint32 (t + current_time k).
Proof.
  intros Hnz Hle. unfold realtime.
  destruct (Z.eqb_spec t 0) as [->|_]; [lia|].
  destruct (Z.gtb_spec t REALTIME_MAXDELTA); [lia|reflexivity].
Qed.

Lemma realtime_absolute k t :
  REALTIME_MAXDELTA < t ->
  realtime k t = if t <=? started k then 1 else to_uint32 (t - started k).
Proof.
  intros Hgt. unfold realtime, REALTIME_MAXDELTA in *.
  destruct (Z.eqb_spec t 0) as [->|_]; [lia|].
  destruct (Z.gtb_spec t (60 * 60 * 24 * 30)); [|lia].
  destruct (t <=? started k); reflexivity.
Qed.

(** The claim of C3 fails for an absolute time 2^32 seconds after the
    start: [t - started] is 2^32, which a [rel_time_t] does not hold; the
    result is 0, the value that means never expire. *)
Lemma realtime_absolute_counterexample :
  let k := Clock 1200000000 500 in
  let t := 1200000000 + 2 ^ 32 in
  30 * 86400 < t /\ started k < t
  /\ realtime k t = 0 /\ realtime k t <> t - started k.
Proof. vm_compute. repeat split; try reflexivity; discriminate. Qed.

(** C3 (amended).  The conversion of a wire-level exptime [t] to server
    time: [0] stays [0] (never expire); [0 < t <= 30*86400] becomes
    [t + current_time] reduced modulo [2^32]; a larger [t] is an absolute
    time and becomes [t - started] reduced modulo [2^32], except that a [t]
    at or before [started] becomes exactly [1].  The reduction is the cast
    to [rel_time_t]: a sum or difference below [2^32] is returned as it
    is. *)
Theorem realtime_exptime_modulo_2_32 (k : clock) (t : Z) :
  (t = 0 -> realtime k t = 0) /\
  (0 < t <= 30 * 86400 -> realtime k t = (t + current_time k) mod 2 ^ 32) /\
  (30 * 86400 < t -> t <= started k -> realtime k t = 1) /\
  (30 * 86400 < t -> started k < t ->
     realtime k t = (t - started k) mod 2 ^ 32) /\
  (0 < t <= 30 * 86400 -> fits_uint32 (t + current_time k) ->
     realtime k t = t + current_time k) /\
  (30 * 86400 < t -> started k < t -> fits_uint32 (t - started k) ->
     realtime k t = t - started k).
Proof.
  assert (Hrel : 0 < t <= 30 * 86400 ->
            realtime k t = to_uint32 (t + current_time k)).
  { intros [Hpos Hle]. apply realtime_delta; unfold REALTIME_MAXDELTA; lia. }
  assert (Habs : 30 * 86400 < t -> started k < t ->
            realtime k t = to_uint32 (t - started k)).
  { intros Hgt Hlt.
    rewrite realtime_absolute by (unfold REALTIME_MAXDELTA; lia).
    destruct (Z.leb_spec t (started k)); [lia|reflexivity]. }
  split_and!.
  - intros ->. apply realtime_zero.
  - exact Hrel.
  - intros Hgt Hle.
    rewrite realtime_absolute by (unfold REALTIME_MAXDELTA; lia).
    destruct (Z.leb_spec t (started k)); [reflexivity|lia].
  - exact Habs.
  - intros Ht Hfit. rewrite Hrel by exact Ht. now apply to_uint32_fits.
  - intros Hgt Hlt Hfit. rewrite Habs by assumption. now apply to_uint32_fits.
Qed.

(** A server started at UNIX time 1200000000 and running for 500 seconds:
    an exptime of 60 seconds, of 0, an absolute time an hour after the
    start, an absolute time before the start and one 2^32 + 5 seconds
    after it. *)
Lemma realtime_exptime_modulo_2_32_witness :
  let k := Clock 1200000000 500 in
  realtime k 0 = 0 /\ realtime k 60 = 560 /\
  realtime k 1000000000 = 1 /\ realtime k 1200003600 = 3600 /\
  realtime k (1200000005 + 2 ^ 32) = 5.
Proof.
  intros k.
  destruct (realtime_exptime_modulo_2_32 k 0) as (H0 & _).
  destruct (realtime_exptime_modulo_2_32 k 60) as (_ & _ & _ & _ & H1 & _).
  destruct (realtime_exptime_modulo_2_32 k 1000000000) as (_ & _ & H2 & _).
  destruct (realtime_exptime_modulo_2_32 k 1200003600)
    as (_ & _ & _ & _ & _ & H3).
  destruct (realtime_exptime_modulo_2_32 k (1200000005 + 2 ^ 32))
    as (_ & _ & _ & H4 & _).
  split; [apply H0; reflexivity|].
  split; [apply H1; [lia | vm_compute; split; discriminate]|].
  split; [apply H2; simpl; lia|].
  split; [apply H3; [lia | simpl; lia | vm_compute; split; discriminate]|].
  rewrite H4 by (simpl; lia). reflexivity.
Defined.

End RealtimeFacts.

(** ** The store decision *)

Section StoreFacts.
Import Int Bytes Store.

(** A delete-locked item is never handed out by the lookup. *)
Lemma notedeleted_locked_hidden key s o locked s' :
  do_item_get_notedeleted key s = (Some o, locked, s') -> locked = false.
Proof.
  unfold do_item_get_notedeleted.
  destruct (assoc s !! key) as [p|]; [|congruence].
  destruct (heap s !! p) as [it|]; [|congruence].
  destruct (it_deleted it); [congruence|].
  destruct (item_expired s it); congruence.
Qed.

(** The lookup leaves the index alone unless it drops an expired item. *)
Lemma notedeleted_locked_state key s s' :
  do_item_get_notedeleted key s = (None, true, s') -> s' = s.
Proof.
  unfold do_item_get_notedeleted.
  destruct (assoc s !! key) as [p|]; [|congruence].
  destruct (heap s !! p) as [it|]; [|congruence].
  destruct (it_deleted it); [congruence|].
  destruct (item_expired s it); congruence.
Qed.

Lemma assoc_free_if_unreferenced p s :
  assoc (free_if_unreferenced p s) = assoc s.
Proof.
  unfold free_if_unreferenced.
  destruct (heap s !! p) as [it|]; [|reflexivity].
  destruct (_ && _); reflexivity.
Qed.

Lemma lru_free_if_unreferenced p s :
  lru (free_if_unreferenced p s) = lru s.
Proof.
  unfold free_if_unreferenced.
  destruct (heap s !! p) as [it|]; [|reflexivity].
  destruct (_ && _); reflexivity.
Qed.

Lemma assoc_do_item_deref p s : assoc (do_item_deref p s) = assoc s.
Proof. unfold do_item_deref. now rewrite assoc_free_if_unreferenced. Qed.

Lemma lru_do_item_deref p s : lru (do_item_deref p s) = lru s.
Proof. unfold do_item_deref. now rewrite lru_free_if_unreferenced. Qed.

Lemma assoc_do_item_update p s : assoc (do_item_update p s) = assoc s.
Proof.
  unfold do_item_update. destruct (heap s !! p) as [it|]; [|reflexivity].
  destruct (it_linked it); reflexivity.
Qed.

Lemma assoc_do_item_link p key s :
  assoc (do_item_link p key s) !! key = Some p.
Proof. unfold do_item_link; simpl. apply lookup_insert_eq. Qed.

Lemma assoc_do_item_replace o n key s :
  assoc (do_item_replace o n key s) !! key = Some n.
Proof. apply assoc_do_item_link. Qed.

(** [do_store_item] returns 0 or 1. *)
Lemma do_store_item_result n op key s :
  (do_store_item n op key s).1 = 0 \/ (do_store_item n op key s).1 = 1.
Proof.
  unfold do_store_item.
  destruct (do_item_get_notedeleted key s) as [[old locked] s1].
  destruct old as [o|], locked, op; simpl;
    try destruct (do_item_get_nocheck key s1) as [[o'|] s2]; simpl; auto.
Qed.

(** C1.  [do_store_item] follows the decision table: its result and the
    store it leaves are those of the table ([table_store_item]) for each of
    add, set and replace and each lookup outcome (no item, an item that is
    not delete-locked, a delete-locked item), the reply chosen from its
    result is STORED exactly when the table stores, and a store leaves the
    new item under the key in the index. *)
Theorem do_store_item_follows_table (n : nat) (op : nread_comm) (key : string)
    (s : cache) :
  let r := do_store_item n op key s in
  let t := table_store_item n op key s in
  (nread_reply r.1, r.2) = t
  /\ (r.1 = 1 <-> store_table (classify key s).1 op = StoreN)
  /\ (r.1 = 0 <-> store_table (classify key s).1 op <> StoreN)
  /\ (r.1 = 1 -> assoc r.2 !! key = Some n).
Proof.
  unfold do_store_item, table_store_item, classify.
  destruct (do_item_get_notedeleted key s) as [[old locked] s1] eqn:Hget.
  destruct old as [o|].
  - apply notedeleted_locked_hidden in Hget as ->.
    destruct op; simpl; split_and!; try split; intros;
      try done; try lia;
      rewrite assoc_do_item_deref; apply assoc_do_item_replace.
  - destruct locked.
    + destruct op; simpl;
        try destruct (do_item_get_nocheck key s1) as [[o|] s2];
        simpl; split_and!; try split; intros; try done; try lia.
      * rewrite assoc_do_item_deref. apply assoc_do_item_replace.
      * apply assoc_do_item_link.
    + destruct op; simpl; split_and!; try split; intros;
        try done; try lia; apply assoc_do_item_link.
Qed.

End StoreFacts.

(** ** Arithmetic: [do_add_delta] *)

Section ArithFacts.
Import Int Bytes Store.

Lemma length_bytes_of_string str :
  length (bytes_of_string str) = String.length str.
Proof.
  unfold bytes_of_string. rewrite length_fmap.
  induction str as [|a str IH]; simpl; congruence.
Qed.

(** Writing a whole buffer into a fresh value of its length yields the buffer. *)
Lemma item_set_value_data str it :
  it_data (item_set_value (bytes_of_string str) (strlen str) it) = bytes_of_string str.
Proof.
  unfold item_set_value, memcpy, strlen; simpl.
  rewrite Nat2Z.id, <- (length_bytes_of_string str), firstn_all.
  rewrite <- (app_nil_r (bytes_of_string str)) at 1.
  apply list_inserts_0_l. now rewrite length_replicate.
Qed.

Lemma free_if_unreferenced_linked p s it :
  heap s !! p = Some it -> it_linked it = true -> free_if_unreferenced p s = s.
Proof.
  intros Hp Hl. unfold free_if_unreferenced. rewrite Hp, Hl.
  now rewrite andb_false_r.
Qed.

Lemma heap_free_if_unreferenced_ne p q s :
  p <> q -> heap (free_if_unreferenced p s) !! q = heap s !! q.
Proof.
  intros Hne. unfold free_if_unreferenced.
  destruct (heap s !! p) as [it|]; [|reflexivity].
  destruct (_ && _); [|reflexivity]. simpl. now apply lookup_delete_ne.
Qed.

Lemma heap_do_item_deref_ne p q s :
  p <> q -> heap (do_item_deref p s) !! q = heap s !! q.
Proof.
  intros Hne. unfold do_item_deref.
  rewrite heap_free_if_unreferenced_ne by done. simpl.
  now apply lookup_alter_ne.
Qed.

Lemma heap_do_item_deref_linked p s it :
  heap s !! p = Some it -> it_linked it = true ->
  heap (do_item_deref p s) !! p = Some (unpin it).
Proof.
  intros Hp Hl. unfold do_item_deref.
  erewrite free_if_unreferenced_linked.
  - simpl. rewrite lookup_alter_eq, Hp. reflexivity.
  - simpl. rewrite lookup_alter_eq, Hp. reflexivity.
  - exact Hl.
Qed.

Lemma heap_do_item_unlink_ne p q s :
  p <> q -> heap (do_item_unlink p s) !! q = heap s !! q.
Proof.
  intros Hne. unfold do_item_unlink.
  destruct (heap s !! p) as [it|]; [|reflexivity].
  destruct (it_linked it); [|reflexivity].
  rewrite heap_free_if_unreferenced_ne by done. simpl.
  now apply lookup_insert_ne.
Qed.

Lemma heap_do_item_update p s : heap (do_item_update p s) = heap s.
Proof.
  unfold do_item_update. destruct (heap s !! p) as [it|]; [|reflexivity].
  destruct (it_linked it); reflexivity.
Qed.

(** The lookup of an existing item returns it pinned and changes nothing else. *)
Lemma notedeleted_existing key s it :
  existing key s it ->
  exists p, assoc s !! key = Some p /\ heap s !! p = Some it /\
    do_item_get_notedeleted key s
    = (Some p, false, with_heap (<[p := pin it]> (heap s)) s).
Proof.
  intros (p & Ha & Hh & _ & Hd & He). exists p. split; [done|]. split; [done|].
  unfold do_item_get_notedeleted. now rewrite Ha, Hh, Hd, He.
Qed.

(** The number [do_add_delta] computes from the parsed value [v]. *)
Lemma do_add_delta_found key incr d s it :
  existing key s it ->
  let v := to_uint32 (item_strtoul it) in
  let r := if negb (incr =? 0) then to_uint32 (v + d)
           else if d >=? v then 0 else to_uint32 (v - d) in
  exists s', do_add_delta key incr d true s = (decimal r, Some r, s')
    /\ stored_value key s' = Some (bytes_of_string (decimal r)).
Proof.
  intros Hex v r.
  destruct (notedeleted_existing _ _ _ Hex) as (p & Ha & Hh & Hget).
  destruct Hex as (p' & Ha' & Hh' & Hl & _).
  assert (p' = p) as -> by congruence. clear Ha' Hh'.
  unfold do_add_delta. rewrite Hget. cbn [heap with_heap].
  rewrite lookup_insert_eq.
  change (item_strtoul (pin it)) with (item_strtoul it).
  fold v. fold r.
  set (s1 := with_heap (<[p:=pin it]> (heap s)) s).
  destruct (item_need_realloc (pin it) (strlen (decimal r)) || (it_refcount (pin it) >? 1)).
  - (* a new item replaces the old one *)
    unfold do_item_alloc.
    set (new := fresh (dom (heap s1))).
    assert (Hnew : heap s1 !! new = None).
    { apply not_elem_of_dom. apply is_fresh. }
    assert (Hne : p <> new).
    { intros Heq. rewrite <- Heq in Hnew. subst s1. cbn [heap with_heap] in Hnew.
      rewrite lookup_insert_eq in Hnew. discriminate. }
    eexists. split; [reflexivity|].
    unfold stored_value, indexed.
    rewrite !assoc_do_item_deref, assoc_do_item_replace. cbn [mbind option_bind].
    rewrite heap_do_item_deref_ne by done.
    match goal with
    | |- context [do_item_deref new ?X] =>
        assert (Hx : exists it', heap X !! new = Some it' /\ it_linked it' = true /\
                  it_data it' = bytes_of_string (decimal r))
    end.
    { unfold do_item_replace, do_item_link. cbn [heap].
      rewrite lookup_alter_eq, heap_do_item_unlink_ne by done.
      cbn [heap with_heap]. rewrite lookup_alter_eq, lookup_insert_eq.
      eexists. split; [reflexivity|]. split; [reflexivity|].
      cbn [with_linked pin with_refcount it_data]. apply item_set_value_data. }
    destruct Hx as (it' & Hx & Hl' & Hd').
    rewrite (heap_do_item_deref_linked _ _ _ Hx Hl').
    cbn [fmap option_fmap option_map unpin with_refcount it_data]. now f_equal.
  - (* the value is rewritten in place *)
    eexists. split; [reflexivity|].
    unfold stored_value, indexed.
    rewrite assoc_do_item_deref, assoc_do_item_update. cbn [assoc with_heap].
    subst s1. cbn [assoc with_heap]. rewrite Ha. cbn [mbind option_bind].
    match goal with
    | |- context [do_item_deref p ?X] =>
        assert (Hx : exists it', heap X !! p = Some it' /\ it_linked it' = true /\
                  it_data it' = bytes_of_string (decimal r))
    end.
    { rewrite heap_do_item_update. cbn [heap with_heap].
      rewrite lookup_alter_eq, lookup_insert_eq.
      eexists. split; [reflexivity|]. split; [exact Hl|].
      apply item_set_value_data. }
    destruct Hx as (it' & Hx & Hl' & Hd').
    rewrite (heap_do_item_deref_linked _ _ _ Hx Hl').
    cbn [fmap option_fmap option_map unpin with_refcount it_data]. now f_equal.
Qed.

(** The claim of C5 fails where a number does not fit in 32 bits.  The
    delta of the command line is kept in an [unsigned int]: [decr n
    4294967297] on a counter holding 5 takes 1 off and stores 4, where
    [max 0 (5 - 4294967297)] is 0.  The parsed value is kept in a
    [uint32_t]: decr by 1 of a counter holding 4294967297 reads it as 1 and
    stores 0, where [max 0 (4294967297 - 1)] is 4294967296. *)
Lemma decr_saturation_counterexample :
  let L := Connection.linux_limits in
  let five := singleton_cache "n" (bytes_of_string "5") in
  let r := Commands.process_arithmetic_command Connection.plain_settings true
             (Commands.ArithTokens "n" 4294967297 false) 0
             Connection.tcp_conn five in
  let big := singleton_cache "n" (bytes_of_string "4294967297") in
  let itb := Item "n" (bytes_of_string "4294967297") 10 0 0 2 1 true false in
  Connection.pending_reply r.1 = Connection.reply_line "4"
  /\ stored_value "n" r.2 = Some (bytes_of_string "4")
  /\ decimal (Z.max 0 (5 - 4294967297)) = "0"%string
  /\ existing "n" big itb
  /\ item_strtoul itb = 4294967297
  /\ (do_add_delta "n" 0 1 true big).1 = ("0"%string, Some 0)
  /\ stored_value "n" (do_add_delta "n" 0 1 true big).2
     = Some (bytes_of_string "0")
  /\ decimal (Z.max 0 (4294967297 - 1)) = "4294967296"%string.
Proof.
  intros L five r big itb.
  split; [vm_compute; reflexivity|]. split; [vm_compute; reflexivity|].
  split; [reflexivity|].
  split; [exists 0%nat; vm_compute; repeat split; reflexivity|].
  vm_compute. repeat split; reflexivity.
Qed.

(** C5 (amended).  decr on an existing item whose stored text parses to the
    number [n], with the delta [d] of the command line.  The counter and
    the delta are kept in 32 bits: [v = n mod 2^32] and [d' = d mod 2^32].
    The number computed is [max 0 (v - d')], which is [0] whenever
    [d' >= v], and is [max 0 (n - d)] when [n] and [d] fit in 32 bits; the
    reply is its decimal rendering and the value stored under the key
    afterwards is that rendering (the allocator granting the replacement
    item when one is needed). *)
Theorem decr_saturates_in_32_bits (key : string) (d : Z) (s : cache) (it : item)
    (Hex : existing key s it) :
  let n := item_strtoul it in
  let v := n mod 2 ^ 32 in
  let d' := d mod 2 ^ 32 in
  let r := Z.max 0 (v - d') in
  (d' >= v -> r = 0) /\
  (fits_uint32 n -> fits_uint32 d -> r = Z.max 0 (n - d)) /\
  exists s', do_add_delta key 0 d' true s = (decimal r, Some r, s')
    /\ stored_value key s' = Some (bytes_of_string (decimal r)).
Proof.
  intros n v d' r.
  pose proof (to_uint32_range n) as Hv.
  pose proof (to_uint32_range d) as Hd.
  change (to_uint32 n) with v in Hv. change (to_uint32 d) with d' in Hd.
  unfold fits_uint32, UINT32_MAX in Hv, Hd.
  split; [subst r; lia|]. split.
  - intros Hn Hfd. subst r v d'.
    rewrite !Z.mod_small by (unfold fits_uint32, UINT32_MAX in *; lia).
    reflexivity.
  - destruct (do_add_delta_found key 0 d' s it Hex) as (s' & Hrun & Hval).
    cbn [Z.eqb negb] in Hrun, Hval.
    change (to_uint32 (item_strtoul it)) with v in Hrun, Hval.
    assert (Hr : (if d' >=? v then 0 else to_uint32 (v - d')) = r).
    { subst r. destruct (Z.geb_spec d' v); [lia|].
      rewrite to_uint32_fits by (unfold fits_uint32, UINT32_MAX; lia). lia. }
    rewrite Hr in Hrun, Hval. eauto.
Qed.

(** decr by 100 of a counter holding 5, and by 4294967297, which takes 1
    off. *)
Lemma decr_saturates_in_32_bits_witness :
  (exists s', do_add_delta "n" 0 100 true
                (singleton_cache "n" (bytes_of_string "5"))
              = ("0"%string, Some 0, s')
     /\ stored_value "n" s' = Some (bytes_of_string "0"))
  /\ (exists s', do_add_delta "n" 0 (4294967297 mod 2 ^ 32) true
                   (singleton_cache "n" (bytes_of_string "5"))
                 = ("4"%string, Some 4, s')
        /\ stored_value "n" s' = Some (bytes_of_string "4")).
Proof.
  split.
  - refine (proj2 (proj2 (decr_saturates_in_32_bits "n" 100
                     (singleton_cache "n" (bytes_of_string "5"))
                     (Item "n" (bytes_of_string "5") 1 0 0 2 1 true false) _))).
    exists 0%nat. vm_compute. repeat split; reflexivity.
  - refine (proj2 (proj2 (decr_saturates_in_32_bits "n" 4294967297
                     (singleton_cache "n" (bytes_of_string "5"))
                     (Item "n" (bytes_of_string "5") 1 0 0 2 1 true false) _))).
    exists 0%nat. vm_compute. repeat split; reflexivity.
Defined.

(** The claim of C4 fails on a counter at the largest [uint32_t] value:
    incr by 1 replies 0 and stores 0, where saturation would give
    4294967295. *)
Lemma incr_saturation_counterexample :
  let s := singleton_cache "n" (bytes_of_string "4294967295") in
  let it := Item "n" (bytes_of_string "4294967295") 10 0 0 2 1 true false in
  existing "n" s it /\
  to_uint32 (item_strtoul it) = 4294967295 /\
  (do_add_delta "n" 1 1 true s).1 = ("0", Some 0) /\
  stored_value "n" (do_add_delta "n" 1 1 true s).2 = Some (bytes_of_string "0") /\
  (do_add_delta "n" 1 1 true s).1.1 <> decimal (Z.min UINT32_MAX (4294967295 + 1)).
Proof.
  split; [exists 0%nat; vm_compute; repeat split; reflexivity|].
  vm_compute. repeat split; try reflexivity. discriminate.
Qed.

(** C4 (amended).  incr on an existing item whose parsed value is [v], with
    delta [d]: the number computed is [(v + d) mod 2^32], the sum in
    [uint32_t]: it is [v + d] when that fits and wraps around to
    [v + d - 2^32] when it does not.  The reply is its decimal rendering and
    the value stored under the key afterwards is that rendering (the
    allocator granting the replacement item when one is needed). *)
Theorem incr_wraps_modulo_2_32 (key : string) (incr d : Z) (s : cache) (it : item)
    (Hincr : incr <> 0) (Hex : existing key s it) (Hd : fits_uint32 d) :
  let v := to_uint32 (item_strtoul it) in
  let r := (v + d) mod 2 ^ 32 in
  (v + d <= UINT32_MAX -> r = v + d) /\
  (UINT32_MAX < v + d -> r = v + d - 2 ^ 32) /\
  exists s', do_add_delta key incr d true s = (decimal r, Some r, s')
    /\ stored_value key s' = Some (bytes_of_string (decimal r)).
Proof.
  intros v r.
  pose proof (to_uint32_range (item_strtoul it)) as Hv. fold v in Hv.
  unfold fits_uint32, UINT32_MAX in *.
  split; [|split].
  - intros Hle. subst r. apply Z.mod_small. lia.
  - intros Hgt. subst r.
    replace (v + d) with ((v + d - 2 ^ 32) + 1 * 2 ^ 32) at 1 by lia.
    rewrite Z.mod_add by lia. apply Z.mod_small. lia.
  - destruct (do_add_delta_found key incr d s it Hex) as (s' & Hrun & Hval).
    destruct (Z.eqb_spec incr 0) as [|_]; [contradiction|].
    cbn [negb] in Hrun, Hval. eauto.
Qed.

(** incr by 1 of a counter holding 4294967295, and incr by 3 of one
    holding 7. *)
Lemma incr_wraps_modulo_2_32_witness :
  (exists s', do_add_delta "n" 1 1 true
                (singleton_cache "n" (bytes_of_string "4294967295"))
              = ("0", Some 0, s')
     /\ stored_value "n" s' = Some (bytes_of_string "0")) /\
  (exists s', do_add_delta "n" 1 3 true (singleton_cache "n" (bytes_of_string "7"))
              = ("10", Some 10, s')
     /\ stored_value "n" s' = Some (bytes_of_string "10")).
Proof.
  split.
  - refine (proj2 (proj2 (incr_wraps_modulo_2_32 "n" 1 1
                     (singleton_cache "n" (bytes_of_string "4294967295"))
                     (Item "n" (bytes_of_string "4294967295") 10 0 0 2 1 true false)
                     _ _ _))).
    + discriminate.
    + exists 0%nat. vm_compute. repeat split; reflexivity.
    + vm_compute. split; discriminate.
  - refine (proj2 (proj2 (incr_wraps_modulo_2_32 "n" 1 3
                     (singleton_cache "n" (bytes_of_string "7"))
                     (Item "n" (bytes_of_string "7") 1 0 0 2 1 true false)
                     _ _ _))).
    + discriminate.
    + exists 0%nat. vm_compute. repeat split; reflexivity.
    + vm_compute. split; discriminate.
Defined.

End ArithFacts.

(** ** Connections: the reply writer *)

Section ConnFacts.
Import Int Bytes Store Connection.
Context {L : limits}.

Lemma conn_set_state_not_read st c :
  st <> conn_read -> conn_set_state st c = set_state st c.
Proof.
  intros Hne. unfold conn_set_state.
  case_bool_decide as Hst.
  - case_bool_decide; [contradiction|reflexivity].
  - destruct c; simpl in *. now subst.
Qed.

Lemma state_conn_set_state st c : state (conn_set_state st c) = st.
Proof.
  unfold conn_set_state. case_bool_decide as Hst.
  - reflexivity.
  - now symmetry.
Qed.

(** [out_string] as a chain of field updates. *)
Lemma out_string_unfold str c :
  out_string str c =
  let msg := out_string_message str c in
  let len := strlen msg in
  let c := set_iovused 0 (set_msgused 0 c) in
  let c := set_wbuf (memcpy (wbuf c) 0 (bytes_of_string msg) (Z.to_nat len)) c in
  let c := set_wbuf (memcpy (wbuf c) (Z.to_nat len) CRLF 2) c in
  set_write_and_go conn_read
    (set_state conn_write (set_wcurr 0 (set_wbytes (len + 2) c))).
Proof.
  unfold out_string, out_string_message. cbn [wsize set_iovused set_msgused].
  destruct (strlen str + 2 >? wsize c); cbn zeta;
    now rewrite conn_set_state_not_read.
Qed.

Lemma strlen_nonneg str : 0 <= strlen str.
Proof. unfold strlen. lia. Qed.

(** A message copied to the start of a large enough buffer, followed by CR
    LF, reads back as the reply line. *)
Lemma memcpy_line (w b : list Z) :
  (length b + 2 <= length w)%nat ->
  take (length b + 2) (memcpy (memcpy w 0 b (length b)) (length b) CRLF 2)
  = b ++ CRLF.
Proof.
  intros Hlen. unfold memcpy. rewrite firstn_all.
  change (take 2 CRLF) with CRLF.
  rewrite <- (take_drop (length b) w) at 1.
  rewrite list_inserts_0_r by (rewrite length_take; lia).
  pose proof (list_inserts_app_r CRLF b (drop (length b) w) 0) as Happ.
  rewrite Nat.add_0_r in Happ. rewrite Happ. clear Happ.
  rewrite <- (take_drop 2 (drop (length b) w)).
  rewrite list_inserts_0_r
    by (rewrite length_take, length_drop; unfold CRLF; cbn [length]; lia).
  rewrite take_app_add. reflexivity.
Qed.

Lemma length_bytes_of_string_Z str :
  Z.of_nat (length (bytes_of_string str)) = strlen str.
Proof.
  unfold strlen, bytes_of_string. rewrite length_fmap. f_equal.
  induction str as [|a str IH]; simpl; congruence.
Qed.

(** What [out_string] leaves to send when the message it copies fits. *)
Lemma out_string_pending str c :
  length (wbuf c) = Z.to_nat (wsize c) ->
  strlen (out_string_message str c) + 2 <= wsize c ->
  pending_reply (out_string str c) = reply_line (out_string_message str c)
  /\ wbytes (out_string str c) = strlen (out_string_message str c) + 2.
Proof.
  intros Hlen Hfit. rewrite out_string_unfold. cbn zeta.
  set (msg := out_string_message str c) in *.
  unfold pending_reply, reply_line.
  cbn [wbytes wcurr wbuf set_write_and_go set_state set_wcurr set_wbytes
       set_wbuf set_iovused set_msgused].
  split; [|reflexivity].
  rewrite drop_0. pose proof (length_bytes_of_string_Z msg) as Hb.
  pose proof (strlen_nonneg msg).
  replace (Z.to_nat (strlen msg)) with (length (bytes_of_string msg)) by lia.
  replace (Z.to_nat (strlen msg + 2)) with (length (bytes_of_string msg) + 2)%nat by lia.
  apply memcpy_line. lia.
Qed.

(** C10.  For a connection whose write buffer is an array of [wsize] bytes
    that can hold the replacement line, [out_string] leaves exactly one
    reply line to send: the message followed by CR LF, where a message
    longer than [wsize - 2] bytes has been replaced by "SERVER_ERROR output
    line too long" before copying.  The two copies end within the buffer
    ([wbytes <= wsize], and the buffer keeps its size), the state is Write
    and the follow-on state is Read. *)
Theorem out_string_line_fits (str : string) (c : conn)
    (Hbuf : length (wbuf c) = Z.to_nat (wsize c))
    (Hmin : strlen too_long + 2 <= wsize c) :
  let c' := out_string str c in
  let msg := if strlen str + 2 >? wsize c then too_long else str in
  pending_reply c' = bytes_of_string msg ++ CRLF
  /\ out_string_copy_end str c = wbytes c'
  /\ wbytes c' <= wsize c'
  /\ wsize c' = wsize c
  /\ length (wbuf c') = length (wbuf c)
  /\ state c' = conn_write
  /\ write_and_go c' = conn_read.
Proof.
  intros c' msg.
  assert (Hfit : strlen (out_string_message str c) + 2 <= wsize c).
  { unfold out_string_message. destruct (Z.gtb_spec (strlen str + 2) (wsize c)); lia. }
  destruct (out_string_pending str c Hbuf Hfit) as [Hp Hw].
  fold c' in Hp, Hw. change msg with (out_string_message str c).
  assert (Hsz : wsize c' = wsize c).
  { subst c'. rewrite out_string_unfold. reflexivity. }
  split; [exact Hp|]. split.
  { rewrite Hw. unfold out_string_copy_end, out_string_message.
    now destruct (strlen str + 2 >? wsize c). }
  split; [lia|]. split; [exact Hsz|].
  subst c'. rewrite out_string_unfold. cbn zeta.
  cbn [wbuf state write_and_go set_write_and_go set_state set_wcurr set_wbytes
       set_wbuf set_iovused set_msgused].
  unfold memcpy. rewrite !length_inserts. repeat split.
Qed.

(** ** Connections: the end of the Nread phase *)

Lemma heap_do_item_deref_other p q s :
  p <> q -> heap (do_item_deref p s) !! q = heap s !! q.
Proof.
  intros Hne. unfold do_item_deref, free_if_unreferenced. cbn [heap with_heap].
  destruct (alter unpin p (heap s) !! p) as [it|].
  - destruct (_ && _); cbn [heap with_heap].
    + rewrite lookup_delete_ne by done. now apply lookup_alter_ne.
    + now apply lookup_alter_ne.
  - cbn [heap with_heap]. now apply lookup_alter_ne.
Qed.

Lemma wbuf_ok_fits str c :
  wbuf_ok c -> strlen str + 2 <= 64 ->
  out_string_message str c = str /\ strlen (out_string_message str c) + 2 <= wsize c.
Proof.
  intros [_ Hw] Hs. unfold out_string_message.
  destruct (Z.gtb_spec (strlen str + 2) (wsize c)); [lia|]. split; [done|lia].
Qed.

(** A reply shorter than 64 bytes goes out as it is. *)
Lemma out_string_short str c :
  wbuf_ok c -> strlen str + 2 <= 64 ->
  pending_reply (out_string str c) = reply_line str
  /\ state (out_string str c) = conn_write
  /\ write_and_go (out_string str c) = conn_read.
Proof.
  intros Hok Hs. destruct (wbuf_ok_fits str c Hok Hs) as [Hm Hfit].
  destruct (out_string_pending str c (proj1 Hok) Hfit) as [Hp _].
  rewrite Hm in Hp. split; [exact Hp|].
  rewrite out_string_unfold. split; reflexivity.
Qed.

(** C2.  At the end of the Nread phase ([riov_left = 0]) the [conn_nread]
    case runs [complete_nread].  If the two bytes received after the value
    are not CR LF, the reply is CLIENT_ERROR bad data chunk and the store
    decision is not taken: the store only loses the connection's reference
    to the new item, the index, the LRU chain and every other item are as
    they were.  If they are CR LF, [do_store_item] is applied to the item,
    the command and the key, and the reply is STORED or NOT_STORED after its
    result.  Either way the connection is in Write with follow-on state
    Read and holds no item. *)
Theorem complete_nread_checks_crlf (c : conn) (s : cache) (it : nat)
    (Hdone : riov_left c = 0) (Hitem : item c = Some it) (Hbuf : wbuf_ok c) :
  let r := complete_nread c s in
  let d := do_store_item it (item_comm c) (update_key c) s in
  drive_machine_nread c s = Some r
  /\ (take 2 (crlf c) <> CRLF ->
        pending_reply r.1 = reply_line "CLIENT_ERROR bad data chunk"
        /\ r.2 = do_item_deref it s
        /\ assoc r.2 = assoc s /\ lru r.2 = lru s
        /\ forall p, p <> it -> heap r.2 !! p = heap s !! p)
  /\ (take 2 (crlf c) = CRLF ->
        pending_reply r.1 = reply_line (nread_reply d.1)
        /\ (d.1 = 0 \/ d.1 = 1)
        /\ r.2 = do_item_deref it d.2)
  /\ state r.1 = conn_write /\ write_and_go r.1 = conn_read /\ item r.1 = None.
Proof.
  intros r d.
  split. { unfold drive_machine_nread. now rewrite Hdone. }
  subst r d. unfold complete_nread. rewrite Hitem.
  destruct (do_store_item it (item_comm c) (update_key c) s) as [stored s1] eqn:Hd.
  assert (Hstored : stored = 0 \/ stored = 1).
  { pose proof (do_store_item_result it (item_comm c) (update_key c) s) as H.
    now rewrite Hd in H. }
  assert (Hframe : forall x, pending_reply (set_item None x) = pending_reply x
            /\ state (set_item None x) = state x
            /\ write_and_go (set_item None x) = write_and_go x
            /\ item (set_item None x) = None).
  { intros x. repeat split. }
  assert (Hout : forall str, strlen str + 2 <= 64 ->
            pending_reply (set_item None (out_string str c)) = reply_line str
            /\ state (set_item None (out_string str c)) = conn_write
            /\ write_and_go (set_item None (out_string str c)) = conn_read
            /\ item (set_item None (out_string str c)) = None).
  { intros str Hs. destruct (Hframe (out_string str c)) as (-> & -> & -> & ->).
    destruct (out_string_short str c Hbuf Hs) as (-> & -> & ->). repeat split. }
  clear Hframe.
  case_bool_decide as Hcrlf; cbn [fst snd].
  - destruct (Hout "CLIENT_ERROR bad data chunk" ltac:(vm_compute; discriminate))
      as (Hp & Hst & Hgo & Hit).
    split; [|split; [intros; contradiction|auto]].
    intros _. split; [exact Hp|]. split; [reflexivity|].
    rewrite assoc_do_item_deref, lru_do_item_deref.
    split; [reflexivity|]. split; [reflexivity|].
    intros p Hp'. now apply heap_do_item_deref_other.
  - split; [intros; contradiction|].
    destruct Hstored as [-> | ->]; cbn [Z.eqb negb fst snd nread_reply].
    + destruct (Hout "NOT_STORED" ltac:(vm_compute; discriminate))
        as (Hp & Hst & Hgo & Hit).
      split; [intros _; split; [exact Hp|split; [now left|reflexivity]]|auto].
    + destruct (Hout "STORED" ltac:(vm_compute; discriminate))
        as (Hp & Hst & Hgo & Hit).
      split; [intros _; split; [exact Hp|split; [now right|reflexivity]]|auto].
Qed.

(** ** Connections: transmit failures *)

(** C9.  When [transmit] calls [sendmsg] and the call fails hard (it
    returns 0, or -1 with an error other than would-block), a UDP text
    connection goes to Read and never to Closing, and a TCP connection goes
    to Closing; [transmit] reports a hard error and the [conn_mwrite] case of
    the state machine continues in that state without touching the store. *)
Theorem transmit_hard_failure_state (sent : io_outcome) (event_ok : bool)
    (c : conn) (s : cache)
    (Hsend : sendmsg_called c = true) (Hfail : hard_failure sent = true) :
  let r := transmit sent event_ok c in
  let d := drive_machine_mwrite sent event_ok c s in
  r.2 = TRANSMIT_HARD_ERROR
  /\ d = (r.1, s, false)
  /\ (udp c = true -> binary c = false ->
        state r.1 = conn_read /\ state r.1 <> conn_closing)
  /\ (udp c = false -> state r.1 = conn_closing).
Proof.
  intros r d. subst r d.
  unfold sendmsg_called, hard_failure in *.
  apply andb_prop in Hfail as [Hres Hblock].
  apply negb_true_iff in Hres, Hblock.
  unfold drive_machine_mwrite, transmit.
  set (c1 := if _ && _ then set_msgcurr _ c else c) in *.
  assert (Hudp : udp c1 = udp c) by (subst c1; now destruct (_ && _)).
  assert (Hbin : binary c1 = binary c) by (subst c1; now destruct (_ && _)).
  rewrite Hsend, Hres, Hblock, Hudp, Hbin.
  destruct (binary c), (udp c); cbn [fst snd];
    repeat split; intros; try discriminate;
    rewrite ?state_conn_set_state; try reflexivity; discriminate.
Qed.

(** ** Connections: UDP requests *)

Lemma memcpy_0 (w src : list Z) (n : nat) :
  (n <= length src)%nat -> (n <= length w)%nat ->
  memcpy w 0 src n = take n src ++ drop n w.
Proof.
  intros Hs Hw. unfold memcpy.
  rewrite <- (take_drop n w) at 1.
  apply list_inserts_0_r. rewrite !length_take. lia.
Qed.


(** ** Connections: swallowing the payload of a failed update *)









End ConnFacts.

(** ** UDP replies: fragmentation and headers *)

Section UdpFacts.
Import Int Bytes Store Connection.
Context {L : limits}.

Lemma iov_bytes_app l k : iov_bytes (l ++ k) = iov_bytes l + iov_bytes k.
Proof. induction l as [|v l IH]; simpl; lia. Qed.

Lemma iov_bytes_snoc l b n : iov_bytes (l ++ [Iovec b n]) = iov_bytes l + n.
Proof. rewrite iov_bytes_app. simpl. lia. Qed.

Lemma concat_snoc {A} (gs : list (list A)) g : concat (gs ++ [g]) = concat gs ++ g.
Proof. rewrite concat_app. simpl. now rewrite app_nil_r. Qed.

Lemma take_snoc_insert {A} (l : list A) i v :
  (i < length l)%nat -> take (S i) (<[i := v]> l) = take i l ++ [v].
Proof.
  intros Hi. rewrite (take_S_r _ _ v) by now apply list_lookup_insert_eq.
  now rewrite take_insert_ge by lia.
Qed.

Lemma ensure_iov_space_nonzero c :
  iovsize c <> 0%nat ->
  ensure_iov_space c
  = (c, if bool_decide (iovsize c <= iovused c)%nat then -1 else 0).
Proof.
  intros Hnz. unfold ensure_iov_space.
  rewrite (bool_decide_eq_false_2 (iovsize c = 0%nat)) by done.
  now case_bool_decide.
Qed.

(** What [ensure_iov_space] does to a connection whose iovec list is
    consistent. *)
Lemma ensure_iov_space_spec c :
  length (iov c) = iovsize c -> (iovused c <= iovsize c)%nat ->
  let r := ensure_iov_space c in
  same_messages c r.1
  /\ length (iov r.1) = iovsize r.1
  /\ take (iovused c) (iov r.1) = take (iovused c) (iov c)
  /\ (iov_room r.1 <= iov_room c)%nat
  /\ ((r.2 = 0 /\ (iovused c < iovsize r.1)%nat
       /\ ensure_iov_space r.1 = (r.1, 0))
      \/ (r.2 = -1 /\ (iovused c <= iovsize r.1)%nat)).
Proof.
  intros Hlen Hused r. subst r.
  destruct (ensure_iov_space c) as [c2 r] eqn:E. cbn [fst snd].
  unfold ensure_iov_space in E.
  set (c1 := if bool_decide (iovsize c = 0%nat) then _ else c) in E.
  assert (H1 : same_messages c c1 /\ length (iov c1) = iovsize c1
               /\ take (iovused c) (iov c1) = take (iovused c) (iov c)
               /\ (iov_room c1 <= iov_room c)%nat
               /\ (iovused c <= iovsize c1)%nat
               /\ (iovsize c1 <> 0%nat -> ensure_iov_space c1
                     = (c1, if bool_decide (iovsize c1 <= iovused c1)%nat
                            then -1 else 0))).
  { subst c1. destruct (bool_decide_reflect (iovsize c = 0%nat)) as [Hz|Hz].
    - assert (Hu : iovused c = 0%nat) by lia.
      unfold pool_take. destruct (pool c) as [|[|] rest].
      + cbn. unfold same_messages, iov_room. cbn. rewrite Hz, Hu.
        split_and!; try done; try lia.
      + cbn -[replicate]. unfold same_messages, iov_room. cbn -[replicate].
        rewrite length_replicate, Hz, Hu.
        split_and!; try done; try lia.
        * repeat case_bool_decide; lia.
        * intros Hc. rewrite ensure_iov_space_nonzero by exact Hc.
          cbn -[replicate]. now rewrite ?Hu.
      + cbn. unfold same_messages, iov_room. cbn. rewrite Hz, Hu.
        split_and!; try done; try lia.
    - unfold same_messages. split_and!; try done; try lia.
      intros _. now apply ensure_iov_space_nonzero. }
  clearbody c1.
  destruct H1 as (Hsame & Hl1 & Ht1 & Hroom & Hu1 & Hid).
  assert (Hiu : iovused c1 = iovused c) by apply Hsame.
  case_bool_decide as Hfull; simplify_eq.
  - split_and!; try done. right. split; [done|lia].
  - split_and!; try done. left. split; [done|]. split; [lia|].
    apply Hid. lia.
Qed.

(** The fields [append_iov] changes. *)
Lemma append_iov_fields c buf len st m0 :
  msglist c !! (msgused c - 1)%nat = Some m0 ->
  let c' := append_iov buf len st c in
  (exists fl cl,
     msglist c' = <[(msgused c - 1)%nat :=
                     Msghdr (msg_iov m0) (S (msg_iovlen m0)) fl cl]> (msglist c))
  /\ iov c' = <[(msg_iov m0 + msg_iovlen m0)%nat := Iovec buf len]> (iov c)
  /\ iovused c' = S (iovused c) /\ msgbytes c' = msgbytes c + len
  /\ msgused c' = msgused c /\ udp c' = udp c /\ msgsize c' = msgsize c
  /\ iovsize c' = iovsize c /\ hdrbuf c' = hdrbuf c /\ hdrsize c' = hdrsize c
  /\ request_id c' = request_id c.
Proof.
  intros Hm c'. subst c'. unfold append_iov.
  rewrite (list_lookup_total_correct _ _ _ Hm).
  cbn [udp msglist iov iovused msgbytes msgused msgsize iovsize hdrbuf hdrsize
       request_id set_iov set_msgbytes set_iovused set_msglist].
  split_and!; try reflexivity.
  destruct (udp c && st && (msg_flags m0 =? 0)); eauto.
Qed.

(** Appending an iovec to the last message keeps the layout. *)
Lemma append_iov_laid_out c gs g buf len st :
  laid_out c (gs ++ [g]) -> (iovused c < length (iov c))%nat ->
  laid_out (append_iov buf len st c) (gs ++ [g ++ [Iovec buf len]]).
Proof.
  intros (Hlen & Hcat & Hmsg) Hroom.
  rewrite length_app in Hlen. cbn [length] in Hlen.
  assert (Hn : (msgused c - 1)%nat = length gs) by lia.
  destruct (Hmsg (length gs) g) as (m0 & Hm0 & Hiov0 & Hlen0).
  { now rewrite lookup_app_r, Nat.sub_diag by lia. }
  rewrite take_app_length in Hiov0.
  assert (Hused : iovused c = length (concat gs ++ g)).
  { rewrite <- concat_snoc, Hcat, length_take. lia. }
  rewrite <- Hn in Hm0.
  destruct (append_iov_fields c buf len st m0 Hm0)
    as ((fl & cl & Hml) & Hiov & Hiu & _ & Hmu & _).
  cbv zeta in Hml, Hiov, Hiu, Hmu.
  split; [|split].
  - rewrite Hmu, length_app. cbn [length]. lia.
  - rewrite Hiu, Hiov, Hiov0, Hlen0.
    replace (length (concat gs) + length g)%nat with (iovused c)
      by (rewrite Hused, length_app; lia).
    rewrite take_snoc_insert by lia.
    rewrite <- Hcat, !concat_snoc. now rewrite app_assoc.
  - intros i gi Hgi. rewrite Hml, Hn.
    destruct (decide (i = length gs)) as [->|Hne].
    + rewrite lookup_app_r, Nat.sub_diag in Hgi by lia.
      injection Hgi as <-.
      eexists. split.
      * apply list_lookup_insert_eq. rewrite <- Hn.
        now apply lookup_lt_Some in Hm0.
      * cbn [msg_iov msg_iovlen]. rewrite take_app_length, length_app.
        cbn [length]. split; [exact Hiov0 | lia].
    + assert (Hlt : (i < length gs)%nat).
      { apply lookup_lt_Some in Hgi. rewrite length_app in Hgi.
        cbn [length] in Hgi. lia. }
      rewrite lookup_app_l in Hgi by lia.
      destruct (Hmsg i gi) as (m & Hm & Hi1 & Hi2).
      { now rewrite lookup_app_l by lia. }
      exists m. rewrite list_lookup_insert_ne by lia.
      split; [exact Hm|].
      rewrite take_app_le in Hi1 by lia. rewrite take_app_le by lia.
      now split.
Qed.

Lemma reply_start_layout c : reply_start c -> reply_layout c [].
Proof.
  intros (Hudp & Hmax & Hmu & Hiu & Hml & Hms & Hil & Hh).
  unfold reply_layout, laid_out. rewrite Hmu, Hiu.
  split_and!; try done; lia.
Qed.

(** [ensure_iov_space] keeps the layout. *)
Lemma ensure_iov_space_layout c gs :
  reply_layout c gs ->
  reply_layout (ensure_iov_space c).1 gs
  /\ msgbytes (ensure_iov_space c).1 = msgbytes c.
Proof.
  intros (Hudp & Hmax & Hml & Hms & Hmu & Hil & Hiu & Hh & (Hl1 & Hl2 & Hl3) & Hok).
  destruct (ensure_iov_space_spec c Hil Hiu) as (Hsame & Hlen & Htake & _ & Hres).
  cbv zeta in *. destruct Hsame as (E1 & E2 & E3 & E4 & E5 & E6 & E7 & E8 & E9).
  split; [|exact E5].
  unfold reply_layout, laid_out. rewrite E1, E2, E3, E4, E6, E7, E9.
  split_and!; try done.
  - destruct Hres as [(_ & H & _)|(_ & H)]; lia.
  - now rewrite Htake.
Qed.

(** Appending a fragment that fits keeps the invariant and takes an iovec
    slot. *)
Lemma append_iov_udp_reply c buf len st :
  udp_reply c -> (iovused c < iovsize c)%nat -> 0 <= len ->
  msgbytes c + len <= UDP_MAX_PAYLOAD_SIZE ->
  udp_reply (append_iov buf len st c)
  /\ (iov_room (append_iov buf len st c) < iov_room c)%nat.
Proof.
  intros (gs & Hlay & Hne & Hlast) Hroom Hlen Hfit.
  destruct Hlay as (Hudp & Hmax & Hml & Hms & Hmu & Hil & Hiu & Hh & Hlo & Hok).
  destruct (exists_last Hne) as (gs0 & g & ->).
  assert (Hm0 : exists m0, msglist c !! (msgused c - 1)%nat = Some m0).
  { destruct Hlo as (Hl & _ & Hmsg). rewrite length_app in Hl. cbn in Hl.
    destruct (Hmsg (length gs0) g) as (m0 & Hm0 & _).
    { now rewrite lookup_app_r, Nat.sub_diag by lia. }
    exists m0. rewrite <- Hm0. f_equal. lia. }
  destruct Hm0 as (m0 & Hm0).
  destruct (append_iov_fields c buf len st m0 Hm0)
    as ((fl & cl & Eml) & Eiov & Eiu & Emb & Emu & Eudp & Ems & Eis & Ehb & Ehs & _).
  cbv zeta in *.
  pose proof (append_iov_laid_out c gs0 g buf len st Hlo ltac:(lia)) as Hlo'.
  apply Forall_app in Hok as [Hok0 Hokg].
  rewrite Forall_singleton in Hokg. destruct Hokg as (rest & -> & Hrest & Hbytes).
  specialize (Hlast _ (last_snoc _ _)).
  split.
  - exists (gs0 ++ [(Iovec PNull UDP_HEADER_SIZE :: rest) ++ [Iovec buf len]]).
    split; [|split].
    + unfold reply_layout. rewrite Eudp, Eml, Eiov, Ems, Emu, Eis, Eiu, Ehb, Ehs.
      rewrite !length_insert.
      split_and!; try done; try lia.
      apply Forall_app. split; [exact Hok0|]. apply Forall_singleton.
      exists (rest ++ [Iovec buf len]). split; [reflexivity|]. split.
      * apply Forall_app. split; [exact Hrest|]. now apply Forall_singleton.
      * rewrite iov_bytes_snoc. lia.
    + intros Habs. now apply app_eq_nil in Habs as [_ ?].
    + intros g' Hg'. rewrite last_snoc in Hg'. injection Hg' as <-.
      rewrite Emb, Hlast. symmetry.
      apply (iov_bytes_snoc (Iovec PNull UDP_HEADER_SIZE :: rest)).
  - unfold iov_room. rewrite Eis, Eiu.
    rewrite !bool_decide_eq_false_2 by lia. lia.
Qed.

(** The layout only looks at the messages in use and the iovecs in use. *)
Lemma laid_out_ext c c' gs :
  laid_out c gs ->
  msgused c' = msgused c -> iovused c' = iovused c ->
  take (iovused c) (iov c') = take (iovused c) (iov c) ->
  (forall i, (i < msgused c)%nat -> msglist c' !! i = msglist c !! i) ->
  laid_out c' gs.
Proof.
  intros (H1 & H2 & H3) Emu Eiu Etake Eml. unfold laid_out.
  rewrite Emu, Eiu, Etake. split_and!; try done.
  intros i g Hg. destruct (H3 i g Hg) as (m & Hm & Hrest).
  exists m. split; [|exact Hrest]. rewrite Eml; [exact Hm|].
  apply lookup_lt_Some in Hg. lia.
Qed.

(** What [open_msghdr] leaves: either it fails and the reply is as it was,
    or there is a new, empty last message. *)
Lemma open_msghdr_spec c gs :
  reply_layout c gs ->
  let r := open_msghdr c in
  (r.2 = -1 /\ reply_layout r.1 gs /\ msgbytes r.1 = msgbytes c
   /\ (iov_room r.1 <= iov_room c)%nat)
  \/ (r.2 = 0 /\ udp r.1 = true
      /\ length (msglist r.1) = msgsize r.1 /\ (0 < msgsize r.1)%nat
      /\ msgused r.1 = S (msgused c) /\ (msgused r.1 <= msgsize r.1)%nat
      /\ length (iov r.1) = iovsize r.1 /\ (iovused r.1 < iovsize r.1)%nat
      /\ iovused r.1 = iovused c
      /\ length (hdrbuf r.1) = (hdrsize r.1 * 8)%nat
      /\ laid_out r.1 (gs ++ [[]]) /\ msgbytes r.1 = 0
      /\ ensure_iov_space r.1 = (r.1, 0)
      /\ msglist r.1 !! msgused c = Some (Msghdr (iovused c) 0 0 0)
      /\ (iov_room r.1 <= iov_room c)%nat).
Proof.
  intros Hlay r. subst r.
  pose proof Hlay as (Hudp & Hmax & Hml & Hms & Hmu & Hil & Hiu & Hh & Hlo & Hok).
  unfold open_msghdr.
  (* the message list, doubled when full *)
  set (st1 := if bool_decide (msgsize c = msgused c) then _ else (c, true)).
  assert (H1 : exists extra,
            msglist st1.1 = msglist c ++ extra
            /\ length (msglist st1.1) = msgsize st1.1
            /\ (st1.2 = true -> (msgused c < msgsize st1.1)%nat)
            /\ udp st1.1 = udp c /\ msgused st1.1 = msgused c
            /\ msgbytes st1.1 = msgbytes c /\ iov st1.1 = iov c
            /\ iovsize st1.1 = iovsize c /\ iovused st1.1 = iovused c
            /\ hdrbuf st1.1 = hdrbuf c /\ hdrsize st1.1 = hdrsize c
            /\ (st1.2 = false -> msgsize st1.1 = msgsize c)).
  { subst st1. case_bool_decide as Hfull.
    - unfold pool_take. destruct (pool c) as [|[|] rest]; cbn.
      + exists []. rewrite app_nil_r. split_and!; try done.
      + exists (replicate (msgsize c) zero_msghdr).
        rewrite length_app, length_replicate.
        split_and!; try done; lia.
      + exists []. rewrite app_nil_r. split_and!; try done.
    - exists []. rewrite app_nil_r. cbn. split_and!; try done; lia. }
  destruct st1 as [c1 grown]. cbn [fst snd] in H1.
  destruct H1 as (extra & E1 & E2 & E3 & E4 & E5 & E6 & E7 & E8 & E9 & E10 & E11 & E12).
  destruct grown; cbn [negb].
  2:{ (* the list could not grow *)
    left. cbn [fst snd]. split; [done|]. split; [|split; [done|]].
    - unfold reply_layout. rewrite E4, E2, E8, E9, E10, E11, E7, (E12 eq_refl), E5.
      split_and!; try done.
      apply (laid_out_ext c); try done; try congruence.
      intros i Hi. rewrite E1, lookup_app_l by lia. done.
    - unfold iov_room. now rewrite E8, E9. }
  specialize (E3 eq_refl).
  (* the slot is wiped, then the iovec list checked *)
  set (c2 := set_msglist (<[msgused c1:=zero_msghdr]> (msglist c1)) c1).
  assert (Hil2 : length (iov c2) = iovsize c2) by (cbn; congruence).
  assert (Hiu2 : (iovused c2 <= iovsize c2)%nat) by (cbn; lia).
  destruct (ensure_iov_space_spec c2 Hil2 Hiu2) as (Hsame & Hlen3 & Htake3 & Hroom3 & Hres).
  cbv zeta in *. destruct (ensure_iov_space c2) as [c3 r3]. cbn [fst snd] in *.
  destruct Hsame as (S1 & S2 & S3 & S4 & S5 & S6 & S7 & S8 & S9).
  subst c2.
  cbn [udp msglist msgsize msgused msgbytes hdrbuf hdrsize request_id iovused
       iov iovsize set_msglist]
    in S1, S2, S3, S4, S5, S6, S7, S8, S9, Htake3, Hil2, Hiu2, Hres.
  assert (Hroom : (iov_room c3 <= iov_room c)%nat).
  { etransitivity; [exact Hroom3|]. unfold iov_room. cbn. rewrite E8, E9. lia. }
  assert (Hold : forall i, (i < msgused c)%nat ->
            <[msgused c1:=zero_msghdr]> (msglist c1) !! i = msglist c !! i).
  { intros i Hi. rewrite list_lookup_insert_ne by lia.
    rewrite E1, lookup_app_l by lia. done. }
  destruct Hres as [(-> & Hlt & Hens)|(-> & Hle)]; cbn [Z.eqb negb fst snd].
  2:{ (* no iovec left *)
    left. split; [done|]. split; [|split; [congruence|exact Hroom]].
    unfold reply_layout. rewrite S1, S2, S3, S4, S6, S7, S9, Hlen3, length_insert.
    rewrite E4, E2, E5, E9, E10, E11.
    split_and!; try done; try lia.
    apply (laid_out_ext c); try done; try congruence.
    intros i Hi. rewrite S2. now apply Hold. }
  right.
  cbn [udp msglist msgsize msgused msgbytes hdrbuf hdrsize iovused iov iovsize
       set_msgused set_msgbytes set_msglist].
  rewrite S1, S2, S3, S4, S6, S7, S9, Hlen3, !length_insert, E2, E4, E5, E9, E10, E11.
  split_and!; try done; try lia.
  - (* the layout with the new message *)
    destruct Hlo as (L1 & L2 & L3). unfold laid_out.
    cbn [msglist msgused iovused iov set_msgused set_msgbytes set_msglist].
    rewrite ?S2, ?S4, ?S9, ?E5, ?E9. rewrite E5 in Hold. rewrite E9 in Htake3.
    split_and!.
    + rewrite length_app. cbn. lia.
    + rewrite concat_snoc, app_nil_r, L2, Htake3. now rewrite E7.
    + intros i g Hg.
      destruct (decide (i = length gs)) as [->|Hne].
      * rewrite lookup_app_r, Nat.sub_diag in Hg by lia. injection Hg as <-.
        eexists. split.
        -- rewrite L1. apply list_lookup_insert_eq.
           rewrite length_insert, E2. lia.
        -- cbn [msg_iov msg_iovlen length]. split; [|done].
           rewrite take_app_length, L2, length_take. lia.
      * assert (Hlt' : (i < length gs)%nat).
        { apply lookup_lt_Some in Hg. rewrite length_app in Hg. cbn in Hg. lia. }
        rewrite lookup_app_l in Hg by lia.
        destruct (L3 i g Hg) as (m & Hm & Hi1 & Hi2).
        exists m. rewrite take_app_le by lia. split; [|done].
        rewrite list_lookup_insert_ne by lia. rewrite Hold by lia. exact Hm.
  - (* the iovec list has room and will not be touched *)
    match goal with |- ensure_iov_space ?c4 = _ =>
      rewrite (ensure_iov_space_nonzero c4) by (cbn; lia) end.
    cbn [iovsize iovused set_msgused set_msgbytes set_msglist].
    rewrite S9. cbn [iovused set_msglist].
    now rewrite bool_decide_eq_false_2 by lia.
  - apply list_lookup_insert_eq. rewrite length_insert, E2. lia.
Qed.

(** [add_msghdr] on a UDP reply: it fails and leaves the reply as it was,
    or it opens a message that holds the place of the header. *)
Lemma add_msghdr_with_spec f c gs :
  reply_layout c gs ->
  exists c' r,
    add_msghdr_with (add_iov_fuel (S f)) c = Some (c', r)
    /\ ((r = -1 /\ reply_layout c' gs /\ msgbytes c' = msgbytes c
         /\ (iov_room c' <= iov_room c)%nat)
        \/ (r = 0 /\ udp_reply c' /\ (iov_room c' < iov_room c)%nat)).
Proof.
  intros Hlay.
  pose proof Hlay as (Hudp & Hmax & _ & _ & _ & _ & _ & _ & _ & Hok).
  unfold add_msghdr_with.
  destruct (open_msghdr_spec c gs Hlay) as [(Hr & Hl & Hb & Hroom)|Hopen];
    cbv zeta in *; destruct (open_msghdr c) as [c1 r1]; cbn [fst snd] in *.
  { subst r1. cbn [Z.eqb negb]. eexists _, _. split; [reflexivity|]. left. done. }
  destruct Hopen as (-> & Hudp1 & Hml1 & Hms1 & Hmu1 & Hmu1' & Hil1 & Hiu1 & Hiu1'
                     & Hh1 & Hlo1 & Hmb1 & Hens1 & Hlast1 & Hroom1).
  cbn [Z.eqb negb]. rewrite Hudp1.
  (* the call that leaves room for the header *)
  cbn [add_iov_fuel].
  assert (Hidx : (msgused c1 - 1)%nat = msgused c) by lia.
  rewrite Hidx, (list_lookup_total_correct _ _ _ Hlast1), Hudp1, Hmb1.
  cbn [msg_iovlen orb andb].
  rewrite bool_decide_eq_false_2 by lia.
  change (0 >=? UDP_MAX_PAYLOAD_SIZE) with false. cbn [orb].
  rewrite Hens1. cbn [Z.eqb negb]. rewrite Hmb1.
  change (UDP_HEADER_SIZE + 0 >? UDP_MAX_PAYLOAD_SIZE) with false.
  cbn [andb]. change (0 >? 0) with false. cbv iota.
  change (UDP_HEADER_SIZE - 0) with UDP_HEADER_SIZE.
  eexists _, _. split; [reflexivity|]. right. split; [done|].
  rewrite <- Hidx in Hlast1.
  destruct (append_iov_fields c1 PNull UDP_HEADER_SIZE false _ Hlast1)
    as ((fl & cl & Eml) & Eiov & Eiu & Emb & Emu & Eudp & Ems & Eis & Ehb & Ehs & _).
  cbv zeta in *.
  pose proof (append_iov_laid_out c1 gs [] PNull UDP_HEADER_SIZE false Hlo1
                ltac:(lia)) as Hlo2.
  split.
  - exists (gs ++ [[Iovec PNull UDP_HEADER_SIZE]]). split; [|split].
    + unfold reply_layout. rewrite Eudp, Eml, Eiov, Ems, Emu, Eis, Eiu, Ehb, Ehs.
      rewrite !length_insert.
      split_and!; try done; try lia.
      apply Forall_app. split; [exact Hok|]. apply Forall_singleton.
      exists []. split; [reflexivity|]. split; [constructor|].
      vm_compute. discriminate.
    + intros Habs. now apply app_eq_nil in Habs as [_ ?].
    + intros g Hg. rewrite last_snoc in Hg. injection Hg as <-.
      rewrite Emb, Hmb1. reflexivity.
  - unfold iov_room in *. rewrite Eis, Eiu.
    rewrite bool_decide_eq_false_2 by lia.
    rewrite (bool_decide_eq_false_2 (iovsize c1 = 0%nat)) in Hroom1 by lia. lia.
Qed.

Lemma udp_reply_msgbytes c :
  udp_reply c -> UDP_HEADER_SIZE <= msgbytes c <= UDP_MAX_PAYLOAD_SIZE.
Proof.
  intros (gs & Hlay & Hne & Hlast).
  destruct (exists_last Hne) as (gs0 & g & ->).
  rewrite (Hlast g (last_snoc _ _)).
  destruct Hlay as (_ & _ & _ & _ & _ & _ & _ & _ & _ & Hok).
  apply Forall_app in Hok as [_ Hg]. rewrite Forall_singleton in Hg.
  destruct Hg as (rest & -> & Hrest & Hle). split; [|exact Hle].
  cbn [iov_bytes foldr iov_len].
  assert (0 <= foldr (fun v n => iov_len v + n) 0 rest); [|lia].
  clear Hle Hlast Hne. induction Hrest; simpl; lia.
Qed.

(** [add_iov] on a UDP reply under construction: with a unit of fuel for
    each free iovec slot and two more it returns, and the reply it leaves
    satisfies the invariant whether it returns 0 or -1. *)
Lemma add_iov_fuel_udp_reply fuel : forall buf len st c,
  udp_reply c -> 0 <= len -> (iov_room c + 2 <= fuel)%nat ->
  exists c' r, add_iov_fuel fuel buf len st c = Some (c', r)
    /\ udp_reply c' /\ (r = 0 \/ r = -1).
Proof.
  induction fuel as [|f IH]; intros buf len st c Hrep Hlen Hfuel; [lia|].
  pose proof Hrep as (gs & Hlay & Hne & Hlast).
  pose proof Hlay as (Hudp & _).
  cbn [add_iov_fuel]. rewrite Hudp. cbn [orb andb].
  destruct f as [|f']; [lia|].
  (* a new message when the last one is full *)
  match goal with |- context [if ?b then fst <$> _ else Some c] =>
    assert (Hnext : exists c1,
      (if b then fst <$> add_msghdr_with (add_iov_fuel (S f')) c else Some c) = Some c1
      /\ udp_reply c1 /\ (iov_room c1 <= iov_room c)%nat)
  end.
  { destruct (_ || _).
    - destruct (add_msghdr_with_spec f' c gs Hlay) as (c1 & r1 & -> & Hcase).
      exists c1. split; [reflexivity|].
      destruct Hcase as [(_ & Hl1 & Hb1 & Hr1)|(_ & Hrep1 & Hr1)].
      + split; [|exact Hr1]. exists gs. split; [exact Hl1|]. split; [exact Hne|].
        intros g Hg. rewrite Hb1. now apply Hlast.
      + split; [exact Hrep1 | lia].
    - exists c. split; [reflexivity|]. split; [exact Hrep | lia]. }
  destruct Hnext as (c1 & -> & Hrep1 & Hroom1).
  clear gs Hlay Hne Hlast.
  (* room for one more iovec *)
  pose proof Hrep1 as (gs & Hlay1 & Hne1 & Hlast1).
  pose proof Hlay1 as (Hudp1 & _ & _ & _ & _ & Hil1 & Hiu1 & _).
  destruct (ensure_iov_space_layout c1 gs Hlay1) as (Hlay2 & Hmb2).
  destruct (ensure_iov_space_spec c1 Hil1 Hiu1) as (Hsame & _ & _ & Hroom2 & Hres).
  cbv zeta in *. destruct (ensure_iov_space c1) as [c2 r2]. cbn [fst snd] in *.
  assert (Hrep2 : udp_reply c2).
  { exists gs. split; [exact Hlay2|]. split; [exact Hne1|].
    intros g Hg. rewrite Hmb2. now apply Hlast1. }
  destruct Hres as [(-> & Hlt & _)|(-> & _)]; cbn [Z.eqb negb].
  2:{ eexists _, _. split; [reflexivity|]. split; [exact Hrep2 | now right]. }
  assert (Hiu2 : iovused c2 = iovused c1) by apply Hsame.
  pose proof (udp_reply_msgbytes c2 Hrep2) as Hmb.
  (* the part of the fragment that fits *)
  set (leftover := if len + msgbytes c2 >? UDP_MAX_PAYLOAD_SIZE
                   then len + msgbytes c2 - UDP_MAX_PAYLOAD_SIZE else 0).
  assert (Hleft : 0 <= leftover /\ 0 <= len - leftover
                  /\ msgbytes c2 + (len - leftover) <= UDP_MAX_PAYLOAD_SIZE).
  { subst leftover. destruct (Z.gtb_spec (len + msgbytes c2) UDP_MAX_PAYLOAD_SIZE); lia. }
  destruct Hleft as (Hl0 & Hl1 & Hl2).
  destruct (append_iov_udp_reply c2 buf (len - leftover) st Hrep2 ltac:(lia) Hl1 Hl2)
    as (Hrep3 & Hroom3).
  destruct (Z.gtb_spec leftover 0) as [Hmore|_].
  - apply IH; [exact Hrep3 | lia | lia].
  - eexists _, _. split; [reflexivity|]. split; [exact Hrep3 | now left].
Qed.

(** [add_iov] and [add_msghdr] never run out of the fuel they are given. *)
Lemma add_iov_total buf len st c :
  udp_reply c -> 0 <= len ->
  exists c' r, add_iov buf len st c = Some (c', r)
    /\ udp_reply c' /\ (r = 0 \/ r = -1).
Proof.
  intros Hrep Hlen. unfold add_iov. now apply add_iov_fuel_udp_reply.
Qed.

Lemma add_msghdr_total c :
  reply_start c ->
  exists c' r, add_msghdr c = Some (c', r)
    /\ (r = 0 \/ r = -1) /\ (r = 0 -> udp_reply c').
Proof.
  intros Hstart. unfold add_msghdr.
  replace (iov_room c + 2)%nat with (S (S (iov_room c))) by lia.
  destruct (add_msghdr_with_spec (S (iov_room c)) c [] (reply_start_layout c Hstart))
    as (c' & r & -> & Hcase).
  exists c', r. split; [reflexivity|].
  destruct Hcase as [(-> & _)|(-> & Hrep & _)].
  - split; [now right|]. discriminate.
  - split; [now left|]. intros _. exact Hrep.
Qed.

(** Every connection a reply goes through while it is built satisfies the
    invariant. *)
Lemma building_udp_reply c : building c -> udp_reply c.
Proof.
  induction 1 as [c c' Hstart Hadd | c buf len st c' r _ IH Hlen Hadd].
  - destruct (add_msghdr_total c Hstart) as (c1 & r1 & E & _ & Hrep).
    rewrite E in Hadd. simplify_eq. now apply Hrep.
  - destruct (add_iov_total buf len st c IH Hlen) as (c1 & r1 & E & Hrep & _).
    rewrite E in Hadd. simplify_eq. exact Hrep.
Qed.

(** *** The headers *)

Lemma stamp_0 gs : stamp 0 gs = gs.
Proof.
  apply list_eq. intros i. unfold stamp. rewrite list_lookup_imap.
  destruct (gs !! i); [|done]. cbn. now rewrite bool_decide_eq_false_2 by lia.
Qed.

Lemma length_stamp k gs : length (stamp k gs) = length gs.
Proof. unfold stamp. apply length_imap. Qed.

Lemma stamp_lookup k gs i g :
  gs !! i = Some g ->
  stamp k gs !! i
  = Some (if bool_decide (i < k)%nat
          then Iovec (PHdr (UDP_HEADER_SIZE * Z.of_nat i)) UDP_HEADER_SIZE :: tail g
          else g).
Proof. intros Hg. unfold stamp. now rewrite list_lookup_imap, Hg. Qed.

Lemma stamp_S k gs g :
  gs !! k = Some g ->
  stamp (S k) gs
  = <[k := Iovec (PHdr (UDP_HEADER_SIZE * Z.of_nat k)) UDP_HEADER_SIZE :: tail g]>
      (stamp k gs).
Proof.
  intros Hg. apply list_eq. intros i.
  destruct (gs !! i) as [gi|] eqn:Hgi.
  - rewrite (stamp_lookup _ _ _ _ Hgi).
    destruct (decide (i = k)) as [->|Hne].
    + rewrite list_lookup_insert_eq
        by (rewrite length_stamp; now apply lookup_lt_Some in Hg).
      rewrite bool_decide_eq_true_2 by lia. congruence.
    + rewrite list_lookup_insert_ne by done.
      rewrite (stamp_lookup _ _ _ _ Hgi).
      destruct (decide (i < k)%nat).
      * now rewrite !bool_decide_eq_true_2 by lia.
      * now rewrite !bool_decide_eq_false_2 by lia.
  - assert (Hge : (length gs <= i)%nat) by now apply lookup_ge_None.
    rewrite !lookup_ge_None_2; [done| |];
      rewrite ?length_insert, length_stamp; lia.
Qed.

(** Replacing the head of group [k] is an update of the flattened list. *)
Lemma concat_insert_head (gs : list (list iovec)) k h t v :
  gs !! k = Some (h :: t) ->
  <[length (concat (take k gs)) := v]> (concat gs)
  = concat (<[k := v :: t]> gs).
Proof.
  intros Hk.
  rewrite (insert_take_drop gs) by (eapply lookup_lt_Some; exact Hk).
  transitivity (<[length (concat (take k gs)) := v]>
                  (concat (take k gs ++ (h :: t) :: drop (S k) gs))).
  { now rewrite take_drop_middle. }
  rewrite !concat_app. cbn [concat].
  rewrite insert_app_r_alt, Nat.sub_diag by lia. reflexivity.
Qed.

Lemma concat_take_insert_length (gs : list (list iovec)) k g g' i :
  gs !! k = Some g -> length g' = length g ->
  length (concat (take i (<[k := g']> gs))) = length (concat (take i gs)).
Proof.
  intros Hk Hlen.
  destruct (decide (i <= k)%nat).
  - now rewrite take_insert_ge by lia.
  - rewrite take_insert_lt by lia.
    assert (Hk' : take i gs !! k = Some g) by (rewrite lookup_take_lt by lia; done).
    rewrite <- (take_drop_middle (take i gs) k g Hk') at 2.
    rewrite insert_take_drop
      by (apply lookup_lt_Some in Hk'; exact Hk').
    rewrite !concat_app, !length_app. cbn [concat]. rewrite !length_app. lia.
Qed.

(** The iovecs of message [i] are group [i] of the layout. *)
Lemma laid_out_msg_iovs c gs i g :
  laid_out c gs -> gs !! i = Some g -> msg_iovs c i = g.
Proof.
  intros (Hlen & Hcat & Hmsg) Hg.
  destruct (Hmsg i g Hg) as (m & Hm & Hiov & Hl).
  unfold msg_iovs. rewrite (list_lookup_total_correct _ _ _ Hm), Hiov, Hl.
  rewrite <- (take_drop (iovused c) (iov c)), <- Hcat.
  rewrite <- (take_drop_middle gs i g Hg) at 2.
  rewrite concat_app. cbn [concat].
  rewrite <- !app_assoc, drop_app_length.
  now rewrite take_app_length.
Qed.

(** Copying into the middle of a buffer. *)
Lemma memcpy_at (w src : list Z) (off n : nat) :
  length src = n -> (off + n <= length w)%nat ->
  memcpy w off src n = take off w ++ src ++ drop (off + n) w.
Proof.
  intros Hn Hfit. unfold memcpy. rewrite take_ge by lia.
  transitivity (list_inserts (length (take off w) + 0) src
                  (take off w ++ take n (drop off w) ++ drop n (drop off w))).
  { rewrite !take_drop, length_take. f_equal. lia. }
  rewrite list_inserts_app_r, list_inserts_0_r
    by (rewrite length_take, length_drop; lia).
  now rewrite drop_drop.
Qed.

Lemma memcpy_read (w src : list Z) (off n : nat) :
  length src = n -> (off + n <= length w)%nat ->
  take n (drop off (memcpy w off src n)) = src.
Proof.
  intros Hn Hfit. rewrite memcpy_at by assumption.
  assert (Hoff : length (take off w) = off) by (rewrite length_take; lia).
  rewrite <- Hoff at 1. rewrite drop_app_length.
  rewrite <- Hn. apply take_app_length.
Qed.

Lemma memcpy_read_below (w src : list Z) (off n off' n' : nat) :
  length src = n -> (off + n <= length w)%nat -> (off' + n' <= off)%nat ->
  take n' (drop off' (memcpy w off src n)) = take n' (drop off' w).
Proof.
  intros Hn Hfit Hlow. rewrite memcpy_at by assumption.
  rewrite !take_drop_commute.
  rewrite take_app_le by (rewrite length_take; lia).
  rewrite take_take. f_equal. f_equal. lia.
Qed.

Lemma length_memcpy (w src : list Z) (off n : nat) :
  length (memcpy w off src n) = length w.
Proof. unfold memcpy. apply length_inserts. Qed.

(** What one iteration of the loop of [build_udp_headers] writes. *)
Lemma build_udp_header_fields c k m :
  msglist c !! k = Some m ->
  let c' := build_udp_header c k in
  (msglist c' = msglist c
   \/ msglist c' = <[k := Msghdr (msg_iov m) (msg_iovlen m) 0 0]> (msglist c))
  /\ iov c' = <[msg_iov m := Iovec (PHdr (UDP_HEADER_SIZE * Z.of_nat k))
                                  UDP_HEADER_SIZE]> (iov c)
  /\ (exists off,
        hdrbuf c'
        = memcpy (hdrbuf c) (Z.to_nat (UDP_HEADER_SIZE * Z.of_nat k))
            (udp_header (request_id c) (Z.of_nat k) (Z.of_nat (msgused c)) off) 8)
  /\ iovused c' = iovused c /\ msgused c' = msgused c
  /\ request_id c' = request_id c.
Proof.
  intros Hm c'. subst c'. unfold build_udp_header.
  rewrite (list_lookup_total_correct _ _ _ Hm).
  destruct (negb (msg_flags m =? 0));
    cbn [msglist iov hdrbuf iovused msgused request_id
         set_iov set_msglist set_hdrbuf];
    split_and!; eauto.
Qed.

(** One iteration of the loop of [build_udp_headers] keeps its invariant. *)
Lemma build_udp_header_step c0 gs k c :
  Forall group_ok gs ->
  (8 * msgused c0 <= length (hdrbuf c0))%nat ->
  (k < msgused c0)%nat ->
  headers_built c0 gs k c ->
  headers_built c0 gs (S k) (build_udp_header c k).
Proof.
  intros Hok Hbuf Hk
    (Hmu & Hiu & Hrid & Hlh & Hli & (Hlen & Hcat & Hmsg) & Hhdr).
  rewrite length_stamp in Hlen.
  destruct (lookup_lt_is_Some_2 gs k) as [g Hg]; [lia|].
  assert (Hgk : stamp k gs !! k = Some g).
  { rewrite (stamp_lookup _ _ _ _ Hg). now rewrite bool_decide_eq_false_2 by lia. }
  destruct (proj1 (Forall_lookup _ _) Hok k g Hg) as (rest & -> & _ & _).
  destruct (Hmsg k _ Hgk) as (m & Hm & Hiov & Hil).
  destruct (build_udp_header_fields c k m Hm)
    as (Hml & Hiov' & (off & Hhb) & Hiu' & Hmu' & Hrid').
  cbv zeta in Hml, Hiov', Hhb, Hiu', Hmu', Hrid'.
  pose proof (stamp_S k gs _ Hg) as Hst. cbn [tail] in Hst.
  set (v := Iovec (PHdr (UDP_HEADER_SIZE * Z.of_nat k)) UDP_HEADER_SIZE) in *.
  assert (Hto : Z.to_nat (UDP_HEADER_SIZE * Z.of_nat k) = (8 * k)%nat)
    by (unfold UDP_HEADER_SIZE; lia).
  assert (Hpos : (length (concat (take k (stamp k gs))) < iovused c)%nat).
  { assert (Hle : (length (concat (stamp k gs)) <= iovused c)%nat).
    { rewrite Hcat, length_take. lia. }
    rewrite <- (take_drop_middle _ _ _ Hgk), concat_app, length_app in Hle.
    cbn [concat length] in Hle. rewrite length_app in Hle.
    cbn [length] in Hle. lia. }
  unfold headers_built. split_and!.
  - congruence.
  - congruence.
  - congruence.
  - now rewrite Hhb, length_memcpy.
  - now rewrite Hiov', length_insert.
  - rewrite Hst. split_and!.
    + rewrite length_insert, length_stamp. lia.
    + rewrite Hiu', Hiov', Hiov.
      rewrite <- (concat_insert_head _ k (Iovec PNull UDP_HEADER_SIZE) rest v Hgk).
      rewrite Hcat. now rewrite take_insert_lt by exact Hpos.
    + intros i gi Hgi.
      destruct (decide (i = k)) as [->|Hne].
      * rewrite list_lookup_insert_eq in Hgi
          by (now apply lookup_lt_Some in Hgk).
        injection Hgi as <-.
        rewrite (concat_take_insert_length _ k _ _ k Hgk) by reflexivity.
        destruct Hml as [E|E]; rewrite E.
        -- exists m. now split.
        -- eexists. split.
           ++ apply list_lookup_insert_eq. now apply lookup_lt_Some in Hm.
           ++ cbn [msg_iov msg_iovlen]. now split.
      * rewrite list_lookup_insert_ne in Hgi by done.
        destruct (Hmsg i gi Hgi) as (mi & Hmi & Hi1 & Hi2).
        exists mi. split.
        -- destruct Hml as [E|E]; rewrite E; [done|].
           now rewrite list_lookup_insert_ne by done.
        -- rewrite (concat_take_insert_length _ k _ _ i Hgk) by reflexivity.
           now split.
  - intros i Hi. rewrite Hhb, Hto.
    destruct (decide (i = k)) as [->|Hne].
    + exists off. rewrite Hrid, Hmu. apply memcpy_read; [reflexivity | lia].
    + destruct (Hhdr i) as (o & Ho); [lia|]. exists o.
      rewrite memcpy_read_below; [exact Ho | reflexivity | lia | lia].
Qed.

(** The loop of [build_udp_headers], by induction on the iterations done. *)
Lemma build_udp_header_loop c0 gs n :
  Forall group_ok gs ->
  (8 * msgused c0 <= length (hdrbuf c0))%nat ->
  laid_out c0 gs ->
  (n <= msgused c0)%nat ->
  headers_built c0 gs n (foldl build_udp_header c0 (seq 0 n)).
Proof.
  intros Hok Hbuf Hlay. induction n as [|n IH]; intros Hn.
  - cbn [seq foldl]. unfold headers_built. rewrite stamp_0.
    split_and!; try done. intros i Hi. lia.
  - rewrite seq_S, foldl_app. cbn [foldl Nat.add].
    apply build_udp_header_step; try assumption; try lia. apply IH. lia.
Qed.

(** [build_udp_headers], when it succeeds, is its loop run over every message
    of the reply, on a header buffer that has room for them. *)
Lemma build_udp_headers_built c gs c' :
  reply_layout c gs -> build_udp_headers c = (c', 0) ->
  exists c0, msgused c0 = msgused c /\ request_id c0 = request_id c
             /\ headers_built c0 gs (msgused c) c'.
Proof.
  intros (Hudp & Hmax & Hml & Hms & Hmu & Hil & Hiu & Hh & Hlo & Hok) Hb.
  unfold build_udp_headers in Hb.
  set (st := if bool_decide _ then _ else (c, true)) in Hb.
  assert (H1 : st.2 = true ->
               msgused st.1 = msgused c /\ request_id st.1 = request_id c
               /\ iovused st.1 = iovused c /\ iov st.1 = iov c
               /\ msglist st.1 = msglist c
               /\ (8 * msgused c <= length (hdrbuf st.1))%nat).
  { subst st. case_bool_decide as Hsmall.
    - unfold pool_take. destruct (pool c) as [|[|] rest]; cbn; try done.
      intros _. split_and!; try done.
      rewrite length_take, length_app, length_replicate.
      change (Z.to_nat UDP_HEADER_SIZE) with 8%nat. lia.
    - cbn. intros _. split_and!; try done. lia. }
  destruct st as [c0 grown]. cbn [fst snd] in H1.
  destruct grown; cbn [negb] in Hb; [|discriminate].
  injection Hb as <-.
  destruct (H1 eq_refl) as (E1 & E2 & E3 & E4 & E5 & E6).
  exists c0. split_and!; try done.
  rewrite <- E1. apply build_udp_header_loop; try done; try lia.
  eapply laid_out_ext; [exact Hlo|..]; try done.
  - now rewrite E4.
  - intros i _. now rewrite E5.
Qed.

(** Datagram [i] of a reply whose headers are built: its header bytes and
    its payload. *)
Lemma headers_built_datagram c0 gs c' i g :
  Forall group_ok gs -> headers_built c0 gs (msgused c0) c' ->
  gs !! i = Some g ->
  (exists off,
     datagram_header c' i
     = udp_header (request_id c0) (Z.of_nat i) (Z.of_nat (msgused c0)) off)
  /\ datagram_payload_len c' i = iov_bytes (tail g)
  /\ 0 <= iov_bytes (tail g) <= UDP_MAX_PAYLOAD_SIZE - UDP_HEADER_SIZE.
Proof.
  intros Hok (Hmu & Hiu & Hrid & Hlh & Hli & Hlay & Hhdr) Hg.
  assert (Hi : (i < msgused c0)%nat).
  { destruct Hlay as (Hlen & _). rewrite length_stamp in Hlen.
    apply lookup_lt_Some in Hg. lia. }
  pose proof (stamp_lookup (msgused c0) gs i g Hg) as Hs.
  rewrite bool_decide_eq_true_2 in Hs by exact Hi.
  pose proof (laid_out_msg_iovs _ _ _ _ Hlay Hs) as Hiovs.
  destruct (proj1 (Forall_lookup _ _) Hok i g Hg) as (rest & -> & Hpos & Hsum).
  cbn [tail] in *.
  split_and!.
  - destruct (Hhdr i Hi) as (off & Hoff). exists off.
    unfold datagram_header. rewrite Hiovs.
    replace (Z.to_nat (UDP_HEADER_SIZE * Z.of_nat i)) with (8 * i)%nat
      by (unfold UDP_HEADER_SIZE; lia).
    exact Hoff.
  - unfold datagram_payload_len. now rewrite Hiovs.
  - clear -Hpos. induction Hpos as [|v l Hv _ IH]; cbn [iov_bytes foldr]; [lia|].
    unfold iov_bytes in IH. lia.
  - cbn [iov_bytes foldr iov_len] in Hsum. unfold iov_bytes.
    unfold UDP_MAX_PAYLOAD_SIZE, UDP_HEADER_SIZE in *. lia.
Qed.

(** Two bytes stored as [x / 256] and [x % 256] hold [x] modulo 65536,
    and a two-byte value is stored as its own two bytes. *)
Lemma be16_uchar x :
  0 <= x ->
  be16 (to_uchar (Z.quot x 256)) (to_uchar (Z.rem x 256)) = x mod 65536.
Proof.
  intros Hx. unfold be16, to_uchar.
  rewrite Z.quot_div_nonneg, Z.rem_mod_nonneg by lia.
  rewrite Z.mod_mod by lia.
  change 65536 with (256 * 256). rewrite Z.rem_mul_r by lia. lia.
Qed.

Lemma be16_bytes b0 b1 :
  is_byte b0 -> is_byte b1 ->
  to_uchar (Z.quot (be16 b0 b1) 256) = b0
  /\ to_uchar (Z.rem (be16 b0 b1) 256) = b1.
Proof.
  unfold is_byte, be16, to_uchar. intros H0 H1.
  rewrite Z.quot_div_nonneg, Z.rem_mod_nonneg by lia.
  rewrite Z.div_add_l, Z.div_small, Z.add_0_r by lia.
  rewrite Z.add_comm, Z.mod_add by lia.
  split; [|rewrite Z.mod_mod by lia]; apply Z.mod_small; lia.
Qed.

Lemma udp_header_bytes rid i total off :
  Forall is_byte (udp_header rid i total off).
Proof.
  unfold udp_header.
  repeat (constructor; [apply to_uchar_range|]). constructor.
Qed.

(** C6.  A UDP reply is built by [add_msghdr] on a connection whose message
    and iovec lists are empty, then any number of [add_iov] calls, then
    [build_udp_headers]; take one that [build_udp_headers] completes (it
    fails only when the header buffer cannot be grown).  The request id of
    the connection being the two bytes [b0], [b1] of the request read
    big-endian, every message [i] of the reply is sent as a datagram that
    starts with an 8-byte header taken from the header buffer: bytes 0 and 1
    are [b0] and [b1]; bytes 2-3, big-endian, are [i], the position of the
    message in the message list, which is the order of transmission; bytes
    4-5 are the number of messages of the reply (both as two bytes hold
    them, that is modulo 65536); bytes 6-7 are left to the fourth field.
    The header and the bytes after it are at most [UDP_MAX_PAYLOAD_SIZE]
    together, so the bytes after the header are at most 1400. *)
Theorem udp_datagram_framing (c c' : conn) (b0 b1 : Z) (i : nat)
    (Hbuilt : building c)
    (Hb0 : is_byte b0) (Hb1 : is_byte b1)
    (Hid : request_id c = be16 b0 b1)
    (Hhdrs : build_udp_headers c = (c', 0))
    (Hi : (i < msgused c')%nat) :
  let hdr := datagram_header c' i in
  msgused c' = msgused c
  /\ length hdr = 8%nat /\ Forall is_byte hdr
  /\ hdr !! 0%nat = Some b0 /\ hdr !! 1%nat = Some b1
  /\ be16 (hdr !!! 2%nat) (hdr !!! 3%nat) = Z.of_nat i mod 65536
  /\ be16 (hdr !!! 4%nat) (hdr !!! 5%nat) = Z.of_nat (msgused c') mod 65536
  /\ 0 <= datagram_payload_len c' i
  /\ UDP_HEADER_SIZE + datagram_payload_len c' i <= UDP_MAX_PAYLOAD_SIZE
  /\ datagram_payload_len c' i <= 1400.
Proof.
  intros hdr.
  destruct (building_udp_reply c Hbuilt) as (gs & Hlay & _ & _).
  destruct (build_udp_headers_built c gs c' Hlay Hhdrs)
    as (c0 & Emu & Erid & Hb).
  pose proof Hlay as (_ & _ & _ & _ & _ & _ & _ & _ & (Hlen & _) & Hok).
  rewrite <- Emu in Hb.
  assert (Emu' : msgused c' = msgused c0) by apply Hb.
  destruct (lookup_lt_is_Some_2 gs i) as [g Hg]; [lia|].
  destruct (headers_built_datagram c0 gs c' i g Hok Hb Hg)
    as ((off & Hhdr) & Hpay & Hpos & Hfit).
  subst hdr. rewrite Hhdr, Hpay, Erid, Hid.
  destruct (be16_bytes b0 b1 Hb0 Hb1) as (E0 & E1).
  unfold UDP_MAX_PAYLOAD_SIZE, UDP_HEADER_SIZE in *.
  split_and!; try lia.
  - reflexivity.
  - apply udp_header_bytes.
  - cbn. now rewrite E0.
  - cbn. now rewrite E1.
  - cbn. apply be16_uchar. lia.
  - cbn. rewrite Emu'. apply be16_uchar. lia.
Qed.

End UdpFacts.

(** The body of [set k 0 0 1] followed by CR LF is stored; followed by two
    other bytes it is refused and the index still holds the old item. *)
Lemma complete_nread_checks_crlf_witness :
  let L := Connection.linux_limits in
  let good := Connection.complete_nread (Connection.nread_conn [13; 10])
                Store.pending_cache in
  let bad := Connection.complete_nread (Connection.nread_conn [120; 121])
               Store.pending_cache in
  Connection.pending_reply good.1 = Connection.reply_line "STORED"
  /\ Connection.pending_reply bad.1
     = Connection.reply_line "CLIENT_ERROR bad data chunk"
  /\ Store.assoc bad.2 = Store.assoc Store.pending_cache.
Proof.
  intros L good bad.
  assert (Hok : forall crlf, Connection.wbuf_ok (Connection.nread_conn crlf)).
  { intros crlf. split; [reflexivity | vm_compute; discriminate]. }
  pose proof (complete_nread_checks_crlf (Connection.nread_conn [13; 10])
                Store.pending_cache 1%nat eq_refl eq_refl (Hok _)) as Hg.
  pose proof (complete_nread_checks_crlf (Connection.nread_conn [120; 121])
                Store.pending_cache 1%nat eq_refl eq_refl (Hok _)) as Hb.
  cbv zeta in Hg, Hb.
  destruct Hg as (_ & _ & Hg & _). destruct Hb as (_ & Hb & _).
  destruct (Hg eq_refl) as (Hg1 & _).
  destruct (Hb ltac:(discriminate)) as (Hb1 & _ & Hb2 & _).
  split; [exact Hg1|]. split; [exact Hb1 | exact Hb2].
Defined.

(** A hard [sendmsg] failure on a UDP and on a TCP connection. *)
Lemma transmit_hard_failure_state_witness :
  let L := Connection.linux_limits in
  Connection.state
    (Connection.transmit (Connection.IoOutcome (-1) Connection.EOTHER) true
       (Connection.sending_conn true)).1 = Connection.conn_read
  /\ Connection.state
       (Connection.transmit (Connection.IoOutcome 0 Connection.EOTHER) true
          (Connection.sending_conn false)).1 = Connection.conn_closing.
Proof.
  intros L. split.
  - pose proof (transmit_hard_failure_state
                  (Connection.IoOutcome (-1) Connection.EOTHER) true
                  (Connection.sending_conn true) Store.pending_cache
                  eq_refl eq_refl) as H.
    cbv zeta in H. destruct H as (_ & _ & H & _).
    exact (proj1 (H eq_refl eq_refl)).
  - pose proof (transmit_hard_failure_state
                  (Connection.IoOutcome 0 Connection.EOTHER) true
                  (Connection.sending_conn false) Store.pending_cache
                  eq_refl eq_refl) as H.
    cbv zeta in H. destruct H as (_ & _ & _ & H).
    exact (H eq_refl).
Defined.




(** [out_string] on a fresh connection: a short reply. *)
Lemma out_string_line_fits_witness :
  let L := Connection.linux_limits in
  Connection.pending_reply (Connection.out_string "STORED" Connection.tcp_conn)
  = Bytes.bytes_of_string "STORED" ++ Bytes.CRLF
  /\ Connection.state (Connection.out_string "STORED" Connection.tcp_conn)
     = Connection.conn_write.
Proof.
  intros L.
  pose proof (out_string_line_fits "STORED" Connection.tcp_conn
                ltac:(reflexivity) ltac:(vm_compute; discriminate)) as H.
  cbv zeta in H. destruct H as (H1 & _ & _ & _ & _ & H2 & _).
  split; [exact H1 | exact H2].
Defined.

(** A reply of 2000 bytes to request 0x1234 on a fresh UDP connection: two
    datagrams, of 1392 and 608 bytes after their headers. *)
Lemma udp_datagram_framing_witness :
  let L := Connection.linux_limits in
  let c0 := Connection.set_request_id 4660 Connection.udp_conn in
  let c1 := match Connection.add_msghdr c0 with
            | Some (x, _) => x | None => c0 end in
  let c2 := match Connection.add_iov (Connection.PWbuf 0) 2000 false c1 with
            | Some (x, _) => x | None => c1 end in
  let c3 := (Connection.build_udp_headers c2).1 in
  let hdr := Connection.datagram_header c3 1 in
  Connection.building c2
  /\ Connection.build_udp_headers c2 = (c3, 0)
  /\ Connection.msgused c3 = 2%nat
  /\ hdr !! 0%nat = Some 18 /\ hdr !! 1%nat = Some 52
  /\ Connection.be16 (hdr !!! 2%nat) (hdr !!! 3%nat) = 1
  /\ Connection.be16 (hdr !!! 4%nat) (hdr !!! 5%nat) = 2
  /\ Connection.datagram_payload_len c3 0 = 1392
  /\ Connection.datagram_payload_len c3 1 <= 1400.
Proof.
  intros L c0 c1 c2 c3 hdr.
  assert (Hs : Connection.reply_start c0).
  { unfold Connection.reply_start. split_and!; try reflexivity; cbn; lia. }
  assert (H1 : Connection.add_msghdr c0 = Some (c1, 0))
    by (vm_compute; reflexivity).
  assert (H2 : Connection.add_iov (Connection.PWbuf 0) 2000 false c1
               = Some (c2, 0))
    by (vm_compute; reflexivity).
  assert (Hb : Connection.building c2).
  { eapply Connection.building_more;
      [eapply Connection.building_first; [exact Hs | exact H1] | | exact H2].
    lia. }
  assert (H3 : Connection.build_udp_headers c2 = (c3, 0))
    by (vm_compute; reflexivity).
  assert (Hi : (1 < Connection.msgused c3)%nat) by (vm_compute; lia).
  assert (Hb0 : Connection.is_byte 18) by (unfold Connection.is_byte; lia).
  assert (Hb1 : Connection.is_byte 52) by (unfold Connection.is_byte; lia).
  assert (Hid : Connection.request_id c2 = Connection.be16 18 52)
    by (vm_compute; reflexivity).
  pose proof (udp_datagram_framing c2 c3 18 52 1 Hb Hb0 Hb1 Hid H3 Hi) as H.
  cbv zeta in H.
  destruct H as (_ & _ & _ & E0 & E1 & E2 & E3 & _ & _ & E4).
  split_and!.
  - exact Hb.
  - exact H3.
  - vm_compute; reflexivity.
  - exact E0.
  - exact E1.
  - exact E2.
  - etransitivity; [exact E3|]. vm_compute; reflexivity.
  - vm_compute; reflexivity.
  - exact E4.
Defined.

(** ** The command tokenizer *)

Section TokenFacts.
Import Tokens.

Lemma drop_cons_inv (l : list Z) e ch rest :
  ch :: rest = drop e l -> l !! e = Some ch /\ rest = drop (e + 1) l.
Proof.
  intros H. split.
  - rewrite <- (Nat.add_0_r e), <- lookup_drop, <- H. reflexivity.
  - rewrite <- drop_drop, <- H. reflexivity.
Qed.

Lemma drop_nil_inv (l : list Z) e : [] = drop e l -> (length l <= e)%nat.
Proof.
  intros H. apply (f_equal length) in H. rewrite length_drop in H.
  cbn in H. lia.
Qed.

(** The run being read, from [s] to [e]. *)
Lemma run_empty (l : list Z) s : take (s - s) (drop s l) = [].
Proof. now rewrite Nat.sub_diag. Qed.

Lemma run_nonempty (l : list Z) s e :
  (s < e)%nat -> (e <= length l)%nat ->
  exists a r, take (e - s) (drop s l) = a :: r.
Proof.
  intros Hlt Hle.
  destruct (take (e - s) (drop s l)) as [|a r] eqn:E; [|eauto].
  apply (f_equal length) in E. rewrite length_take, length_drop in E.
  cbn in E. lia.
Qed.

Lemma run_snoc (l : list Z) s e ch :
  (s <= e)%nat -> l !! e = Some ch ->
  take (e + 1 - s) (drop s l) = take (e - s) (drop s l) ++ [ch].
Proof.
  intros Hle Hch. replace (e + 1 - s)%nat with (S (e - s)) by lia.
  erewrite take_S_r; [reflexivity|].
  rewrite lookup_drop. now replace (s + (e - s))%nat with e by lia.
Qed.

Lemma words_nul_or_end (l : list Z) :
  char_at l 0 = 0 -> words l = [].
Proof.
  unfold char_at, words. destruct l as [|ch l]; [reflexivity|].
  cbn. intros ->. reflexivity.
Qed.

(** The loop of [tokenize_command] splits off words: the tokens written,
    then the words of what is left from [e] on, are the tokens there were,
    then the words of the run being read and of what [e] had to read. *)
Lemma scan_words command max rest : forall s e cmd toks,
  rest = drop e command -> (s <= e)%nat -> (e <= length command)%nat ->
  ((length toks < max - 1)%nat \/ s = e) ->
  (length toks <= max - 1)%nat ->
  (token_text command <$> (scan rest s e max cmd toks).1.2)
    ++ words (drop (scan rest s e max cmd toks).2 command)
  = (token_text command <$> toks)
    ++ words_from (take (e - s) (drop s command)) rest
  /\ length (scan rest s e max cmd toks).1.2
     = Nat.min (length toks
                + length (words_from (take (e - s) (drop s command)) rest))
               (max - 1)
  /\ (e <= (scan rest s e max cmd toks).2)%nat.
Proof.
  induction rest as [|ch rest IH]; intros s e cmd toks Hrest Hse Hlen Hroom Hcnt.
  - (* the end of the array *)
    apply drop_nil_inv in Hrest.
    cbn [scan]. case_bool_decide as Hlt.
    + case_bool_decide as Hne; cbn [fst snd].
      * destruct (run_nonempty command s e) as (a & r & E); [lia..|].
        rewrite E. cbn [words_from].
        rewrite fmap_app, length_app. cbn [fmap list_fmap length].
        unfold token_text at 2. cbn [tk_value tk_length]. rewrite E.
        rewrite drop_ge by lia.
        cbn [length]; split_and!; [now rewrite <- app_assoc | lia | lia].
      * assert (s = e) as -> by (destruct (decide (s = e)); [done|contradiction]).
        rewrite run_empty. cbn [words_from].
        rewrite drop_ge by lia. cbn [length]; split_and!; [reflexivity | lia | lia].
    + cbn [fst snd]. destruct Hroom as [Hroom| ->]; [lia|].
      rewrite run_empty. cbn [words_from]. rewrite drop_ge by lia.
      cbn [length]; split_and!; [reflexivity | lia | lia].
  - destruct (drop_cons_inv _ _ _ _ Hrest) as (Hch & Hrest').
    assert (He : (e < length command)%nat) by (now apply lookup_lt_Some in Hch).
    cbn [scan]. case_bool_decide as Hlt.
    + destruct (ch =? 32) eqn:Hsp.
      * (* a space *)
        cbn [words_from]. rewrite Hsp.
        case_bool_decide as Hne.
        -- destruct (run_nonempty command s e) as (a & r & E); [lia..|].
           destruct (IH (e + 1)%nat (e + 1)%nat (<[e:=0]> cmd)
                       (toks ++ [Token (Some s) (e - s)]) Hrest')
             as (H1 & H2 & H3); [lia | lia | now right | |].
           { rewrite length_app. cbn [length]. lia. }
           rewrite run_empty in H1, H2. rewrite H1, H2, E.
           rewrite fmap_app, length_app. cbn [fmap list_fmap length].
           unfold token_text at 2. cbn [tk_value tk_length]. rewrite E.
           cbn [length]; split_and!; [now rewrite <- app_assoc | lia | lia].
        -- assert (s = e) as -> by (destruct (decide (s = e)); [done|contradiction]).
           destruct (IH (e + 1)%nat (e + 1)%nat cmd toks Hrest')
             as (H1 & H2 & H3); [lia | lia | now right | lia |].
           rewrite run_empty in H1, H2. rewrite H1, H2, run_empty.
           cbn [length]; split_and!; [reflexivity | lia | lia].
      * destruct (ch =? 0) eqn:Hz.
        -- (* the NUL *)
           cbn [words_from]. rewrite Hsp, Hz. cbn [fst snd].
           assert (Hw : words (drop e command) = []).
           { rewrite <- Hrest. unfold words. cbn [words_from].
             now rewrite Hsp, Hz. }
           rewrite Hw.
           case_bool_decide as Hne.
           ++ destruct (run_nonempty command s e) as (a & r & E); [lia..|].
              rewrite E, fmap_app, length_app. cbn [fmap list_fmap length].
              unfold token_text at 2. cbn [tk_value tk_length]. rewrite E.
              cbn [length]; split_and!; [now rewrite <- app_assoc | lia | lia].
           ++ assert (s = e) as -> by (destruct (decide (s = e)); [done|contradiction]).
              rewrite run_empty. cbn [length]; split_and!; [reflexivity | lia | lia].
        -- (* a byte of a word *)
           cbn [words_from]. rewrite Hsp, Hz.
           destruct (IH s (e + 1)%nat cmd toks Hrest')
             as (H1 & H2 & H3); [lia | lia | now left | lia |].
           rewrite (run_snoc command s e ch) in H1, H2 by (lia || done).
           rewrite H1, H2. cbn [length]; split_and!; [reflexivity | lia | lia].
    + (* the array of tokens is full *)
      cbn [fst snd]. destruct Hroom as [Hroom| ->]; [lia|].
      rewrite run_empty, <- Hrest. fold (words (ch :: rest)).
      cbn [length]; split_and!; [reflexivity | lia | lia].
Qed.

Lemma token_ok_stable command cmd cmd' e t :
  token_ok command cmd t -> token_before e t ->
  (forall i, (i < e)%nat -> cmd' !! i = cmd !! i) ->
  token_ok command cmd' t.
Proof.
  intros (p & Hv & Hpos & Hin & Htake & Hrun & Hnul) (p' & Hv' & Hbefore) Hsame.
  assert (p' = p) as -> by congruence.
  exists p. split_and!; try done.
  - rewrite <- Htake. apply list_eq. intros i.
    destruct (decide (i < tk_length t)%nat).
    + rewrite !lookup_take_lt, !lookup_drop by lia. apply Hsame. lia.
    + now rewrite !lookup_take_ge by lia.
  - unfold char_at in *. rewrite Hsame by lia. exact Hnul.
Qed.

(** The loop of [tokenize_command] writes NULs over spaces it has read,
    behind the word it is reading, and every token it fills ends at one. *)
Lemma scan_buffer command max rest : forall s e cmd toks,
  rest = drop e command -> (s <= e)%nat -> (e <= length command)%nat ->
  length cmd = length command ->
  (forall i, (s <= i)%nat -> cmd !! i = command !! i) ->
  Forall (fun b => b <> 32 /\ b <> 0) (take (e - s) (drop s command)) ->
  Forall (fun t => token_ok command cmd t /\ token_before s t) toks ->
  length (scan rest s e max cmd toks).1.1 = length command
  /\ (forall i, ((scan rest s e max cmd toks).2 <= i)%nat ->
        (scan rest s e max cmd toks).1.1 !! i = command !! i)
  /\ Forall (token_ok command (scan rest s e max cmd toks).1.1)
       (scan rest s e max cmd toks).1.2.
Proof.
  induction rest as [|ch rest IH];
    intros s e cmd toks Hrest Hse Hlen Hsize Hsame Hrun Htoks.
  - apply drop_nil_inv in Hrest. cbn [scan].
    assert (Hold : Forall (token_ok command cmd) toks).
    { eapply Forall_impl; [exact Htoks|]. now intros t (H & _). }
    case_bool_decide as Hlt; [case_bool_decide as Hne|]; cbn [fst snd];
      split_and!; try done; try (intros i Hi; apply Hsame; lia).
    apply Forall_app. split; [exact Hold|]. apply Forall_singleton.
    exists s. cbn [tk_value tk_length]. split_and!; try done; try lia.
    + apply list_eq. intros i.
      destruct (decide (i < e - s)%nat).
      * rewrite !lookup_take_lt, !lookup_drop by lia. apply Hsame. lia.
      * now rewrite !lookup_take_ge by lia.
    + unfold char_at. rewrite lookup_ge_None_2; [done|lia].
  - destruct (drop_cons_inv _ _ _ _ Hrest) as (Hch & Hrest').
    assert (He : (e < length command)%nat) by (now apply lookup_lt_Some in Hch).
    assert (Hold : Forall (token_ok command cmd) toks).
    { eapply Forall_impl; [exact Htoks|]. now intros t (H & _). }
    assert (Hnew : forall cmd1,
               s <> e ->
               (forall i, (s <= i < e)%nat -> cmd1 !! i = command !! i) ->
               char_at cmd1 e = 0 ->
               token_ok command cmd1 (Token (Some s) (e - s))).
    { intros cmd1 Hne H1 H2. exists s. cbn [tk_value tk_length].
      split_and!; try done; try lia.
      - apply list_eq. intros i.
        destruct (decide (i < e - s)%nat).
        + rewrite !lookup_take_lt, !lookup_drop by lia. apply H1. lia.
        + now rewrite !lookup_take_ge by lia.
      - now replace (s + (e - s))%nat with e by lia. }
    cbn [scan]. case_bool_decide as Hlt.
    + destruct (ch =? 32) eqn:Hsp.
      * (* a space *)
        case_bool_decide as Hne.
        -- apply IH; try (exact Hrest' || lia).
           ++ now rewrite length_insert.
           ++ intros i Hi. rewrite list_lookup_insert_ne by lia.
              apply Hsame. lia.
           ++ rewrite run_empty. constructor.
           ++ apply Forall_app. split.
              ** eapply Forall_impl; [exact Htoks|].
                 intros t (Hok & Hbefore). split.
                 --- eapply token_ok_stable; [exact Hok | exact Hbefore |].
                     intros i Hi. apply list_lookup_insert_ne. lia.
                 --- destruct Hbefore as (p & Hp & Hlt'). exists p.
                     split; [done | lia].
              ** apply Forall_singleton. split.
                 --- apply Hnew; [done | |].
                     +++ intros i Hi. rewrite list_lookup_insert_ne by lia.
                         apply Hsame. lia.
                     +++ unfold char_at.
                         rewrite list_lookup_insert_eq by lia. reflexivity.
                 --- exists s. cbn [tk_value tk_length]. split; [done | lia].
        -- apply IH; try (exact Hrest' || lia || exact Hsize).
           ++ intros i Hi. apply Hsame. lia.
           ++ rewrite run_empty. constructor.
           ++ eapply Forall_impl; [exact Htoks|].
              intros t (Hok & (p & Hp & Hlt')). split; [exact Hok|].
              exists p. split; [done | lia].
      * destruct (ch =? 0) eqn:Hz.
        -- (* the NUL *)
           case_bool_decide as Hne; cbn [fst snd];
             split_and!; try done; try (intros i Hi; apply Hsame; lia).
           apply Forall_app. split; [exact Hold|]. apply Forall_singleton.
           apply Hnew; [done | intros i Hi; apply Hsame; lia |].
           unfold char_at. rewrite Hsame, Hch by lia. cbn. lia.
        -- (* a byte of a word *)
           apply IH; try (exact Hrest' || lia || exact Hsize || exact Hsame
                          || exact Htoks).
           rewrite (run_snoc command s e ch) by (lia || done).
           apply Forall_app. split; [exact Hrun|]. apply Forall_singleton.
           split; lia.
    + cbn [fst snd]. split_and!; try done. intros i Hi. apply Hsame. lia.
Qed.

Lemma take_min_length {A} (l : list A) n :
  take (Nat.min (length l) n) l = take n l.
Proof.
  destruct (decide (length l <= n)%nat).
  - rewrite Nat.min_l by lia. now rewrite !take_ge by lia.
  - now rewrite Nat.min_r by lia.
Qed.

Lemma drop_min_length {A} (l : list A) n :
  drop (Nat.min (length l) n) l = drop n l.
Proof.
  destruct (decide (length l <= n)%nat).
  - rewrite Nat.min_l by lia. now rewrite !drop_ge by lia.
  - now rewrite Nat.min_r by lia.
Qed.

Lemma token_text_terminal command v : token_text command (Token v 0) = [].
Proof. unfold token_text. now destruct v. Qed.

(** What [tokenize_command] returns, in terms of its loop. *)
Lemma tokenize_command_scan command max :
  tokenize_command command max
  = ((scan command 0 0 max command []).1.1,
     (scan command 0 0 max command []).1.2
     ++ [Token (if char_at (scan command 0 0 max command []).1.1
                           (scan command 0 0 max command []).2 =? 0
                then None else Some (scan command 0 0 max command []).2) 0]).
Proof.
  unfold tokenize_command.
  now destruct (scan command 0 0 max command []) as [[cmd toks] e].
Qed.

(** X1.  [tokenize_command], called with room for more than one token,
    fills at most [max_tokens] tokens: the first [max_tokens - 1] words of
    the command (its maximal runs of bytes other than space, up to the NUL)
    in order, then the terminal token of length 0.  The words of the command
    that are not among the tokens are the words of the string the terminal
    token points at; there are none when it is NULL. *)
Theorem tokenize_command_words (command : list Z) (max_tokens : nat)
    (Hmax : (1 < max_tokens)%nat) :
  let tokens := (tokenize_command command max_tokens).2 in
  (length tokens <= max_tokens)%nat
  /\ token_text command <$> tokens
     = take (max_tokens - 1) (words command) ++ [[]]
  /\ words (unprocessed command tokens)
     = drop (max_tokens - 1) (words command).
Proof.
  intros tokens. subst tokens. rewrite tokenize_command_scan. cbn [snd].
  destruct (scan_words command max_tokens command 0 0 command [])
    as (H1 & H2 & _); [reflexivity | lia | lia | left; cbn; lia | cbn; lia |].
  destruct (scan_buffer command max_tokens command 0 0 command [])
    as (_ & H3 & _); [reflexivity | lia | lia | reflexivity | done
                      | constructor | constructor |].
  set (r := scan command 0 0 max_tokens command []) in *.
  cbn [fmap list_fmap app length Nat.add] in H1, H2.
  change (take (0 - 0) (drop 0 command)) with (@nil Z) in H1, H2.
  fold (words command) in H1, H2.
  assert (Htexts : token_text command <$> r.1.2
                   = take (max_tokens - 1) (words command)).
  { rewrite <- (take_min_length (words command)), <- H2, <- H1.
    rewrite <- (length_fmap (token_text command)).
    now rewrite take_app_length. }
  assert (Hrest : words (drop r.2 command)
                  = drop (max_tokens - 1) (words command)).
  { rewrite <- (drop_min_length (words command)), <- H2, <- H1.
    rewrite <- (length_fmap (token_text command)).
    now rewrite drop_app_length. }
  split_and!.
  - rewrite length_app, H2. cbn [length]. lia.
  - rewrite fmap_app, Htexts. cbn [fmap list_fmap].
    now rewrite token_text_terminal.
  - unfold unprocessed. rewrite last_snoc.
    destruct (char_at r.1.1 r.2 =? 0) eqn:Hnul; [|exact Hrest].
    rewrite <- Hrest. symmetry. apply words_nul_or_end.
    unfold char_at in *. rewrite lookup_drop, Nat.add_0_r.
    rewrite <- H3 by lia. lia.
Qed.

Lemma cstring_app (w rest : list Z) :
  Forall (fun b => b <> 32 /\ b <> 0) w -> char_at rest 0 = 0 ->
  cstring (w ++ rest) = w.
Proof.
  intros Hw Hrest. induction Hw as [|b w (_ & Hb) _ IH]; cbn [app cstring].
  - destruct rest as [|c rest]; [reflexivity|].
    unfold char_at in Hrest. cbn in Hrest. subst c. reflexivity.
  - destruct (b =? 0) eqn:E; [lia|]. now rewrite IH.
Qed.

(** X2.  [tokenize_command] leaves every token but the terminal one as a
    C string of its own: the token is not empty and holds no space, and in
    the command as the call leaves it the bytes from the token's value up to
    the next NUL are the token's bytes.  The length of the command is
    unchanged, and the string a terminal token points at is as it was. *)
Theorem tokenize_command_tokens_are_strings (command : list Z)
    (max_tokens i : nat) (t : token_t)
    (Hi : (tokenize_command command max_tokens).2 !! i = Some t)
    (Hlast : (S i < length (tokenize_command command max_tokens).2)%nat) :
  let cmd := (tokenize_command command max_tokens).1 in
  length cmd = length command
  /\ (exists p, tk_value t = Some p
        /\ cstring (drop p cmd) = token_text command t)
  /\ length (token_text command t) = tk_length t
  /\ (0 < tk_length t)%nat
  /\ Forall (fun b => b <> 32) (token_text command t)
  /\ forall p, tk_value <$> last (tokenize_command command max_tokens).2
               = Some (Some p) ->
       drop p cmd = drop p command.
Proof.
  intros cmd. subst cmd. revert Hi Hlast.
  rewrite tokenize_command_scan. cbn [fst snd].
  destruct (scan_buffer command max_tokens command 0 0 command [])
    as (H1 & H2 & H3); [reflexivity | lia | lia | reflexivity | done
                        | constructor | constructor |].
  set (r := scan command 0 0 max_tokens command []) in *.
  rewrite length_app. cbn [length]. intros Hi Hlast.
  rewrite lookup_app_l in Hi by lia.
  destruct (proj1 (Forall_lookup _ _) H3 i t Hi)
    as (p & Hv & Hpos & Hin & Htake & Hrun & Hnul).
  assert (Htext : token_text command t = take (tk_length t) (drop p command)).
  { unfold token_text. now rewrite Hv. }
  split_and!.
  - exact H1.
  - exists p. split; [exact Hv|]. rewrite Htext, <- Htake.
    rewrite <- (take_drop (tk_length t) (drop p r.1.1)) at 1.
    apply cstring_app.
    + now rewrite Htake.
    + unfold char_at in *. now rewrite drop_drop, lookup_drop, Nat.add_0_r.
  - rewrite Htext, length_take, length_drop. lia.
  - exact Hpos.
  - rewrite Htext. eapply Forall_impl; [exact Hrun|]. now intros b (Hb & _).
  - intros q. rewrite last_snoc. cbn [fmap option_fmap option_map tk_value].
    destruct (char_at r.1.1 r.2 =? 0); intros Hq; simplify_eq.
    apply list_eq. intros j. rewrite !lookup_drop. apply H2. lia.
Qed.

Lemma count_from_tokenized cmd (l : list token_t) v : forall c,
  Forall (fun t => (0 < tk_length t)%nat) l ->
  count_from cmd (l ++ [Token v 0]) c
  = (c + length l
     + match v with Some p => count_spaces (drop p cmd) | None => 0 end)%nat.
Proof.
  induction l as [|t l IH]; intros c Hl; cbn [app count_from length].
  - cbn [tk_length tk_value]. rewrite bool_decide_eq_false_2 by (intros H; now apply H).
    destruct v; lia.
  - apply Forall_cons in Hl as (Ht & Hl).
    rewrite bool_decide_eq_true_2 by lia. rewrite IH by exact Hl. lia.
Qed.

Lemma words_from_count cur l :
  (length (words_from cur l) <= count_spaces l + 1)%nat.
Proof.
  revert cur. induction l as [|ch l IH]; intros cur; cbn [words_from count_spaces].
  - destruct cur; cbn; lia.
  - destruct (ch =? 32) eqn:Hsp.
    + assert ((ch =? 0) = false) as -> by lia.
      specialize (IH []). destruct cur; cbn [length]; lia.
    + destruct (ch =? 0); [destruct cur; cbn; lia|].
      specialize (IH (cur ++ [ch])). lia.
Qed.

(** X3.  [count_total_tokens] on the tokens of a command that has a
    first word counts the tokens after the first, and one for every space of
    the string the terminal token points at.  When the command was tokenized
    to its end that is the number of words after the first (the keys of a
    get).  When it was not, the count can be one short of that number, and
    never more than one. *)
Theorem count_total_tokens_bound (command : list Z) (max_tokens : nat)
    (Hmax : (1 < max_tokens)%nat) (Hcmd : words command <> []) :
  let r := tokenize_command command max_tokens in
  let count := count_total_tokens r.1 r.2 in
  let keys := (length (words command) - 1)%nat in
  (keys <= count + 1)%nat
  /\ (tk_value <$> last r.2 = Some None -> count = keys)
  /\ (forall p, tk_value <$> last r.2 = Some (Some p) ->
        count = (Nat.min (length (words command)) (max_tokens - 1) - 1
                 + count_spaces (drop p command))%nat).
Proof.
  intros r count keys. subst r count keys.
  rewrite tokenize_command_scan. cbn [fst snd].
  destruct (scan_words command max_tokens command 0 0 command [])
    as (H1 & H2 & _); [reflexivity | lia | lia | left; cbn; lia | cbn; lia |].
  destruct (scan_buffer command max_tokens command 0 0 command [])
    as (_ & H3 & H4); [reflexivity | lia | lia | reflexivity | done
                       | constructor | constructor |].
  set (r := scan command 0 0 max_tokens command []) in *.
  cbn [fmap list_fmap app length Nat.add] in H1, H2.
  change (take (0 - 0) (drop 0 command)) with (@nil Z) in H1, H2.
  fold (words command) in H1, H2.
  assert (HW : (0 < length (words command))%nat).
  { destruct (words command); [done | cbn; lia]. }
  destruct r.1.2 as [|t0 tk] eqn:Etoks; [cbn in H2; lia|].
  assert (Hpos : Forall (fun t => (0 < tk_length t)%nat) tk).
  { apply Forall_cons in H4 as (_ & H4).
    eapply Forall_impl; [exact H4|]. now intros t (p & _ & Hp & _). }
  assert (Hsum : length (words command)
                 = (S (length tk) + length (words (drop r.2 command)))%nat).
  { rewrite <- H1 at 1. rewrite length_app, length_fmap. reflexivity. }
  assert (Hdrop : drop r.2 r.1.1 = drop r.2 command).
  { apply list_eq. intros j. rewrite !lookup_drop. apply H3. lia. }
  unfold count_total_tokens, KEY_TOKEN. rewrite last_snoc.
  cbn [app drop]. rewrite drop_0.
  rewrite count_from_tokenized by exact Hpos.
  cbn [fmap option_fmap option_map tk_value].
  cbn [length] in H2.
  destruct (char_at r.1.1 r.2 =? 0) eqn:Hnul.
  - assert (Hnone : words (drop r.2 command) = []).
    { apply words_nul_or_end. unfold char_at in *.
      rewrite lookup_drop, Nat.add_0_r. rewrite <- H3 by lia. lia. }
    rewrite Hnone in Hsum. cbn [length] in Hsum.
    split_and!; [lia | intros _; lia | intros p Hp; simplify_eq].
  - rewrite Hdrop.
    pose proof (words_from_count [] (drop r.2 command)) as Hb.
    fold (words (drop r.2 command)) in Hb.
    split_and!; [lia | intros Hn; simplify_eq |].
    intros p Hp. simplify_eq. lia.
Qed.

End TokenFacts.

(** [get a b c d e] with room for six tokens: five words are tokenized and
    the terminal token points at [e]. *)
Lemma tokenize_command_words_witness :
  let tokens := (Tokens.tokenize_command Tokens.get_five Tokens.MAX_TOKENS).2 in
  (length tokens <= Tokens.MAX_TOKENS)%nat
  /\ Tokens.token_text Tokens.get_five <$> tokens
     = [[103; 101; 116]; [97]; [98]; [99]; [100]; []]
  /\ Tokens.words (Tokens.unprocessed Tokens.get_five tokens) = [[101]].
Proof.
  intros tokens.
  assert (Hmax : (1 < Tokens.MAX_TOKENS)%nat) by (unfold Tokens.MAX_TOKENS; lia).
  pose proof (tokenize_command_words Tokens.get_five Tokens.MAX_TOKENS Hmax) as H.
  cbv zeta in H. destruct H as (H1 & H2 & H3). subst tokens.
  split_and!; [exact H1 | rewrite H2; reflexivity | rewrite H3; reflexivity].
Defined.

(** The fifth token of [get a b c d e], the key [d] at offset 10. *)
Lemma tokenize_command_tokens_are_strings_witness :
  let r := Tokens.tokenize_command Tokens.get_five Tokens.MAX_TOKENS in
  r.1 = [103; 101; 116; 0; 97; 0; 98; 0; 99; 0; 100; 0; 101]
  /\ r.2 !! 4%nat = Some (Tokens.Token (Some 10%nat) 1)
  /\ Tokens.cstring (drop 10 r.1) = [100].
Proof.
  intros r.
  assert (Hi : (Tokens.tokenize_command Tokens.get_five Tokens.MAX_TOKENS).2
               !! 4%nat = Some (Tokens.Token (Some 10%nat) 1))
    by reflexivity.
  assert (Hlast : (5 < length (Tokens.tokenize_command Tokens.get_five
                                  Tokens.MAX_TOKENS).2)%nat)
    by (vm_compute; lia).
  pose proof (tokenize_command_tokens_are_strings Tokens.get_five
                Tokens.MAX_TOKENS 4 _ Hi Hlast) as H.
  cbv zeta in H. destruct H as (_ & (p & Hp & Hstr) & _).
  cbn [Tokens.tk_value] in Hp. injection Hp as <-. subst r.
  split_and!; [reflexivity | exact Hi | rewrite Hstr; reflexivity].
Defined.

(** [get a b c d e]: five keys, four of them tokenized and no space after
    the fifth, so that the count is 4. *)
Lemma count_total_tokens_bound_witness :
  let r := Tokens.tokenize_command Tokens.get_five Tokens.MAX_TOKENS in
  Tokens.count_total_tokens r.1 r.2 = 4%nat
  /\ (length (Tokens.words Tokens.get_five) - 1)%nat = 5%nat
  /\ (length (Tokens.words Tokens.get_five) - 1
      <= Tokens.count_total_tokens r.1 r.2 + 1)%nat.
Proof.
  intros r.
  assert (Hmax : (1 < Tokens.MAX_TOKENS)%nat) by (unfold Tokens.MAX_TOKENS; lia).
  assert (Hcmd : Tokens.words Tokens.get_five <> []) by (vm_compute; discriminate).
  pose proof (count_total_tokens_bound Tokens.get_five Tokens.MAX_TOKENS
                Hmax Hcmd) as H.
  cbv zeta in H. destruct H as (H1 & _). subst r.
  split_and!; [reflexivity | reflexivity | exact H1].
Defined.

(** ** Reading commands *)

Section ReaderFacts.
Import Bytes Connection Tokens Reader.
Context {L : limits} {world : Type}.
Variable process_command : Z -> conn -> world -> conn * world.

Lemma memchr_found (line rest : list Z) ch : forall l n,
  take n l = line ++ ch :: rest -> Forall (fun b => b <> ch) line ->
  memchr l ch n = Some (length line).
Proof.
  induction line as [|b line IH]; intros l n Htake Hline.
  - destruct n as [|n]; [now rewrite take_0 in Htake|].
    destruct l as [|b l]; [discriminate|]. cbn in Htake.
    injection Htake as -> _. cbn [memchr]. now rewrite Z.eqb_refl.
  - destruct n as [|n]; [now rewrite take_0 in Htake|].
    destruct l as [|b' l]; [discriminate|]. cbn in Htake.
    injection Htake as -> Htake.
    apply Forall_cons in Hline as (Hb & Hline).
    cbn [memchr]. destruct (b =? ch) eqn:E; [lia|].
    now rewrite (IH l n Htake Hline).
Qed.

Lemma memchr_none ch : forall (l : list Z) n,
  Forall (fun b => b <> ch) (take n l) -> memchr l ch n = None.
Proof.
  induction l as [|b l IH]; intros [|n] H; try reflexivity.
  cbn in H. apply Forall_cons in H as (Hb & H).
  cbn [memchr]. destruct (b =? ch) eqn:E; [lia|]. now rewrite IH.
Qed.

Lemma cstring_nul_after (a b : list Z) : cstring (a ++ 0 :: b) = cstring a.
Proof.
  induction a as [|x a IH]; cbn [app cstring]; [reflexivity|].
  destruct (x =? 0); [reflexivity|]. now rewrite IH.
Qed.

(** X4.  [try_read_command] on a read buffer that holds [rbytes] bytes of
    input from [rcurr].  Without a line feed among them it returns 0 and
    changes nothing.  With one, it calls [process_command] once, on a
    connection that differs in the read buffer only, where the string at
    [rcurr] is the first line: the bytes before the line feed, less a
    carriage return that ends them, unless the line is that byte alone.
    It then returns 1, and when [process_command] does not move the input,
    the input left is exactly what followed the line feed. *)
Theorem try_read_command_line (c : conn) (w : world) (buf : list Z)
    (Hbuf : rbuf c = Some buf) (Hok : rbuf_ok c) :
  (Forall (fun b => b <> 10) (command_input c) ->
     try_read_command process_command c w = (c, w, 0))
  /\ forall line rest,
       command_input c = line ++ 10 :: rest ->
       Forall (fun b => b <> 10) line ->
       let cont := rcurr c + Z.of_nat (length line) + 1 in
       exists buf1,
         let c1 := set_rbuf (Some buf1) c in
         let r := process_command (rcurr c) c1 w in
         cstring (drop (Z.to_nat (rcurr c)) buf1) = cstring (command_line line)
         /\ drop (Z.to_nat cont) buf1 = drop (Z.to_nat cont) buf
         /\ try_read_command process_command c w
            = (set_rcurr cont (set_rbytes (rbytes r.1 - (cont - rcurr r.1)) r.1),
               r.2, 1)
         /\ (keeps_input process_command cont c1 w ->
               command_input (try_read_command process_command c w).1.1 = rest).
Proof.
  unfold rbuf_ok in Hok. rewrite Hbuf in Hok.
  destruct Hok as (Hsize & Hcurr & Hbytes & Hfit).
  assert (Hin : command_input c
                = take (Z.to_nat (rbytes c)) (drop (Z.to_nat (rcurr c)) buf)).
  { unfold command_input. now rewrite Hbuf. }
  split.
  - intros Hnone. unfold try_read_command. rewrite Hbuf.
    destruct (rbytes c =? 0); [reflexivity|].
    rewrite memchr_none; [reflexivity|]. now rewrite <- Hin.
  - intros line rest Hline Hno cont.
    rewrite Hin in Hline.
    set (k := length line) in *.
    set (p := Z.to_nat (rcurr c)) in *.
    (* the buffer from rcurr on *)
    assert (Hlen : Z.to_nat (rbytes c) = (k + S (length rest))%nat).
    { apply (f_equal length) in Hline.
      rewrite length_take, length_drop, length_app in Hline.
      cbn [length] in Hline. subst k p. lia. }
    assert (Hdrop : drop p buf
                    = line ++ 10 :: rest
                      ++ drop (Z.to_nat (rbytes c)) (drop p buf)).
    { rewrite <- (take_drop (Z.to_nat (rbytes c)) (drop p buf)) at 1.
      rewrite Hline, <- app_assoc. reflexivity. }
    set (tl := drop (Z.to_nat (rbytes c)) (drop p buf)) in *.
    assert (Hcr : default 0 (buf !! Z.to_nat (rcurr c + Z.of_nat k - 1))
                  = default 0 (line !! (k - 1)%nat) \/ (k = 0)%nat).
    { destruct (decide (k = 0%nat)) as [|Hk]; [now right|left].
      replace (Z.to_nat (rcurr c + Z.of_nat k - 1)) with (p + (k - 1))%nat
        by (subst p; lia).
      rewrite <- lookup_drop, Hdrop, lookup_app_l by (subst k; lia).
      reflexivity. }
    set (cr := (rcurr c + Z.of_nat k - rcurr c >? 1)
               && (default 0 (buf !! Z.to_nat (rcurr c + Z.of_nat k - 1)) =? 13)).
    set (el := if cr then rcurr c + Z.of_nat k - 1 else rcurr c + Z.of_nat k).
    exists (<[Z.to_nat el := 0]> buf).
    assert (Hcl : cstring (drop p (<[Z.to_nat el := 0]> buf))
                  = cstring (command_line line)).
    { rewrite drop_insert_ge by (subst el p; destruct cr eqn:E; subst cr; lia).
      rewrite Hdrop. unfold command_line. fold k.
      destruct cr eqn:Ecr; subst cr el.
      - apply andb_true_iff in Ecr as (Hk1 & H13).
        assert (Hk : (1 < k)%nat) by lia.
        destruct Hcr as [Hcr|Hcr]; [|lia]. rewrite Hcr in H13.
        destruct (exists_last (l := line)) as (l0 & x & Hl0).
        { intros ->. cbn in k. lia. }
        assert (Hk0 : k = S (length l0)).
        { subst k. rewrite Hl0, length_app. cbn. lia. }
        assert (x = 13) as ->.
        { rewrite Hl0, Hk0 in H13.
          replace (S (length l0) - 1)%nat with (length l0) in H13 by lia.
          rewrite list_lookup_middle in H13 by reflexivity. cbn in H13. lia. }
        rewrite bool_decide_eq_true_2 by lia.
        rewrite bool_decide_eq_true_2 by (rewrite Hl0; apply last_snoc).
        cbn [andb].
        replace (Z.to_nat (rcurr c + Z.of_nat k - 1) - p)%nat
          with (length l0) by (subst p; lia).
        rewrite Hl0, <- !app_assoc. cbn [app].
        rewrite insert_app_r_alt, Nat.sub_diag by lia. cbn [insert list_insert].
        rewrite cstring_nul_after.
        replace (k - 1)%nat with (length l0) by lia.
        now rewrite take_app_length.
      - replace (Z.to_nat (rcurr c + Z.of_nat k) - p)%nat with k
          by (subst p; lia).
        rewrite insert_app_r_alt, Nat.sub_diag by (subst k; lia).
        cbn [insert list_insert]. rewrite cstring_nul_after.
        apply andb_false_iff in Ecr.
        destruct (decide (1 < k)%nat) as [Hk|Hk].
        + rewrite bool_decide_eq_true_2 by exact Hk.
          destruct Ecr as [Ecr|Ecr]; [lia|].
          destruct Hcr as [Hcr|Hcr]; [|lia]. rewrite Hcr in Ecr.
          rewrite bool_decide_eq_false_2; [reflexivity|].
          rewrite last_lookup. fold k.
          replace (Init.Nat.pred k) with (k - 1)%nat by lia.
          intros Hl. rewrite Hl in Ecr. cbn in Ecr. lia.
        + now rewrite bool_decide_eq_false_2 by exact Hk. }
    assert (Hcont : drop (Z.to_nat cont) (<[Z.to_nat el := 0]> buf)
                    = drop (Z.to_nat cont) buf).
    { apply drop_insert_lt. subst cont el. fold k. destruct cr; lia. }
    assert (Hrun : try_read_command process_command c w
              = (set_rcurr cont
                   (set_rbytes
                      (rbytes (process_command (rcurr c)
                                 (set_rbuf (Some (<[Z.to_nat el := 0]> buf)) c) w).1
                       - (cont - rcurr (process_command (rcurr c)
                                 (set_rbuf (Some (<[Z.to_nat el := 0]> buf)) c) w).1))
                      (process_command (rcurr c)
                         (set_rbuf (Some (<[Z.to_nat el := 0]> buf)) c) w).1),
                 (process_command (rcurr c)
                    (set_rbuf (Some (<[Z.to_nat el := 0]> buf)) c) w).2, 1)).
    { unfold try_read_command. rewrite Hbuf.
      assert ((rbytes c =? 0) = false) as -> by lia.
      fold p. rewrite (memchr_found line rest 10 _ _ Hline Hno). fold k.
      fold cr. fold el. cbn [rcurr set_rbuf].
      replace (rcurr c + Z.of_nat k + 1) with cont by (subst cont; lia).
      now destruct (process_command (rcurr c) _ w) as [c2 w2]. }
    cbv zeta. split_and!; [exact Hcl | exact Hcont | exact Hrun |].
    intros (K1 & K2 & K3). rewrite Hrun. cbn [fst snd].
    cbn [rcurr set_rbuf rbytes rbuf] in K1, K2, K3.
    set (c2 := (process_command (rcurr c) _ w).1) in *.
    unfold command_input.
    cbn [rbuf rbytes rcurr set_rcurr set_rbytes].
    destruct (rbuf c2) as [buf2|]; [|discriminate].
    cbn in K3. injection K3 as K3.
    rewrite K3, Hcont, K1, K2.
    replace (Z.to_nat cont) with (p + (k + 1))%nat by (subst cont p k; lia).
    rewrite <- drop_drop, Hdrop.
    replace (line ++ 10 :: rest ++ tl) with ((line ++ [10]) ++ rest ++ tl)
      by (now rewrite <- app_assoc).
    rewrite drop_app_length' by (rewrite length_app; cbn; subst k; lia).
    rewrite take_app_length'; [reflexivity|]. subst cont. lia.
Qed.

(** *** Reading from the socket *)

(** The buffer [try_read_network] reads into holds the input there was,
    moved to its start. *)
Lemma read_buffer_spec c c0 :
  rbuf_ok c -> read_buffer c = (c0, true) -> 0 <= rsize c0 ->
  rbuf_ok c0 /\ rcurr c0 = 0 /\ (exists buf0, rbuf c0 = Some buf0)
  /\ command_input c0 = command_input c
  /\ state c0 = state c /\ binary c0 = binary c.
Proof.
  unfold rbuf_ok, read_buffer, command_input.
  destruct (rbuf c) as [buf|] eqn:Hbuf.
  - intros (Hsize & Hcurr & Hbytes & Hfit) Hrb Hrs.
    destruct (rcurr c =? 0) eqn:E0; cbn [negb] in Hrb.
    + simplify_eq. rewrite Hbuf.
      split_and!; try done; try lia. eauto.
    + destruct (rbytes c =? 0) eqn:Eb; cbn [negb] in Hrb; simplify_eq;
        cbn [rbuf rcurr rbytes rsize state binary set_rcurr set_rbuf].
      * rewrite Hbuf. split_and!; try done; try lia; eauto.
        replace (rbytes c) with 0 by lia. now rewrite !take_0.
      * rewrite length_memcpy.
        split_and!; try done; try lia; eauto.
        rewrite drop_0, memcpy_0
          by (rewrite ?length_drop; lia).
        rewrite take_app_le by (rewrite length_take, length_drop; lia).
        now rewrite take_take, Nat.min_id.
  - intros Hbytes Hrb Hrs. unfold pool_take in Hrb.
    destruct (pool c) as [|[|] rest]; simplify_eq.
    cbn [rbuf rcurr rbytes rsize state binary set_rsize set_rcurr set_rbuf
         set_pool] in *.
    rewrite length_replicate, Hbytes.
    split_and!; try done; try lia; eauto.
Qed.

(** [try_read_network] returns: two iterations are all its loop makes. *)
Lemma try_read_network_total s c :
  exists r, try_read_network s c = Some r.
Proof.
  unfold try_read_network. destruct (read_buffer c) as [c0 [|]];
    cbn [negb]; [|eauto].
  cbn [read_loop]. unfold sock_read.
  destruct (rsize c0 - rbytes c0 <=? 0) eqn:Eav.
  { cbn [io_res]. cbn. eauto. }
  destruct (readable s) as [|b bs] eqn:Hd.
  { destruct (at_end s); cbn; eauto. }
  cbn [io_res].
  set (got := take (Z.to_nat (rsize c0 - rbytes c0)) (b :: bs)).
  assert (Hgot : 0 < Z.of_nat (length got) <= rsize c0 - rbytes c0).
  { subst got. rewrite length_take. cbn [length]. lia. }
  assert ((Z.of_nat (length got) >? 0) = true) as -> by lia.
  destruct (Z.of_nat (length got) <? rsize c0 - rbytes c0) eqn:Elt; [eauto|].
  cbn [rsize rbytes set_rbytes set_rbuf].
  assert ((rsize c0 - (rbytes c0 + Z.of_nat (length got)) <=? 0) = true)
    as -> by lia.
  cbn. eauto.
Qed.

(** X5.  [try_read_network] when fewer bytes have arrived than the read
    buffer has room for (the buffer is the connection's own, with the input
    not yet consumed moved to its start, or one the pool grants): it
    returns 1, the socket is drained, and the input of the connection is
    the input there was followed by the bytes that arrived. *)
Theorem try_read_network_appends (s : socket) (c c0 : conn)
    (Hok : rbuf_ok c) (Hbuf : read_buffer c = (c0, true))
    (Hdata : (0 < length (readable s))%nat)
    (Hroom : Z.of_nat (length (readable s)) < rsize c0 - rbytes c0) :
  exists c',
    try_read_network s c = Some (c', Socket [] (at_end s), 1)
    /\ command_input c' = command_input c ++ readable s
    /\ rcurr c' = 0 /\ state c' = state c /\ rbuf_ok c'.
Proof.
  assert (Hrs : 0 <= rsize c0).
  { enough (0 <= rbytes c0) by lia.
    unfold read_buffer in Hbuf. unfold rbuf_ok in Hok.
    destruct (rbuf c) as [buf|].
    - destruct Hok as (_ & _ & Hb & _).
      destruct (rcurr c =? 0); cbn [negb] in Hbuf; [simplify_eq; lia|].
      destruct (rbytes c =? 0); cbn [negb] in Hbuf; simplify_eq; cbn; lia.
    - unfold pool_take in Hbuf.
      destruct (pool c) as [|[|] rest]; simplify_eq. cbn. lia. }
  destruct (read_buffer_spec c c0 Hok Hbuf Hrs)
    as (Hok0 & Hcurr0 & (buf0 & Hbuf0) & Hin0 & Hst0 & _).
  unfold rbuf_ok in Hok0. rewrite Hbuf0 in Hok0.
  destruct Hok0 as (Hsize0 & _ & Hbytes0 & Hfit0).
  unfold try_read_network. rewrite Hbuf. cbn [negb read_loop].
  unfold sock_read.
  assert ((rsize c0 - rbytes c0 <=? 0) = false) as -> by lia.
  destruct (readable s) as [|b bs] eqn:Hd; [cbn in Hdata; lia|].
  rewrite <- Hd in *. clear b bs Hd.
  rewrite take_ge, drop_ge by lia. cbn [io_res].
  assert ((Z.of_nat (length (readable s)) >? 0) = true) as -> by lia.
  assert ((Z.of_nat (length (readable s)) <? rsize c0 - rbytes c0) = true)
    as -> by lia.
  eexists. split; [reflexivity|].
  rewrite <- Hin0. unfold command_input, rbuf_ok.
  cbn [rbuf rbytes rcurr rsize state set_rbytes set_rbuf].
  rewrite Hbuf0, Hcurr0. cbn [fmap option_fmap option_map].
  rewrite Nat2Z.id, length_memcpy.
  split_and!; try done; try lia.
  rewrite !drop_0, memcpy_at by (reflexivity || lia).
  rewrite Z2Nat.inj_add, Nat2Z.id by lia.
  rewrite app_assoc, take_app_length'; [reflexivity|].
  rewrite length_app, length_take. lia.
Qed.

(** X6.  [try_read_network] does not grow the read buffer: when the bytes
    that have arrived fill the room it has, the second [read] of the loop is
    given a count of 0, and its result 0 is taken for the end of the
    stream.  The connection (text protocol) is left in [conn_closing] and
    the result is 1, whatever the buffer holds. *)
Theorem try_read_network_full_buffer_closes (s : socket) (c c0 : conn)
    (Hok : rbuf_ok c) (Hbuf : read_buffer c = (c0, true))
    (Htext : binary c = false) (Hrs : 0 <= rsize c0)
    (Hfull : rsize c0 - rbytes c0 <= Z.of_nat (length (readable s))) :
  exists c' s',
    try_read_network s c = Some (c', s', 1)
    /\ state c' = conn_closing
    /\ readable s'
       = drop (Z.to_nat (rsize c0 - rbytes c0)) (readable s).
Proof.
  destruct (read_buffer_spec c c0 Hok Hbuf Hrs)
    as (Hok0 & Hcurr0 & (buf0 & Hbuf0) & Hin0 & Hst0 & Hbin0).
  unfold rbuf_ok in Hok0. rewrite Hbuf0 in Hok0.
  destruct Hok0 as (Hsize0 & _ & Hbytes0 & Hfit0).
  rewrite Hcurr0 in Hfit0.
  unfold try_read_network. rewrite Hbuf. cbn [negb read_loop].
  unfold sock_read.
  destruct (rsize c0 - rbytes c0 <=? 0) eqn:Eav.
  - (* the buffer is full already *)
    cbn [io_res]. cbn [Z.gtb Z.compare Z.eqb]. rewrite Hbin0, Htext.
    eexists _, _. split; [reflexivity|].
    split; [apply state_conn_set_state|].
    replace (rsize c0 - rbytes c0) with 0 by lia. reflexivity.
  - destruct (readable s) as [|b bs] eqn:Hd; [cbn in Hfull; lia|].
    rewrite <- Hd in *. clear b bs Hd.
    cbn [io_res]. rewrite length_take.
    rewrite Nat.min_l by lia.
    rewrite Z2Nat.id by lia.
    assert ((rsize c0 - rbytes c0 >? 0) = true) as -> by lia.
    rewrite Z.ltb_irrefl.
    cbn [rsize rbytes readable io_res binary set_rbytes set_rbuf].
    assert ((rsize c0 - (rbytes c0 + (rsize c0 - rbytes c0)) <=? 0) = true)
      as -> by lia.
    cbn [io_res Z.gtb Z.compare Z.eqb]. rewrite Hbin0, Htext.
    eexists _, _. split; [reflexivity|].
    split; [apply state_conn_set_state | reflexivity].
Qed.


End ReaderFacts.

(** ["get k\r\nget"] in the read buffer, with a [process_command] that
    leaves the connection alone: the command is ["get k"] and ["get"] is
    left as input. *)
Lemma try_read_command_line_witness :
  let L := Connection.linux_limits in
  let idle := fun (_ : Z) (c : Connection.conn) (w : unit) => (c, w) in
  let r := Reader.try_read_command idle Reader.two_lines tt in
  r.2 = 1
  /\ Connection.command_input r.1.1 = [103; 101; 116]
  /\ Tokens.cstring (default [] (Connection.rbuf r.1.1))
     = [103; 101; 116; 32; 107].
Proof.
  intros L idle r.
  assert (Hbuf : Connection.rbuf Reader.two_lines
                 = Some ([103; 101; 116; 32; 107; 13; 10; 103; 101; 116]
                         ++ replicate 6 0)) by reflexivity.
  assert (Hok : Reader.rbuf_ok Reader.two_lines).
  { unfold Reader.rbuf_ok. rewrite Hbuf. cbn. lia. }
  destruct (try_read_command_line idle Reader.two_lines tt _ Hbuf Hok)
    as (_ & H).
  destruct (H [103; 101; 116; 32; 107; 13] [103; 101; 116])
    as (buf1 & _ & _ & Hrun & Hrest).
  { reflexivity. }
  { repeat (constructor; [lia|]). constructor. }
  subst r. split_and!.
  - now rewrite Hrun.
  - apply Hrest. unfold Reader.keeps_input. cbn. done.
  - reflexivity.
Defined.

(** ["get k\r\n"] arrives on a fresh connection: the pool grants a buffer
    and the seven bytes are the input. *)
Lemma try_read_network_appends_witness :
  let L := Connection.linux_limits in
  let s := Reader.Socket [103; 101; 116; 32; 107; 13; 10] Reader.WouldBlock in
  exists c',
    Reader.try_read_network s Connection.tcp_conn
    = Some (c', Reader.Socket [] Reader.WouldBlock, 1)
    /\ Connection.command_input c' = [103; 101; 116; 32; 107; 13; 10].
Proof.
  intros L s.
  assert (Hok : Reader.rbuf_ok Connection.tcp_conn) by reflexivity.
  assert (Hbuf : Reader.read_buffer Connection.tcp_conn
                 = ((Reader.read_buffer Connection.tcp_conn).1, true))
    by reflexivity.
  assert (Hdata : (0 < length (Reader.readable s))%nat) by (cbn; lia).
  assert (Hroom : Z.of_nat (length (Reader.readable s))
                  < Connection.rsize (Reader.read_buffer Connection.tcp_conn).1
                    - Connection.rbytes (Reader.read_buffer Connection.tcp_conn).1)
    by (vm_compute; reflexivity).
  destruct (try_read_network_appends s Connection.tcp_conn _ Hok Hbuf Hdata Hroom)
    as (c' & Hrun & Hin & _).
  exists c'. split; [exact Hrun | exact Hin].
Defined.

(** Six bytes or more arrive for a 16-byte buffer that holds ten: the
    connection is closed. *)
Lemma try_read_network_full_buffer_closes_witness :
  let L := Connection.linux_limits in
  let s := Reader.Socket [32; 107; 13; 10; 103; 101; 116; 32; 107; 13; 10]
             Reader.WouldBlock in
  exists c' s',
    Reader.try_read_network s Reader.two_lines = Some (c', s', 1)
    /\ Connection.state c' = Connection.conn_closing
    /\ Reader.readable s' = [116; 32; 107; 13; 10].
Proof.
  intros L s.
  assert (Hbuf : Connection.rbuf Reader.two_lines
                 = Some ([103; 101; 116; 32; 107; 13; 10; 103; 101; 116]
                         ++ replicate 6 0)) by reflexivity.
  assert (Hok : Reader.rbuf_ok Reader.two_lines).
  { unfold Reader.rbuf_ok. rewrite Hbuf. cbn. lia. }
  assert (Hrb : Reader.read_buffer Reader.two_lines = (Reader.two_lines, true))
    by reflexivity.
  assert (Htext : Connection.binary Reader.two_lines = false) by reflexivity.
  assert (Hrs : 0 <= Connection.rsize Reader.two_lines) by (cbn; lia).
  assert (Hfull : Connection.rsize Reader.two_lines
                  - Connection.rbytes Reader.two_lines
                  <= Z.of_nat (length (Reader.readable s))) by (cbn; lia).
  destruct (try_read_network_full_buffer_closes s Reader.two_lines _
              Hok Hrb Htext Hrs Hfull) as (c' & s' & Hrun & Hst & Hleft).
  exists c', s'. split_and!; [exact Hrun | exact Hst | exact Hleft].
Defined.


(** ** The free list of connections *)

Section FreelistFacts.
Import Freelist.
Context {A : Type}.
Variable junk : A.

(** A slot written at [freecurr] is the connection the next
    [do_conn_from_freelist] returns. *)
Lemma freelist_push_pop (arr : list A) (total cur : Z) (c : A) :
  0 <= cur -> (Z.to_nat cur < length arr)%nat ->
  length arr = Z.to_nat total -> 0 < total ->
  let f1 := FreeList (<[Z.to_nat cur := c]> arr) total (cur + 1) in
  wf f1
  /\ held f1 = take (Z.to_nat cur) arr ++ [c]
  /\ do_conn_from_freelist f1
     = (Some c, FreeList (<[Z.to_nat cur := c]> arr) total cur)
  /\ held (FreeList (<[Z.to_nat cur := c]> arr) total cur)
     = take (Z.to_nat cur) arr.
Proof.
  intros Hcur Hin Hlen Htot f1. subst f1.
  unfold wf, held, do_conn_from_freelist.
  cbn [freeconns freetotal freecurr]. rewrite length_insert.
  split_and!; try lia.
  - replace (Z.to_nat (cur + 1)) with (S (Z.to_nat cur)) by lia.
    now apply take_snoc_insert.
  - assert ((cur + 1 >? 0) = true) as -> by lia.
    replace (cur + 1 - 1) with cur by lia.
    now rewrite list_lookup_insert_eq by exact Hin.
  - now rewrite take_insert_ge by lia.
Qed.

(** X8.  The free list is a stack kept in the first [freecurr] slots of an
    array of [freetotal].  [do_conn_add_to_freelist] fails (returns true)
    only when the array is full and cannot be enlarged, and then changes
    nothing.  When it succeeds the connection is on top of the connections
    held before, and the next [do_conn_from_freelist] returns that
    connection and leaves the list holding what it held.  From a list that
    holds nothing [do_conn_from_freelist] returns NULL. *)
Theorem freelist_add_then_take (ok : bool) (c : A) (f : freelist)
    (Hwf : wf f) :
  let r := do_conn_add_to_freelist junk ok c f in
  (r.1 = true <-> freecurr f = freetotal f /\ ok = false)
  /\ (r.1 = true -> r.2 = f)
  /\ (r.1 = false ->
        wf r.2 /\ held r.2 = held f ++ [c]
        /\ exists f', do_conn_from_freelist r.2 = (Some c, f')
             /\ held f' = held f /\ freecurr f' = freecurr f /\ wf f')
  /\ (held f = [] -> do_conn_from_freelist f = (None, f)).
Proof.
  intros r. subst r. destruct Hwf as (Hlen & Hcur & Htot).
  unfold do_conn_add_to_freelist.
  destruct (freecurr f <? freetotal f) eqn:Elt; cbn [fst snd].
  - destruct (freelist_push_pop (freeconns f) (freetotal f) (freecurr f) c)
      as (H1 & H2 & H3 & H4); try lia.
    split_and!; [split; [discriminate | lia] | discriminate | |].
    + intros _. split_and!; [exact H1 | exact H2 |].
      eexists. split; [exact H3|]. split_and!; [exact H4 | reflexivity |].
      unfold wf. cbn [freeconns freetotal freecurr].
      rewrite length_insert. lia.
    + unfold held. intros Hnil. apply (f_equal length) in Hnil.
      rewrite length_take in Hnil. cbn [length] in Hnil.
      unfold do_conn_from_freelist.
      now assert ((freecurr f >? 0) = false) as -> by lia.
  - assert (Hfull : freecurr f = freetotal f) by lia.
    assert (Hheld : held f = freeconns f).
    { unfold held. rewrite take_ge by lia. reflexivity. }
    destruct ok; cbn [fst snd].
    + destruct (freelist_push_pop
                  (freeconns f ++ replicate (Z.to_nat (freetotal f)) junk)
                  (freetotal f * 2) (freecurr f) c)
        as (H1 & H2 & H3 & H4);
        rewrite ?length_app, ?length_replicate; try lia.
      rewrite take_app_length' in H2, H4 by lia.
      split_and!; [split; [discriminate | now intros (_ & ?)] | discriminate | |].
      * intros _. rewrite Hheld. split_and!; [exact H1 | exact H2 |].
        eexists. split; [exact H3|]. split_and!; [exact H4 | reflexivity |].
        unfold wf. cbn [freeconns freetotal freecurr].
        rewrite length_insert, length_app, length_replicate. lia.
      * rewrite Hheld. intros Hnil. rewrite Hnil in Hlen. cbn in Hlen. lia.
    + split_and!; [split; [done | done] | done | discriminate |].
      rewrite Hheld. intros Hnil. rewrite Hnil in Hlen. cbn in Hlen. lia.
Qed.

End FreelistFacts.

(** Connection 9 is added to a full list of two slots, which is enlarged;
    taking from the list gives 9 back. *)
Lemma freelist_add_then_take_witness :
  let r := Freelist.do_conn_add_to_freelist 0%nat true 9%nat Freelist.full_list in
  r.1 = false
  /\ Freelist.held r.2 = [7; 8; 9]%nat
  /\ (Freelist.do_conn_from_freelist r.2).1 = Some 9%nat
  /\ Freelist.held (Freelist.do_conn_from_freelist r.2).2 = [7; 8]%nat.
Proof.
  intros r.
  assert (Hwf : Freelist.wf Freelist.full_list).
  { unfold Freelist.wf. cbn. lia. }
  pose proof (freelist_add_then_take 0%nat true 9%nat Freelist.full_list Hwf) as H.
  cbv zeta in H. destruct H as (_ & _ & H & _).
  destruct (H eq_refl) as (_ & Hheld & f' & Hpop & Hheld' & _).
  subst r. rewrite Hpop. cbn [fst snd].
  split_and!; [reflexivity | exact Hheld | reflexivity | exact Hheld'].
Defined.

(** ** The statistics buffer *)

Section StatsFacts.
Import Bytes Tokens Stats.

Lemma memcpy_outside (w src : list Z) (off n i : nat) :
  (i < off)%nat \/ (off + n <= i)%nat -> memcpy w off src n !! i = w !! i.
Proof.
  intros Hi. unfold memcpy. destruct Hi as [Hi|Hi].
  - now apply list_lookup_inserts_lt.
  - apply list_lookup_inserts_ge. rewrite length_take. lia.
Qed.

Lemma take_ext (l1 l2 : list Z) k :
  (forall i, (i < k)%nat -> l1 !! i = l2 !! i) -> take k l1 = take k l2.
Proof.
  intros H. apply list_eq. intros i. destruct (decide (i < k)%nat).
  - rewrite !lookup_take_lt by lia. now apply H.
  - now rewrite !lookup_take_ge by lia.
Qed.

Lemma drop_ext (l1 l2 : list Z) k :
  (forall i, (k <= i)%nat -> l1 !! i = l2 !! i) -> drop k l1 = drop k l2.
Proof.
  intros H. apply list_eq. intros i. rewrite !lookup_drop. apply H. lia.
Qed.

Lemma cstring_app_nul (w rest : list Z) :
  Forall (fun b => b <> 0) w -> cstring (w ++ 0 :: rest) = w.
Proof.
  intros Hw. induction Hw as [|b w Hb _ IH]; cbn [app cstring]; [reflexivity|].
  destruct (b =? 0) eqn:E; [lia|]. now rewrite IH.
Qed.

(** X9.  [append_to_buffer] on a buffer of [buffer_size] bytes that holds a
    string of [buffer_off] bytes, with room left beyond the [reserved]
    bytes.  It writes only between [buffer_off] and the reserved bytes, and
    the offset it returns leaves room beyond them again.  The text is
    appended whole or not at all: when it fits with its NUL the buffer holds
    the string followed by the text and the result is the new length; when
    it does not, or on an output error, the result is [buffer_off], and in
    the first case the string is cut back to what it was. *)
Theorem append_to_buffer_all_or_nothing (buffer : list Z)
    (buffer_size buffer_off reserved : Z) (f : formatted)
    (Hlen : length buffer = Z.to_nat buffer_size)
    (Hoff : 0 <= buffer_off) (Hres : 0 <= reserved)
    (Hroom : buffer_off + reserved < buffer_size)
    (Hmax : buffer_size < 2 ^ 64) :
  let r := append_to_buffer buffer buffer_size buffer_off reserved f in
  let left := buffer_size - buffer_off - reserved in
  length r.1 = length buffer
  /\ take (Z.to_nat buffer_off) r.1 = take (Z.to_nat buffer_off) buffer
  /\ drop (Z.to_nat (buffer_size - reserved)) r.1
     = drop (Z.to_nat (buffer_size - reserved)) buffer
  /\ buffer_off <= r.2 /\ r.2 + reserved < buffer_size
  /\ match f with
     | Text t =>
         Forall (fun b => b <> 0) t ->
         Forall (fun b => b <> 0) (take (Z.to_nat buffer_off) buffer) ->
         if Z.of_nat (length t) <? left
         then r.2 = buffer_off + Z.of_nat (length t)
              /\ cstring r.1 = take (Z.to_nat buffer_off) buffer ++ t
         else r.2 = buffer_off
              /\ cstring r.1 = take (Z.to_nat buffer_off) buffer
     | OutputError _ => r.2 = buffer_off
     end.
Proof.
  intros r left. subst r. unfold append_to_buffer.
  assert (Hleft : to_size_t (buffer_size - buffer_off - reserved) = left).
  { unfold to_size_t. apply Z.mod_small. subst left. lia. }
  rewrite Hleft. clear Hleft.
  assert (Hpos : 0 < left) by (subst left; lia).
  set (off := Z.to_nat buffer_off) in *.
  assert (Hend : Z.to_nat (buffer_size - reserved) = (off + Z.to_nat left)%nat)
    by (subst off left; lia).
  rewrite Hend.
  destruct f as [t|stored]; cbn [vsnprintf].
  - assert ((left =? 0) = false) as -> by lia.
    assert ((Z.of_nat (length t) <? 0) = false) as -> by (apply Z.ltb_ge; lia).
    set (out := take (Z.to_nat (left - 1)) t ++ [0]).
    assert (Hout : (length out <= Z.to_nat left)%nat).
    { subst out. rewrite length_app, length_take. cbn [length]. lia. }
    destruct (Z.of_nat (length t) <? left) eqn:Efit.
    + (* the text and its NUL fit *)
      assert ((Z.of_nat (length t) >=? left) = false) as -> by lia.
      cbn [fst snd]. rewrite length_memcpy.
      split_and!; try done; try lia.
      * apply take_ext. intros i Hi. apply memcpy_outside. lia.
      * apply drop_ext. intros i Hi. apply memcpy_outside. lia.
      * intros Ht Hprefix. split; [reflexivity|].
        assert (Heq : out = t ++ [0]).
        { subst out. now rewrite take_ge by lia. }
        rewrite Heq, memcpy_at
          by (rewrite ?length_app; cbn [length]; lia).
        rewrite <- (app_assoc t [0]). cbn [app]. rewrite app_assoc.
        apply cstring_app_nul. apply Forall_app. now split.
    + (* the text is cut: the string is cut back *)
      assert ((Z.of_nat (length t) >=? left) = true) as -> by lia.
      cbn [fst snd]. rewrite length_insert, length_memcpy.
      assert (Hpre : take off (<[off:=0]> (memcpy buffer off out (length out)))
                     = take off buffer).
      { apply take_ext. intros i Hi. rewrite list_lookup_insert_ne by lia.
        apply memcpy_outside. lia. }
      split_and!; try done; try lia.
      * apply drop_ext. intros i Hi. rewrite list_lookup_insert_ne by lia.
        apply memcpy_outside. lia.
      * intros Ht Hprefix. split; [reflexivity|].
        rewrite insert_take_drop by (rewrite length_memcpy; lia).
        rewrite take_insert_ge in Hpre by lia. rewrite Hpre.
        now apply cstring_app_nul.
  - cbn [fst snd Z.ltb Z.compare]. rewrite length_memcpy.
    split_and!; try done; try lia.
    + apply take_ext. intros i Hi. apply memcpy_outside. lia.
    + apply drop_ext. intros i Hi. apply memcpy_outside. lia.
Qed.

End StatsFacts.

(** ["pid 1"] appended to ["STAT "] in a buffer of 12 bytes that keeps one
    in reserve, and ["pid 12345"], which does not fit. *)
Lemma append_to_buffer_all_or_nothing_witness :
  let fits := Stats.append_to_buffer Stats.stat_buffer 12 5 1
                (Stats.Text [112; 105; 100; 32; 49]) in
  let cut := Stats.append_to_buffer Stats.stat_buffer 12 5 1
                (Stats.Text [112; 105; 100; 32; 49; 50; 51; 52; 53]) in
  (fits.2 = 10
   /\ Tokens.cstring fits.1 = [83; 84; 65; 84; 32; 112; 105; 100; 32; 49])
  /\ (cut.2 = 5 /\ Tokens.cstring cut.1 = [83; 84; 65; 84; 32]).
Proof.
  intros fits cut.
  assert (Hlen : length Stats.stat_buffer = Z.to_nat 12) by reflexivity.
  assert (Hnz : forall l : list Z,
            forallb (fun b => negb (b =? 0)) l = true ->
            Forall (fun b => b <> 0) l).
  { intros l Hl. apply Forall_forall. intros b Hb.
    apply list_elem_of_In in Hb.
    rewrite forallb_forall in Hl. specialize (Hl b Hb).
    destruct (Z.eqb_spec b 0); [discriminate | done]. }
  pose proof (append_to_buffer_all_or_nothing Stats.stat_buffer 12 5 1
                (Stats.Text [112; 105; 100; 32; 49]) Hlen
                ltac:(lia) ltac:(lia) ltac:(lia) ltac:(lia)) as H1.
  pose proof (append_to_buffer_all_or_nothing Stats.stat_buffer 12 5 1
                (Stats.Text [112; 105; 100; 32; 49; 50; 51; 52; 53]) Hlen
                ltac:(lia) ltac:(lia) ltac:(lia) ltac:(lia)) as H2.
  cbv zeta in H1, H2.
  destruct H1 as (_ & _ & _ & _ & _ & H1).
  destruct H2 as (_ & _ & _ & _ & _ & H2).
  specialize (H1 (Hnz [112; 105; 100; 32; 49] eq_refl)
                 (Hnz (take (Z.to_nat 5) Stats.stat_buffer) eq_refl)).
  specialize (H2 (Hnz [112; 105; 100; 32; 49; 50; 51; 52; 53] eq_refl)
                 (Hnz (take (Z.to_nat 5) Stats.stat_buffer) eq_refl)).
  cbn in H1, H2. split; [exact H1 | exact H2].
Defined.

(** ** State changes and the input *)

Section InputFacts.
Import Bytes Connection Reader.
Context {L : limits}.

Lemma command_input_fields c c' :
  rbuf c' = rbuf c -> rbytes c' = rbytes c -> rcurr c' = rcurr c ->
  command_input c' = command_input c.
Proof. unfold command_input. now intros -> -> ->. Qed.

Lemma pool_take_input c :
  rbuf (pool_take c).2 = rbuf c /\ rbytes (pool_take c).2 = rbytes c
  /\ rcurr (pool_take c).2 = rcurr c.
Proof. unfold pool_take. now destruct (pool c). Qed.

(** The blocks of [conn_shrink] after the first leave the read buffer
    alone. *)
Lemma shrink_rest_input x :
  rbuf (shrink_iov (shrink_msglist (shrink_ilist (shrink_wbuf x)))) = rbuf x
  /\ rbytes (shrink_iov (shrink_msglist (shrink_ilist (shrink_wbuf x))))
     = rbytes x
  /\ rcurr (shrink_iov (shrink_msglist (shrink_ilist (shrink_wbuf x))))
     = rcurr x.
Proof.
  assert (Hw : forall c, rbuf (shrink_wbuf c) = rbuf c
                         /\ rbytes (shrink_wbuf c) = rbytes c
                         /\ rcurr (shrink_wbuf c) = rcurr c).
  { intros c. unfold shrink_wbuf. destruct (wsize c >? _); [|done].
    pose proof (pool_take_input c) as Hp.
    destruct (pool_take c) as [[|] y]; exact Hp. }
  assert (Hi : forall c, rbuf (shrink_ilist c) = rbuf c
                         /\ rbytes (shrink_ilist c) = rbytes c
                         /\ rcurr (shrink_ilist c) = rcurr c).
  { intros c. unfold shrink_ilist. case_bool_decide; [|done].
    pose proof (pool_take_input c) as Hp.
    destruct (pool_take c) as [[|] y]; exact Hp. }
  assert (Hm : forall c, rbuf (shrink_msglist c) = rbuf c
                         /\ rbytes (shrink_msglist c) = rbytes c
                         /\ rcurr (shrink_msglist c) = rcurr c).
  { intros c. unfold shrink_msglist. case_bool_decide; [|done].
    pose proof (pool_take_input c) as Hp.
    destruct (pool_take c) as [[|] y]; exact Hp. }
  assert (Hv : forall c, rbuf (shrink_iov c) = rbuf c
                         /\ rbytes (shrink_iov c) = rbytes c
                         /\ rcurr (shrink_iov c) = rcurr c).
  { intros c. unfold shrink_iov. case_bool_decide; done. }
  destruct (Hv (shrink_msglist (shrink_ilist (shrink_wbuf x)))) as (-> & -> & ->).
  destruct (Hm (shrink_ilist (shrink_wbuf x))) as (-> & -> & ->).
  destruct (Hi (shrink_wbuf x)) as (-> & -> & ->).
  apply Hw.
Qed.

(** [conn_shrink] moves the input to the start of the read buffer, or drops
    a buffer that holds none. *)
Lemma conn_shrink_input c :
  rbuf_ok c -> command_input (conn_shrink c) = command_input c.
Proof.
  intros Hok. unfold conn_shrink. destruct (udp c); [reflexivity|].
  transitivity (command_input (shrink_rbuf c)).
  - apply command_input_fields; apply shrink_rest_input.
  - unfold shrink_rbuf, command_input, rbuf_ok in *.
    destruct (rbuf c) as [buf|] eqn:Hbuf.
    + destruct Hok as (Hsize & Hcurr & Hbytes & Hfit).
      destruct (rbytes c =? 0) eqn:E0;
        cbn [rbuf rbytes rcurr set_rsize set_rcurr set_rbuf].
      * replace (rbytes c) with 0 by lia. now rewrite take_0.
      * rewrite drop_0, memcpy_0 by (rewrite ?length_drop; lia).
        rewrite take_app_le by (rewrite length_take, length_drop; lia).
        now rewrite take_take, Nat.min_id.
    + cbn [rbuf set_rcurr]. now rewrite Hbuf.
Qed.

(** X10.  No change of state loses input: after [conn_set_state], whatever
    the state set, the bytes of the read buffer not yet consumed are the
    bytes there were, although entering [conn_read] shrinks the buffers and
    moves them.  Entering [conn_read] from another state also resets the
    message and iovec counters, which [process_command] asserts. *)
Theorem conn_set_state_keeps_input (st : conn_state) (c : conn)
    (Hok : rbuf_ok c) :
  command_input (conn_set_state st c) = command_input c
  /\ state (conn_set_state st c) = st
  /\ (st = conn_read -> state c <> conn_read ->
        msgcurr (conn_set_state st c) = 0%nat
        /\ msgused (conn_set_state st c) = 0%nat
        /\ iovused (conn_set_state st c) = 0%nat)
  /\ (st = conn_read -> state c <> conn_read -> udp c = false ->
        rcurr (conn_set_state st c) = 0
        /\ (rbytes c = 0 -> rbuf (conn_set_state st c) = None)).
Proof.
  split; [|split; [apply state_conn_set_state|]].
  - unfold conn_set_state. case_bool_decide; [|reflexivity].
    case_bool_decide; [|reflexivity].
    rewrite <- (conn_shrink_input c Hok). reflexivity.
  - unfold conn_set_state.
    split; intros -> Hne; rewrite bool_decide_eq_true_2 by congruence;
      rewrite bool_decide_eq_true_2 by reflexivity.
    + now cbn.
    + intros Hudp.
      cbn [rcurr rbuf set_state set_iovused set_msgused set_msgcurr].
      unfold conn_shrink. rewrite Hudp.
      destruct (shrink_rest_input (shrink_rbuf c)) as (-> & _ & ->).
      unfold shrink_rbuf. destruct (rbuf c) as [buf|] eqn:Hbuf.
      * destruct (rbytes c =? 0) eqn:E0; cbn; split; try done; lia.
      * cbn. now rewrite Hbuf.
Qed.

End InputFacts.

(** The connection that holds ["get k\r\nget"] goes to [conn_write] and
    back to [conn_read]: its input is the ten bytes. *)
Lemma conn_set_state_keeps_input_witness :
  let L := Connection.linux_limits in
  let c := Connection.conn_set_state Connection.conn_read
             (Connection.conn_set_state Connection.conn_write Reader.two_lines) in
  Connection.command_input c = [103; 101; 116; 32; 107; 13; 10; 103; 101; 116]
  /\ Connection.state c = Connection.conn_read.
Proof.
  intros L c.
  assert (Hok : Reader.rbuf_ok
                  (Connection.conn_set_state Connection.conn_write
                     Reader.two_lines)).
  { vm_compute. split_and!; try reflexivity; intros H; discriminate H. }
  destruct (conn_set_state_keeps_input Connection.conn_read _ Hok)
    as (Hin & Hst & _).
  subst c. split; [rewrite Hin; reflexivity | exact Hst].
Defined.

(** ** Transmission *)

Section WireFacts.
Import Int Bytes Connection Wire.
Context {L : limits}.

Lemma ptr_add_add p a b : ptr_add (ptr_add p a) b = ptr_add p (a + b).
Proof. destruct p; cbn; f_equal; lia. Qed.

Lemma length_iovec_addrs v : length (iovec_addrs v) = Z.to_nat (iov_len v).
Proof. unfold iovec_addrs. now rewrite length_fmap, length_seq. Qed.

(** An iovec advanced by [r] bytes gathers what it gathered, less the first
    [r] bytes. *)
Lemma iovec_addrs_advance v r :
  0 <= r <= iov_len v ->
  iovec_addrs (Iovec (ptr_add (iov_base v) r) (iov_len v - r))
  = drop (Z.to_nat r) (iovec_addrs v).
Proof.
  intros Hr. unfold iovec_addrs. cbn [iov_base iov_len].
  rewrite <- fmap_drop, drop_seq. cbn [Nat.add].
  replace (Z.to_nat (iov_len v) - Z.to_nat r)%nat
    with (Z.to_nat (iov_len v - r)) by lia.
  rewrite <- (Nat.add_0_r (Z.to_nat r)), <- fmap_add_seq, <- list_fmap_compose.
  apply list_fmap_ext. intros i k _. cbn.
  rewrite ptr_add_add. f_equal. lia.
Qed.

Lemma gathered_cons v l : gathered (v :: l) = iovec_addrs v ++ gathered l.
Proof. reflexivity. Qed.

Lemma length_gathered l :
  Forall (fun v => 0 <= iov_len v) l ->
  Z.of_nat (length (gathered l)) = iov_bytes l.
Proof.
  induction 1 as [|v l Hv _ IH]; [reflexivity|].
  rewrite gathered_cons, length_app, length_iovec_addrs.
  cbn [iov_bytes foldr]. unfold iov_bytes in IH. lia.
Qed.

(** The iovecs of a message that is not finished: the one [msg_iov] points
    at, then those of the message without it. *)
Lemma message_iovecs_cons (l : list iovec) a n :
  (a + S n <= length l)%nat ->
  take (S n) (drop a l) = l !!! a :: take n (drop (S a) l).
Proof.
  intros Hin.
  destruct (lookup_lt_is_Some_2 l a) as [v Hv]; [lia|].
  rewrite (list_lookup_total_correct _ _ _ Hv).
  rewrite (drop_S _ _ _ Hv). reflexivity.
Qed.

(** The loop of [transmit] that drops the iovecs written in full. *)
Lemma drop_written_gathered c n : forall res m,
  (msg_iovlen m <= n)%nat ->
  (msg_iov m + msg_iovlen m <= length (iov c))%nat ->
  Forall (fun v => 0 <= iov_len v) (take (msg_iovlen m) (drop (msg_iov m) (iov c))) ->
  0 <= res <= iov_bytes (take (msg_iovlen m) (drop (msg_iov m) (iov c))) ->
  let r := drop_written n res m c in
  let left := take (msg_iovlen r.2) (drop (msg_iov r.2) (iov c)) in
  0 <= r.1
  /\ (msg_iov r.2 + msg_iovlen r.2 <= length (iov c))%nat
  /\ Forall (fun v => 0 <= iov_len v) left
  /\ drop (Z.to_nat r.1) (gathered left)
     = drop (Z.to_nat res)
         (gathered (take (msg_iovlen m) (drop (msg_iov m) (iov c))))
  /\ match left with
     | [] => r.1 = 0
     | v :: _ => r.1 < iov_len v
     end.
Proof.
  induction n as [|n IH]; intros res m Hn Hin Hpos Hres; cbn [drop_written].
  - assert (msg_iovlen m = 0%nat) as E by lia.
    cbn [fst snd]. rewrite E in *. rewrite take_0 in *.
    cbn in Hres. split_and!; try done; lia.
  - destruct (msg_iovlen m) as [|k] eqn:Ek.
    + rewrite bool_decide_eq_false_2 by lia. cbn [andb fst snd].
      rewrite Ek. rewrite take_0 in *. cbn in Hres.
      split_and!; try done; lia.
    + rewrite bool_decide_eq_true_2 by lia. cbn [andb].
      rewrite (message_iovecs_cons _ _ _ Hin) in Hpos, Hres |- *.
      set (v := iov c !!! msg_iov m) in *.
      apply Forall_cons in Hpos as (Hv & Hpos).
      cbn [iov_bytes foldr] in Hres.
      fold (iov_bytes (take k (drop (S (msg_iov m)) (iov c)))) in Hres.
      destruct (res >=? iov_len v) eqn:Ege.
      * replace (S k - 1)%nat with k by lia.
        destruct (IH (res - iov_len v)
                    (Msghdr (S (msg_iov m)) k (msg_flags m) (msg_controllen m)))
          as (H1 & H2 & H3 & H4 & H5);
          cbn [msg_iov msg_iovlen]; try lia; try done.
        cbv zeta in H1, H2, H3, H4, H5. cbn [msg_iov msg_iovlen] in H4.
        split_and!; try done.
        rewrite H4, gathered_cons, drop_app_ge
          by (rewrite length_iovec_addrs; lia).
        rewrite length_iovec_addrs. f_equal. lia.
      * cbn [fst snd]. rewrite Ek, (message_iovecs_cons _ _ _ Hin).
        fold v. split_and!; try done; try lia.
        now apply Forall_cons.
Qed.

(** X11.  [transmit] after a [sendmsg] that wrote [res] bytes of the
    current message, [res] being positive and no more than the message has
    left: the result is TRANSMIT_INCOMPLETE, the connection stays on that
    message and in its state, and what the message still gathers is what it
    gathered before less its first [res] bytes: no byte is sent twice and
    none is skipped, whether the write ended in the middle of an iovec or
    at the end of one. *)
Theorem transmit_sends_prefix (sent : io_outcome) (event_ok : bool)
    (c : conn) (m : msghdr)
    (Hused : (msgcurr c < msgused c)%nat)
    (Hm : msglist c !! msgcurr c = Some m)
    (Hleft : (0 < msg_iovlen m)%nat)
    (Hin : (msg_iov m + msg_iovlen m <= length (iov c))%nat)
    (Hpos : Forall (fun v => 0 <= iov_len v) (msg_iovs c (msgcurr c)))
    (Hres : 0 < io_res sent <= iov_bytes (msg_iovs c (msgcurr c))) :
  let r := transmit sent event_ok c in
  r.2 = TRANSMIT_INCOMPLETE
  /\ msgcurr r.1 = msgcurr c /\ state r.1 = state c
  /\ msg_gathered r.1 (msgcurr c)
     = drop (Z.to_nat (io_res sent)) (msg_gathered c (msgcurr c))
  /\ iov_bytes (msg_iovs r.1 (msgcurr c))
     = iov_bytes (msg_iovs c (msgcurr c)) - io_res sent.
Proof.
  intros r. subst r.
  pose proof (list_lookup_total_correct _ _ _ Hm) as Hm'.
  assert (Hcur : (msgcurr c < length (msglist c))%nat)
    by (now apply lookup_lt_Some in Hm).
  unfold msg_gathered, msg_iovs in *. rewrite Hm' in Hpos, Hres |- *.
  unfold transmit. rewrite Hm'.
  rewrite (bool_decide_eq_false_2 (msg_iovlen m = 0%nat)) by lia.
  rewrite andb_false_r, bool_decide_eq_true_2 by exact Hused. rewrite Hm'.
  assert ((io_res sent >? 0) = true) as -> by lia.
  destruct (drop_written_gathered c (msg_iovlen m) (io_res sent) m)
    as (H1 & H2 & H3 & H4 & H5); try done; try lia.
  cbv zeta in H1, H2, H3, H4, H5.
  destruct (drop_written (msg_iovlen m) (io_res sent) m c) as [res' m'].
  cbn [fst snd] in *.
  cbn [msglist msgcurr iov set_msglist].
  set (left := take (msg_iovlen m') (drop (msg_iov m') (iov c))) in *.
  assert (Hgath : forall c',
            msgcurr c' = msgcurr c -> state c' = state c ->
            msglist c' = <[msgcurr c := m']> (msglist c) ->
            gathered (take (msg_iovlen m') (drop (msg_iov m') (iov c')))
            = drop (Z.to_nat res') (gathered left) ->
            Forall (fun v => 0 <= iov_len v)
              (take (msg_iovlen m') (drop (msg_iov m') (iov c'))) ->
            msgcurr c' = msgcurr c /\ state c' = state c
            /\ gathered (take (msg_iovlen (msglist c' !!! msgcurr c))
                           (drop (msg_iov (msglist c' !!! msgcurr c)) (iov c')))
               = drop (Z.to_nat (io_res sent))
                   (gathered (take (msg_iovlen m) (drop (msg_iov m) (iov c))))
            /\ iov_bytes (take (msg_iovlen (msglist c' !!! msgcurr c))
                            (drop (msg_iov (msglist c' !!! msgcurr c)) (iov c')))
               = iov_bytes (take (msg_iovlen m) (drop (msg_iov m) (iov c)))
                 - io_res sent).
  { intros c' E1 E2 E3 E4 E5.
    assert (Hm2 : msglist c' !!! msgcurr c = m').
    { rewrite E3. apply list_lookup_total_correct.
      now apply list_lookup_insert_eq. }
    rewrite Hm2, E4, H4. split_and!; try done.
    rewrite <- (length_gathered _ E5), E4, H4, length_drop.
    pose proof (length_gathered _ Hpos). lia. }
  destruct (res' >? 0) eqn:Epos.
  - (* the write ended inside an iovec *)
    subst left.
    destruct (msg_iovlen m') as [|k] eqn:Hk; [rewrite take_0 in H5; lia|].
    rewrite (message_iovecs_cons _ _ _ H2) in H3, H5, Hgath.
    set (v := iov c !!! msg_iov m') in *.
    apply Forall_cons in H3 as (Hv & Htl).
    split; [reflexivity|]. cbn [fst snd].
    apply Hgath; try reflexivity.
    + cbn [iov set_iov set_msglist].
      rewrite message_iovecs_cons by (rewrite length_insert; lia).
      rewrite list_lookup_total_insert, decide_True by (split; [done | lia]).
      rewrite drop_insert_lt by lia. fold v.
      rewrite !gathered_cons, iovec_addrs_advance by lia.
      now rewrite drop_app_le by (rewrite length_iovec_addrs; lia).
    + cbn [iov set_iov set_msglist].
      rewrite message_iovecs_cons by (rewrite length_insert; lia).
      rewrite list_lookup_total_insert, decide_True by (split; [done | lia]).
      rewrite drop_insert_lt by lia.
      apply Forall_cons. split; [cbn; lia | exact Htl].
  - (* the write ended at the end of an iovec *)
    split; [reflexivity|]. cbn [fst snd].
    apply Hgath; try reflexivity.
    + cbn [iov set_msglist]. fold left.
      replace res' with 0 by lia. reflexivity.
    + exact H3.
Qed.

End WireFacts.

(** Eight bytes are written of a message of five bytes of the write buffer
    and seven of an item: four bytes of the item are left. *)
Lemma transmit_sends_prefix_witness :
  let L := Connection.linux_limits in
  let r := Connection.transmit (Connection.IoOutcome 8 Connection.EOTHER) true
             Wire.two_iovecs in
  r.2 = Connection.TRANSMIT_INCOMPLETE
  /\ Wire.msg_gathered r.1 0
     = [Connection.PMem 103; Connection.PMem 104; Connection.PMem 105;
        Connection.PMem 106].
Proof.
  intros L r.
  assert (Hused : (Connection.msgcurr Wire.two_iovecs
                   < Connection.msgused Wire.two_iovecs)%nat) by (cbn; lia).
  assert (Hm : Connection.msglist Wire.two_iovecs
               !! Connection.msgcurr Wire.two_iovecs
               = Some (Connection.Msghdr 0 2 0 0)) by reflexivity.
  assert (Hleft : (0 < Connection.msg_iovlen (Connection.Msghdr 0 2 0 0))%nat)
    by (cbn; lia).
  assert (Hin : (Connection.msg_iov (Connection.Msghdr 0 2 0 0)
                 + Connection.msg_iovlen (Connection.Msghdr 0 2 0 0)
                 <= length (Connection.iov Wire.two_iovecs))%nat) by (cbn; lia).
  assert (Hpos : Forall (fun v => 0 <= Connection.iov_len v)
                   (Connection.msg_iovs Wire.two_iovecs
                      (Connection.msgcurr Wire.two_iovecs))).
  { repeat (constructor; [cbn; lia|]). constructor. }
  assert (Hres : 0 < Connection.io_res (Connection.IoOutcome 8 Connection.EOTHER)
                 <= Connection.iov_bytes
                      (Connection.msg_iovs Wire.two_iovecs
                         (Connection.msgcurr Wire.two_iovecs))) by (cbn; lia).
  pose proof (transmit_sends_prefix _ true Wire.two_iovecs _
                Hused Hm Hleft Hin Hpos Hres) as H.
  cbv zeta in H. destruct H as (H1 & _ & _ & H2 & _).
  subst r. split; [exact H1|]. etransitivity; [exact H2 | reflexivity].
Defined.

(** ** What a UDP reply carries *)

Section PayloadFacts.
Import Int Bytes Connection Wire.
Context {L : limits}.

Lemma bind_seq_lookup {A B} (l : list A) (f : nat -> list B) (h : A -> list B) :
  (forall i x, l !! i = Some x -> f i = h x) ->
  seq 0 (length l) ≫= f = l ≫= h.
Proof.
  induction l as [|x l IH] using rev_ind; intros Hf; [reflexivity|].
  rewrite length_app. cbn [length]. rewrite Nat.add_1_r, seq_S.
  rewrite !bind_app. cbn [Nat.add]. f_equal.
  - apply IH. intros i y Hy. apply Hf.
    rewrite lookup_app_l; [exact Hy | eapply lookup_lt_Some; exact Hy].
  - cbn. rewrite !app_nil_r. apply Hf.
    now rewrite lookup_app_r, Nat.sub_diag by lia.
Qed.

(** The payload of a reply is the payload of its groups. *)
Lemma reply_payload_layout c gs :
  laid_out c gs -> reply_payload c = payload_of gs.
Proof.
  intros Hlo. unfold reply_payload, payload_of.
  destruct Hlo as (Hlen & Hrest). rewrite <- Hlen.
  apply bind_seq_lookup. intros i g Hg. unfold datagram_payload.
  now rewrite (laid_out_msg_iovs c gs i g (conj Hlen Hrest) Hg).
Qed.

Lemma payload_of_snoc gs g :
  payload_of (gs ++ [g]) = payload_of gs ++ gathered (tail g).
Proof.
  unfold payload_of. rewrite bind_app. cbn. now rewrite app_nil_r.
Qed.

Lemma gathered_snoc l v : gathered (l ++ [v]) = gathered l ++ iovec_addrs v.
Proof. unfold gathered. rewrite bind_app. cbn. now rewrite app_nil_r. Qed.

(** A fragment appended to the last message of a reply is appended to its
    payload. *)
Lemma append_iov_payload c buf len st :
  udp_reply c -> (iovused c < iovsize c)%nat ->
  reply_payload (append_iov buf len st c)
  = reply_payload c ++ iovec_addrs (Iovec buf len).
Proof.
  intros (gs & Hlay & Hne & _) Hroom.
  destruct Hlay as (_ & _ & _ & _ & _ & Hil & _ & _ & Hlo & Hok).
  destruct (exists_last Hne) as (gs0 & g & ->).
  pose proof (append_iov_laid_out c gs0 g buf len st Hlo ltac:(lia)) as Hlo'.
  rewrite (reply_payload_layout _ _ Hlo), (reply_payload_layout _ _ Hlo').
  rewrite !payload_of_snoc, <- app_assoc. f_equal.
  apply Forall_app in Hok as [_ Hg]. rewrite Forall_singleton in Hg.
  destruct Hg as (rest & -> & _). cbn [tail app]. apply gathered_snoc.
Qed.

(** [add_msghdr] on a UDP reply leaves its payload as it is. *)
Lemma add_msghdr_with_payload f c gs :
  reply_layout c gs ->
  exists c' r,
    add_msghdr_with (add_iov_fuel (S f)) c = Some (c', r)
    /\ reply_payload c' = reply_payload c.
Proof.
  intros Hlay.
  pose proof Hlay as (Hudp & Hmax & _ & _ & _ & _ & _ & _ & Hlo & Hok).
  unfold add_msghdr_with.
  destruct (open_msghdr_spec c gs Hlay) as [(Hr & Hl & Hb & Hroom)|Hopen];
    cbv zeta in *; destruct (open_msghdr c) as [c1 r1]; cbn [fst snd] in *.
  { subst r1. cbn [Z.eqb negb]. eexists _, _. split; [reflexivity|].
    destruct Hl as (_ & _ & _ & _ & _ & _ & _ & _ & Hlo1 & _).
    now rewrite (reply_payload_layout _ _ Hlo), (reply_payload_layout _ _ Hlo1). }
  destruct Hopen as (-> & Hudp1 & Hml1 & Hms1 & Hmu1 & Hmu1' & Hil1 & Hiu1 & Hiu1'
                     & Hh1 & Hlo1 & Hmb1 & Hens1 & Hlast1 & Hroom1).
  cbn [Z.eqb negb]. rewrite Hudp1.
  cbn [add_iov_fuel].
  assert (Hidx : (msgused c1 - 1)%nat = msgused c) by lia.
  rewrite Hidx, (list_lookup_total_correct _ _ _ Hlast1), Hudp1, Hmb1.
  cbn [msg_iovlen orb andb].
  rewrite bool_decide_eq_false_2 by lia.
  change (0 >=? UDP_MAX_PAYLOAD_SIZE) with false. cbn [orb].
  rewrite Hens1. cbn [Z.eqb negb]. rewrite Hmb1.
  change (UDP_HEADER_SIZE + 0 >? UDP_MAX_PAYLOAD_SIZE) with false.
  cbn [andb]. change (0 >? 0) with false. cbv iota.
  change (UDP_HEADER_SIZE - 0) with UDP_HEADER_SIZE.
  eexists _, _. split; [reflexivity|].
  pose proof (append_iov_laid_out c1 gs [] PNull UDP_HEADER_SIZE false Hlo1
                ltac:(lia)) as Hlo2.
  rewrite (reply_payload_layout _ _ Hlo), (reply_payload_layout _ _ Hlo2).
  rewrite payload_of_snoc. cbn. now rewrite app_nil_r.
Qed.

Lemma iovec_addrs_split buf len k :
  0 <= k <= len ->
  iovec_addrs (Iovec buf len)
  = iovec_addrs (Iovec buf k) ++ iovec_addrs (Iovec (ptr_add buf k) (len - k)).
Proof.
  intros Hk.
  pose proof (iovec_addrs_advance (Iovec buf len) k) as Hadv.
  cbn [iov_base iov_len] in Hadv. rewrite Hadv by lia. clear Hadv.
  rewrite <- (take_drop (Z.to_nat k) (iovec_addrs (Iovec buf len))) at 1.
  f_equal. unfold iovec_addrs. cbn [iov_base iov_len].
  rewrite <- fmap_take. f_equal.
  rewrite take_seq. f_equal. lia.
Qed.

(** [add_iov] on a UDP reply under construction: when it returns 0 the
    payload of the reply is the payload there was followed by the bytes of
    the fragment. *)
Lemma add_iov_fuel_payload fuel : forall buf len st c c' r,
  udp_reply c -> 0 <= len -> (iov_room c + 2 <= fuel)%nat ->
  add_iov_fuel fuel buf len st c = Some (c', r) ->
  exists k, 0 <= k <= len /\ (r = 0 -> k = len)
    /\ reply_payload c' = reply_payload c ++ iovec_addrs (Iovec buf k).
Proof.
  induction fuel as [|f IH]; intros buf len st c c' r Hrep Hlen Hfuel Hrun; [lia|].
  pose proof Hrep as (gs & Hlay & Hne & Hlast).
  pose proof Hlay as (Hudp & _).
  cbn [add_iov_fuel] in Hrun. rewrite Hudp in Hrun. cbn [orb andb] in Hrun.
  destruct f as [|f']; [lia|].
  (* a new message when the last one is full *)
  match type of Hrun with context [if ?b then fst <$> _ else Some c] =>
    assert (Hnext : exists c1,
      (if b then fst <$> add_msghdr_with (add_iov_fuel (S f')) c else Some c) = Some c1
      /\ udp_reply c1 /\ (iov_room c1 <= iov_room c)%nat
      /\ reply_payload c1 = reply_payload c)
  end.
  { destruct (_ || _).
    - destruct (add_msghdr_with_spec f' c gs Hlay) as (c1 & r1 & E & Hcase).
      destruct (add_msghdr_with_payload f' c gs Hlay) as (c1' & r1' & E' & Hpay).
      rewrite E in E'. injection E' as <- <-. rewrite E.
      exists c1. split; [reflexivity|].
      destruct Hcase as [(_ & Hl1 & Hb1 & Hr1)|(_ & Hrep1 & Hr1)].
      + split; [|split; [exact Hr1 | exact Hpay]].
        exists gs. split; [exact Hl1|]. split; [exact Hne|].
        intros g Hg. rewrite Hb1. now apply Hlast.
      + split; [exact Hrep1 | split; [lia | exact Hpay]].
    - exists c. split; [reflexivity|]. split; [exact Hrep | split; [lia | reflexivity]]. }
  destruct Hnext as (c1 & Enext & Hrep1 & Hroom1 & Hpay1).
  rewrite Enext in Hrun. clear Enext gs Hlay Hne Hlast.
  (* room for one more iovec *)
  pose proof Hrep1 as (gs & Hlay1 & Hne1 & Hlast1).
  pose proof Hlay1 as (Hudp1 & _ & _ & _ & _ & Hil1 & Hiu1 & _ & Hlo1 & _).
  destruct (ensure_iov_space_layout c1 gs Hlay1) as (Hlay2 & Hmb2).
  destruct (ensure_iov_space_spec c1 Hil1 Hiu1) as (Hsame & _ & _ & Hroom2 & Hres).
  cbv zeta in *. destruct (ensure_iov_space c1) as [c2 r2]. cbn [fst snd] in *.
  assert (Hrep2 : udp_reply c2).
  { exists gs. split; [exact Hlay2|]. split; [exact Hne1|].
    intros g Hg. rewrite Hmb2. now apply Hlast1. }
  assert (Hpay2 : reply_payload c2 = reply_payload c).
  { rewrite <- Hpay1.
    destruct Hlay2 as (_ & _ & _ & _ & _ & _ & _ & _ & Hlo2 & _).
    now rewrite (reply_payload_layout _ _ Hlo1), (reply_payload_layout _ _ Hlo2). }
  destruct Hres as [(-> & Hlt & _)|(-> & _)]; cbn [Z.eqb negb] in Hrun.
  2:{ injection Hrun as <- <-. exists 0. split; [lia|]. split; [discriminate|].
      rewrite Hpay2. unfold iovec_addrs. cbn. now rewrite app_nil_r. }
  assert (Hiu2 : iovused c2 = iovused c1) by apply Hsame.
  pose proof (udp_reply_msgbytes c2 Hrep2) as Hmb.
  (* the part of the fragment that fits *)
  set (leftover := if len + msgbytes c2 >? UDP_MAX_PAYLOAD_SIZE
                   then len + msgbytes c2 - UDP_MAX_PAYLOAD_SIZE else 0) in *.
  assert (Hleft : 0 <= leftover /\ 0 <= len - leftover
                  /\ msgbytes c2 + (len - leftover) <= UDP_MAX_PAYLOAD_SIZE).
  { subst leftover. destruct (Z.gtb_spec (len + msgbytes c2) UDP_MAX_PAYLOAD_SIZE); lia. }
  destruct Hleft as (Hl0 & Hl1 & Hl2).
  destruct (append_iov_udp_reply c2 buf (len - leftover) st Hrep2 ltac:(lia) Hl1 Hl2)
    as (Hrep3 & Hroom3).
  pose proof (append_iov_payload c2 buf (len - leftover) st Hrep2 ltac:(lia))
    as Hpay3.
  destruct (Z.gtb_spec leftover 0) as [Hmore|Hnone].
  - assert (Hf : (iov_room (append_iov buf (len - leftover) st c2) + 2
                  <= S f')%nat) by lia.
    destruct (IH _ _ _ _ _ _ Hrep3 Hl0 Hf Hrun) as (k & Hk & Hk0 & Hpay).
    exists (len - leftover + k). split; [lia|]. split; [intros Hr; specialize (Hk0 Hr); lia|].
    rewrite Hpay, Hpay3, Hpay2, <- app_assoc. f_equal.
    rewrite (iovec_addrs_split buf (len - leftover + k) (len - leftover)) by lia.
    do 3 f_equal. lia.
  - injection Hrun as <- <-. exists len. split; [lia|]. split; [done|].
    rewrite Hpay3, Hpay2. do 3 f_equal. lia.
Qed.

Lemma built_building c bytes : built c bytes -> building c.
Proof.
  induction 1 as [c c' Hs Ha | c bytes buf len st c' _ IH Hlen Ha].
  - eapply building_first; eassumption.
  - eapply building_more; eassumption.
Qed.

Lemma built_payload c bytes : built c bytes -> reply_payload c = bytes.
Proof.
  induction 1 as [c c' Hs Ha | c bytes buf len st c' Hb IH Hlen Ha].
  - unfold add_msghdr in Ha.
    replace (iov_room c + 2)%nat with (S (S (iov_room c))) in Ha by lia.
    destruct (add_msghdr_with_payload (S (iov_room c)) c []
                (reply_start_layout c Hs)) as (c1 & r1 & E & Hpay).
    rewrite E in Ha. injection Ha as <- _. rewrite Hpay.
    destruct Hs as (_ & _ & Hmu & _). unfold reply_payload. now rewrite Hmu.
  - pose proof (building_udp_reply c (built_building c bytes Hb)) as Hrep.
    unfold add_iov in Ha.
    destruct (add_iov_fuel_payload _ _ _ _ _ _ _ Hrep Hlen (Nat.le_refl _) Ha)
      as (k & Hk & Hk0 & Hpay).
    rewrite Hpay, IH, (Hk0 eq_refl). reflexivity.
Qed.

Lemma payload_of_imap (f : nat -> list iovec -> list iovec) gs :
  (forall i g, tail (f i g) = tail g) -> payload_of (imap f gs) = payload_of gs.
Proof.
  revert f. induction gs as [|g gs IH]; intros f Hf; [reflexivity|].
  cbn [imap]. unfold payload_of in *. rewrite !bind_cons, Hf. f_equal.
  apply IH. intros i g'. apply Hf.
Qed.

Lemma payload_of_stamp k gs : payload_of (stamp k gs) = payload_of gs.
Proof.
  unfold stamp. apply payload_of_imap. intros i g.
  now destruct (bool_decide (i < k)%nat).
Qed.

(** X12.  A UDP reply built by [add_msghdr] and [add_iov] calls that all
    return 0, then given its headers by [build_udp_headers]: the bytes its
    datagrams carry after their headers, datagram after datagram, are the
    bytes of the fragments given to [add_iov], in the order of the calls,
    however [add_iov] split them; [build_udp_headers] changes none of them;
    and no datagram carries more than [UDP_MAX_PAYLOAD_SIZE] less the
    header. *)
Theorem udp_reply_carries_fragments (c c' : conn) (bytes : list ptr)
    (Hbuilt : built c bytes)
    (Hhdrs : build_udp_headers c = (c', 0)) :
  reply_payload c = bytes
  /\ reply_payload c' = bytes
  /\ msgused c' = msgused c
  /\ forall i, (i < msgused c')%nat ->
       Z.of_nat (length (datagram_payload c' i))
       <= UDP_MAX_PAYLOAD_SIZE - UDP_HEADER_SIZE.
Proof.
  pose proof (built_payload c bytes Hbuilt) as Hpay.
  destruct (building_udp_reply c (built_building c bytes Hbuilt))
    as (gs & Hlay & _ & _).
  destruct (build_udp_headers_built c gs c' Hlay Hhdrs)
    as (c0 & Emu & _ & Hb).
  pose proof Hlay as (_ & _ & _ & _ & _ & _ & _ & _ & Hlo & Hok).
  pose proof Hb as (Emu' & _ & _ & _ & _ & Hlo' & _).
  split; [exact Hpay|]. split; [|split; [congruence|]].
  - rewrite (reply_payload_layout _ _ Hlo'), payload_of_stamp.
    now rewrite <- (reply_payload_layout _ _ Hlo).
  - intros i Hi.
    destruct Hlo as (Hlen & _).
    destruct (lookup_lt_is_Some_2 gs i) as [g Hg]; [lia|].
    pose proof (stamp_lookup (msgused c) gs i g Hg) as Hs.
    rewrite bool_decide_eq_true_2 in Hs by lia.
    unfold datagram_payload.
    rewrite (laid_out_msg_iovs _ _ _ _ Hlo' Hs). cbn [tail].
    destruct (proj1 (Forall_lookup _ _) Hok i g Hg) as (rest & -> & Hpos & Hsum).
    cbn [tail]. rewrite (length_gathered _ Hpos).
    cbn [iov_bytes foldr iov_len] in Hsum. unfold iov_bytes.
    unfold UDP_MAX_PAYLOAD_SIZE, UDP_HEADER_SIZE in *. lia.
Qed.

End PayloadFacts.

(** A reply of 2000 bytes of the write buffer on a fresh UDP connection:
    its two datagrams carry the 2000 bytes in order. *)
Lemma udp_reply_carries_fragments_witness :
  let L := Connection.linux_limits in
  let c0 := Connection.udp_conn in
  let c1 := match Connection.add_msghdr c0 with
            | Some (x, _) => x | None => c0 end in
  let c2 := match Connection.add_iov (Connection.PWbuf 0) 2000 true c1 with
            | Some (x, _) => x | None => c1 end in
  let c3 := (Connection.build_udp_headers c2).1 in
  Connection.msgused c3 = 2%nat
  /\ Wire.reply_payload c3
     = Wire.iovec_addrs (Connection.Iovec (Connection.PWbuf 0) 2000)
  /\ length (Wire.datagram_payload c3 0) = 1392%nat.
Proof.
  intros L c0 c1 c2 c3.
  assert (Hs : Connection.reply_start c0).
  { unfold Connection.reply_start. split_and!; try reflexivity; cbn; lia. }
  assert (H1 : Connection.add_msghdr c0 = Some (c1, 0))
    by (vm_compute; reflexivity).
  assert (H2 : Connection.add_iov (Connection.PWbuf 0) 2000 true c1
               = Some (c2, 0))
    by (vm_compute; reflexivity).
  assert (Hb : Wire.built c2
                 ([] ++ Wire.iovec_addrs
                          (Connection.Iovec (Connection.PWbuf 0) 2000))).
  { eapply Wire.built_more; [eapply Wire.built_first; [exact Hs | exact H1] | | exact H2].
    lia. }
  assert (H3 : Connection.build_udp_headers c2 = (c3, 0))
    by (vm_compute; reflexivity).
  destruct (udp_reply_carries_fragments c2 c3 _ Hb H3) as (_ & Hpay & _ & _).
  split_and!; [vm_compute; reflexivity | exact Hpay | vm_compute; reflexivity].
Defined.

(** ** Deferred deletes *)

Section DeleteFacts.
Import Int Bytes Store Connection Commands.

Lemma now_free_if_unreferenced p s : now (free_if_unreferenced p s) = now s.
Proof.
  unfold free_if_unreferenced.
  destruct (heap s !! p) as [it|]; [|reflexivity].
  destruct (_ && _); reflexivity.
Qed.

Lemma now_do_item_deref p s : now (do_item_deref p s) = now s.
Proof. unfold do_item_deref. now rewrite now_free_if_unreferenced. Qed.

Lemma now_do_item_unlink p s : now (do_item_unlink p s) = now s.
Proof.
  unfold do_item_unlink. destruct (heap s !! p) as [it|]; [|reflexivity].
  destruct (it_linked it); [|reflexivity].
  now rewrite now_free_if_unreferenced.
Qed.

(** Unlinking only takes keys out of the index. *)
Lemma assoc_do_item_unlink_sub p s k v :
  assoc (do_item_unlink p s) !! k = Some v -> assoc s !! k = Some v.
Proof.
  unfold do_item_unlink. destruct (heap s !! p) as [it|]; [|done].
  destruct (it_linked it); [|done].
  rewrite assoc_free_if_unreferenced. cbn [assoc].
  intros H. apply lookup_delete_Some in H. tauto.
Qed.

Lemma assoc_do_item_unlink_linked p s it :
  heap s !! p = Some it -> it_linked it = true ->
  assoc (do_item_unlink p s) !! it_key it = None.
Proof.
  intros Hp Hl. unfold do_item_unlink. rewrite Hp, Hl.
  rewrite assoc_free_if_unreferenced. cbn [assoc]. apply lookup_delete_eq.
Qed.

(** What the loop does with an item whose lock is over, seen from the
    other items, from the clock and from the index. *)
Lemma reap_heap_ne f p r s :
  p <> r ->
  heap (do_item_deref p (do_item_unlink p
          (with_heap (alter f p (heap s)) s))) !! r = heap s !! r.
Proof.
  intros Hne. rewrite heap_do_item_deref_ne, heap_do_item_unlink_ne by done.
  cbn [heap with_heap]. now apply lookup_alter_ne.
Qed.

Lemma reap_now f p s :
  now (do_item_deref p (do_item_unlink p
         (with_heap (alter f p (heap s)) s))) = now s.
Proof. now rewrite now_do_item_deref, now_do_item_unlink. Qed.

Lemma reap_assoc_sub f p s k v :
  assoc (do_item_deref p (do_item_unlink p
           (with_heap (alter f p (heap s)) s))) !! k = Some v ->
  assoc s !! k = Some v.
Proof.
  rewrite assoc_do_item_deref. intros H.
  apply assoc_do_item_unlink_sub in H. exact H.
Qed.

Lemma reap_assoc_linked p s it :
  heap s !! p = Some it -> it_linked it = true ->
  assoc (do_item_deref p (do_item_unlink p
           (with_heap (alter (with_deleted false) p (heap s)) s)))
    !! it_key it = None.
Proof.
  intros Hp Hl. rewrite assoc_do_item_deref.
  apply (assoc_do_item_unlink_linked p _ (with_deleted false it)).
  - cbn [heap with_heap]. now rewrite lookup_alter_eq, Hp.
  - exact Hl.
Qed.

Lemma item_delete_lock_over_ext s s0 p :
  heap s !! p = heap s0 !! p -> now s = now s0 ->
  item_delete_lock_over s p = item_delete_lock_over s0 p.
Proof. intros Hh Hn. unfold item_delete_lock_over. now rewrite Hh, Hn. Qed.

(** The invariant of the compaction loop: the first [j] slots hold the
    items kept so far, the slots from [i] on are as they were, and the
    items still to be visited are untouched in the store. *)
Lemma run_loop_spec s0 : forall n i j td s j' td' s',
  run_loop n i j td s = (j', td', s') ->
  (j <= i)%nat -> (i + n <= length td)%nat ->
  NoDup (take n (drop i td)) ->
  now s = now s0 ->
  (forall p, p ∈ take n (drop i td) -> heap s !! p = heap s0 !! p) ->
  take j' td'
  = take j td ++ filter (fun p => item_delete_lock_over s0 p = false)
                        (take n (drop i td))
  /\ length td' = length td
  /\ (j' <= i + n)%nat
  /\ now s' = now s0
  /\ (forall p, p ∉ take n (drop i td) \/ item_delete_lock_over s0 p = false ->
        heap s' !! p = heap s !! p)
  /\ (forall k v, assoc s' !! k = Some v -> assoc s !! k = Some v)
  /\ (forall p it, p ∈ take n (drop i td) ->
        item_delete_lock_over s0 p = true ->
        heap s0 !! p = Some it -> it_linked it = true ->
        assoc s' !! it_key it = None).
Proof.
  induction n as [|n IH]; intros i j td s j' td' s' Hrun Hji Hlen Hdup Hnow Hheap.
  - cbn in Hrun. simplify_eq. rewrite take_0, filter_nil, app_nil_r.
    split_and!; try done; try lia. intros p it Hp. inversion Hp.
  - destruct (lookup_lt_is_Some_2 td i ltac:(lia)) as [it Hit].
    rewrite (drop_S _ _ _ Hit) in *. cbn [take] in *.
    apply NoDup_cons in Hdup as [Hnin Hdup].
    cbn [run_loop] in Hrun. rewrite Hit in Hrun. cbn [default from_option id] in Hrun.
    assert (Hlock : item_delete_lock_over s it = item_delete_lock_over s0 it).
    { apply item_delete_lock_over_ext; [apply Hheap; left|exact Hnow]. }
    rewrite Hlock in Hrun.
    destruct (item_delete_lock_over s0 it) eqn:Hover.
    + (* the lock is over: the item leaves the queue and the index *)
      apply IH in Hrun; try lia; try exact Hdup.
      * destruct Hrun as (Htake & Hl & Hj & Hn & Hh & Ha & Hgone).
        rewrite filter_cons_False by (rewrite Hover; discriminate).
        split_and!; try done; try lia.
        -- intros p Hp. assert (Hne : it <> p).
           { intros ->. destruct Hp as [Hp|Hp]; [|congruence].
             apply Hp. left. }
           rewrite Hh.
           ++ now apply reap_heap_ne.
           ++ destruct Hp as [Hp|Hp]; [|now right].
              left. intros Hin. apply Hp. now right.
        -- intros k v Hk. apply Ha in Hk. now apply reap_assoc_sub in Hk.
        -- intros p it0 Hp Hov Hp0 Hl0. apply elem_of_cons in Hp as [->|Hp].
           ++ assert (Hs : heap s !! it = Some it0).
              { rewrite Hheap by left. exact Hp0. }
              pose proof (reap_assoc_linked _ _ _ Hs Hl0) as Hnone.
              destruct (assoc s' !! it_key it0) as [v|] eqn:Hv; [|done].
              apply Ha in Hv. congruence.
           ++ now apply (Hgone p).
      * now rewrite reap_now.
      * intros p Hp. rewrite reap_heap_ne; [apply Hheap; now right|].
        intros ->. contradiction.
    + (* still locked: the item is copied down to slot [j] *)
      assert (Hjlt : (j < length td)%nat) by lia.
      apply IH in Hrun; try lia.
      * rewrite drop_insert_lt in Hrun by lia.
        destruct Hrun as (Htake & Hl & Hj & Hn & Hh & Ha & Hgone).
        rewrite filter_cons_True by exact Hover.
        rewrite length_insert in Hl.
        split_and!; try done; try lia.
        -- rewrite Htake.
           rewrite (take_S_r _ _ it) by (now apply list_lookup_insert_eq).
           rewrite take_insert_ge by lia. now rewrite <- app_assoc.
        -- intros p Hp. apply Hh. destruct Hp as [Hp|Hp]; [|now right].
           left. intros Hin. apply Hp. now right.
        -- intros p it0 Hp Hov Hp0 Hl0. apply elem_of_cons in Hp as [->|Hp].
           ++ congruence.
           ++ now apply (Hgone p).
      * rewrite length_insert. lia.
      * rewrite drop_insert_lt by lia. exact Hdup.
      * rewrite drop_insert_lt by lia. intros p Hp. apply Hheap. now right.
Qed.

(** X13.  [do_run_deferred_deletes] on a queue of distinct items: the queue
    afterwards holds, in their order, exactly the items whose delete lock
    is not over, in the same array; those items and every item outside the
    queue are untouched in the store; and each reaped item that was linked
    is out of the index, so that a lookup of its key is a plain miss that
    reports no delete lock. *)
Theorem do_run_deferred_deletes_reaps (q q' : delete_queue) (s s' : cache)
    (Hq : queue_ok q) (Hdup : NoDup (queued q))
    (Hrun : do_run_deferred_deletes q s = (q', s')) :
  queued q' = filter (fun p => item_delete_lock_over s p = false) (queued q)
  /\ queue_ok q' /\ deltotal q' = deltotal q
  /\ (forall p, p ∉ queued q \/ item_delete_lock_over s p = false ->
        heap s' !! p = heap s !! p)
  /\ (forall p it, p ∈ queued q -> item_delete_lock_over s p = true ->
        heap s !! p = Some it -> it_linked it = true ->
        do_item_get_notedeleted (it_key it) s' = (None, false, s')).
Proof.
  destruct Hq as (Hlen & Hcur & Htot).
  unfold do_run_deferred_deletes in Hrun.
  destruct (run_loop (Z.to_nat (delcurr q)) 0 0 (todelete q) s)
    as [[j td] s1] eqn:Hloop.
  simplify_eq.
  apply (run_loop_spec s) in Hloop; try lia; try done.
  rewrite drop_0 in Hloop.
  destruct Hloop as (Htake & Hl & Hj & Hn & Hh & Ha & Hgone).
  unfold queued, queue_ok. cbn [todelete delcurr deltotal].
  rewrite Nat2Z.id. split_and!; try done; try lia.
  intros p it Hp Hov Hp0 Hl0. unfold do_item_get_notedeleted.
  now rewrite (Hgone p it Hp Hov Hp0 Hl0).
Qed.

End DeleteFacts.

Lemma do_run_deferred_deletes_reaps_witness :
  let r := Commands.do_run_deferred_deletes Commands.three_queue
             Commands.three_locked in
  Commands.queued r.1 = [2%nat]
  /\ Store.do_item_get_notedeleted "a" r.2 = (None, false, r.2)
  /\ Store.do_item_get_notedeleted "b" r.2 = (None, true, r.2).
Proof.
  intros r.
  assert (Hq : Commands.queue_ok Commands.three_queue).
  { unfold Commands.queue_ok. cbn. lia. }
  assert (Hdup : NoDup (Commands.queued Commands.three_queue)).
  { apply (bool_decide_unpack _). vm_compute. exact I. }
  destruct (do_run_deferred_deletes_reaps Commands.three_queue r.1
              Commands.three_locked r.2 Hq Hdup)
    as (Hqd & _ & _ & _ & Hgone).
  { subst r. now destruct (Commands.do_run_deferred_deletes _ _). }
  split_and!.
  - rewrite Hqd. vm_compute. reflexivity.
  - apply (Hgone 1%nat (Store.Item "a" [120] 1 0 5 2 2 true true)).
    + apply (bool_decide_unpack _). vm_compute. exact I.
    + vm_compute. reflexivity.
    + vm_compute. reflexivity.
    + reflexivity.
  - vm_compute. reflexivity.
Defined.

(** ** The delete command *)

Section DeleteCommandFacts.
Import Int Bytes Store Connection Commands.
Context {L : limits}.




End DeleteCommandFacts.


(** ** The life of a deferred delete *)

Section DeleteWindowFacts.
Import Int Bytes Store Connection Commands.
Context {L : limits}.




End DeleteWindowFacts.


(** ** Counters: what is stored is what is read back *)

Section CounterFacts.
Import Int Bytes Store Connection Commands.

Lemma of_uint_acc_ge d : forall acc, (acc <= Pos.of_uint_acc d acc)%positive.
Proof.
  induction d; intros acc; cbn [Pos.of_uint_acc]; try lia;
    (etransitivity; [|apply IHd]); lia.
Qed.

Lemma bytes_of_string_cons a str :
  bytes_of_string (String a str) = Z.of_N (N_of_ascii a) :: bytes_of_string str.
Proof. reflexivity. Qed.

(** One digit of [strtoul]: the accumulator takes the digit when the
    number read so far is in range. *)
Lemma strtoul_digits_digit b k acc l :
  b = 48 + k -> 0 <= k <= 9 -> 0 <= acc ->
  acc * 10 + k <= ULONG_MAX ->
  strtoul_digits acc (b :: l) = strtoul_digits (acc * 10 + k) l.
Proof.
  intros -> Hk Hacc Hmax. cbn [strtoul_digits]. unfold is_digit.
  destruct (Z.leb_spec 48 (48 + k)); [|lia].
  destruct (Z.leb_spec (48 + k) 57); [|lia]. cbn [andb].
  rewrite Z.min_r by lia. f_equal. lia.
Qed.

(** The byte of the head character of a string, computed. *)
Ltac head_byte :=
  rewrite bytes_of_string_cons; cbn [app];
  match goal with
  | |- context [Z.of_N (N_of_ascii ?a)] =>
      let v := eval vm_compute in (Z.of_N (N_of_ascii a)) in
      change (Z.of_N (N_of_ascii a)) with v
  end.

Ltac take_digit tac :=
  match goal with
  | |- context [strtoul_digits ?acc (?b :: ?l)] =>
      let k := eval vm_compute in (b - 48) in
      rewrite (strtoul_digits_digit b k acc l); [|reflexivity|lia|lia|tac]
  end.

Lemma strtoul_digits_acc d : forall acc rest,
  Z.pos (Pos.of_uint_acc d acc) <= ULONG_MAX ->
  strtoul_digits (Z.pos acc)
    (bytes_of_string (NilEmpty.string_of_uint d) ++ rest)
  = strtoul_digits (Z.pos (Pos.of_uint_acc d acc)) rest.
Proof.
  induction d; intros acc rest Hmax;
    cbn [NilEmpty.string_of_uint Pos.of_uint_acc] in *; [reflexivity|..];
    match type of Hmax with
    | Z.pos (Pos.of_uint_acc _ ?a) <= _ =>
        pose proof (of_uint_acc_ge d a) as Hge
    end;
    head_byte; take_digit ltac:(lia);
    rewrite <- IHd by exact Hmax; f_equal; lia.
Qed.

Lemma strtoul_digits_of_uint d : forall rest,
  Z.of_N (Pos.of_uint d) <= ULONG_MAX ->
  strtoul_digits 0 (bytes_of_string (NilEmpty.string_of_uint d) ++ rest)
  = strtoul_digits (Z.of_N (Pos.of_uint d)) rest.
Proof.
  induction d; intros rest Hmax;
    cbn [NilEmpty.string_of_uint Pos.of_uint] in *; [reflexivity|..];
    head_byte; take_digit ltac:(vm_compute; discriminate).
  1: now apply IHd.
  all: cbn [Z.of_N] in *; now rewrite <- strtoul_digits_acc.
Qed.

Lemma decimal_digits n :
  NilZero.string_of_uint (N.to_uint n) = NilEmpty.string_of_uint (N.to_uint n).
Proof.
  destruct n as [|p]; [reflexivity|]. cbn [N.to_uint].
  pose proof (Unsigned.to_uint_nonnil p) as Hnil.
  destruct (Pos.to_uint p); [congruence|reflexivity..].
Qed.

(** [strtoul] reads back the number [snprintf] printed, whatever follows
    it. *)
Lemma strtoul_digits_decimal v rest :
  0 <= v <= ULONG_MAX ->
  strtoul_digits 0 (bytes_of_string (decimal v) ++ rest) = strtoul_digits v rest.
Proof.
  intros Hv. unfold decimal. rewrite decimal_digits.
  assert (Hn : Z.of_N (Pos.of_uint (N.to_uint (Z.to_N v))) = v).
  { change (Pos.of_uint (N.to_uint (Z.to_N v)))
      with (N.of_uint (N.to_uint (Z.to_N v))).
    rewrite DecimalN.Unsigned.of_to. lia. }
  rewrite strtoul_digits_of_uint by (rewrite Hn; lia). now rewrite Hn.
Qed.


Lemma oldest_live_free_if_unreferenced p s :
  oldest_live (free_if_unreferenced p s) = oldest_live s.
Proof.
  unfold free_if_unreferenced.
  destruct (heap s !! p) as [it|]; [|reflexivity].
  destruct (_ && _); reflexivity.
Qed.

Lemma oldest_live_do_item_deref p s :
  oldest_live (do_item_deref p s) = oldest_live s.
Proof. unfold do_item_deref. now rewrite oldest_live_free_if_unreferenced. Qed.

Lemma oldest_live_do_item_unlink p s :
  oldest_live (do_item_unlink p s) = oldest_live s.
Proof.
  unfold do_item_unlink. destruct (heap s !! p) as [it|]; [|reflexivity].
  destruct (it_linked it); [|reflexivity].
  now rewrite oldest_live_free_if_unreferenced.
Qed.

Lemma times_do_item_update p s :
  now (do_item_update p s) = now s
  /\ oldest_live (do_item_update p s) = oldest_live s.
Proof.
  unfold do_item_update. destruct (heap s !! p) as [it|]; [|done].
  destruct (it_linked it); done.
Qed.

(** An item that is not expired stays so when the clock and the flush
    mark stay, and its two times with them. *)
Lemma item_expired_ext s s' it it' :
  now s' = now s -> oldest_live s' = oldest_live s ->
  it_exptime it' = it_exptime it -> it_time it' = it_time it ->
  item_expired s' it' = item_expired s it.
Proof. intros Hn Ho He Ht. unfold item_expired. now rewrite Hn, Ho, He, Ht. Qed.

(** [do_add_delta] on an existing item leaves an existing item under the
    key, whose value is the number printed. *)
Lemma do_add_delta_live key incr d s it :
  existing key s it -> oldest_live s < now s ->
  let r := counter_after incr (to_uint32 (item_strtoul it)) d in
  exists s' it', do_add_delta key incr d true s = (decimal r, Some r, s')
    /\ existing key s' it' /\ it_data it' = bytes_of_string (decimal r)
    /\ now s' = now s /\ oldest_live s' = oldest_live s.
Proof.
  intros Hex Hlive r.
  destruct (notedeleted_existing _ _ _ Hex) as (p & Ha & Hh & Hget).
  destruct Hex as (p' & Ha' & Hh' & Hl & Hd & He).
  assert (p' = p) as -> by congruence. clear Ha' Hh'.
  unfold do_add_delta. rewrite Hget. cbn [heap with_heap].
  rewrite lookup_insert_eq.
  change (item_strtoul (pin it)) with (item_strtoul it).
  fold (counter_after incr (to_uint32 (item_strtoul it)) d). fold r.
  set (s1 := with_heap (<[p:=pin it]> (heap s)) s).
  destruct (item_need_realloc (pin it) (strlen (decimal r))
            || (it_refcount (pin it) >? 1)).
  - (* a new item replaces the old one *)
    unfold do_item_alloc.
    set (new := fresh (dom (heap s1))).
    assert (Hnew : heap s1 !! new = None).
    { apply not_elem_of_dom. apply is_fresh. }
    assert (Hne : p <> new).
    { intros Heq. rewrite <- Heq in Hnew. subst s1. cbn [heap with_heap] in Hnew.
      rewrite lookup_insert_eq in Hnew. discriminate. }
    match goal with
    | |- context [do_item_deref new ?X] =>
        assert (Hx : exists it', heap X !! new = Some it' /\ it_linked it' = true
                  /\ it_data it' = bytes_of_string (decimal r)
                  /\ it_deleted it' = false /\ it_exptime it' = it_exptime it
                  /\ it_time it' = now s)
    end.
    { unfold do_item_replace, do_item_link. cbn [heap].
      rewrite lookup_alter_eq, heap_do_item_unlink_ne by done.
      cbn [heap with_heap]. rewrite lookup_alter_eq, lookup_insert_eq.
      eexists. split; [reflexivity|]. split; [reflexivity|].
      split; [|repeat split].
      cbn [with_linked pin with_refcount it_data]. apply item_set_value_data. }
    destruct Hx as (it' & Hx & Hl' & Hd' & Hdel' & He' & Ht').
    eexists. exists (unpin it'). split; [reflexivity|].
    split; [|split; [exact Hd'|]].
    + exists new. split_and!.
      * now rewrite !assoc_do_item_deref, assoc_do_item_replace.
      * rewrite heap_do_item_deref_ne by done.
        now apply heap_do_item_deref_linked.
      * exact Hl'.
      * exact Hdel'.
      * unfold item_expired in *.
        rewrite !now_do_item_deref, !oldest_live_do_item_deref.
        unfold do_item_replace, do_item_link. cbn [now oldest_live].
        rewrite now_do_item_unlink, oldest_live_do_item_unlink.
        cbn [now oldest_live with_heap unpin with_refcount it_exptime it_time].
        change (now s1) with (now s). change (oldest_live s1) with (oldest_live s).
        rewrite He', Ht'. apply orb_false_elim in He as [-> _].
        destruct (Z.leb_spec (now s) (oldest_live s)); [lia|reflexivity].
    + rewrite !now_do_item_deref, !oldest_live_do_item_deref.
      unfold do_item_replace, do_item_link. cbn [now oldest_live].
      now rewrite now_do_item_unlink, oldest_live_do_item_unlink.
  - (* the value is rewritten in place *)
    match goal with
    | |- context [do_item_deref p ?X] =>
        assert (Hx : exists it', heap X !! p = Some it' /\ it_linked it' = true
                  /\ it_data it' = bytes_of_string (decimal r)
                  /\ it_deleted it' = false /\ it_exptime it' = it_exptime it
                  /\ it_time it' = it_time it)
    end.
    { rewrite heap_do_item_update. cbn [heap with_heap].
      rewrite lookup_alter_eq, lookup_insert_eq.
      eexists. split; [reflexivity|]. split; [exact Hl|].
      split; [apply item_set_value_data|]. split; [exact Hd|]. split; reflexivity. }
    destruct Hx as (it' & Hx & Hl' & Hd' & Hdel' & He' & Ht').
    eexists. exists (unpin it'). split; [reflexivity|].
    split; [|split; [exact Hd'|]].
    + exists p. split_and!.
      * now rewrite assoc_do_item_deref, assoc_do_item_update.
      * now apply heap_do_item_deref_linked.
      * exact Hl'.
      * exact Hdel'.
      * rewrite <- He. apply item_expired_ext.
        -- now rewrite now_do_item_deref, (proj1 (times_do_item_update _ _)).
        -- now rewrite oldest_live_do_item_deref,
             (proj2 (times_do_item_update _ _)).
        -- exact He'.
        -- exact Ht'.
    + now rewrite now_do_item_deref, oldest_live_do_item_deref,
        (proj1 (times_do_item_update _ _)), (proj2 (times_do_item_update _ _)).
Qed.

Lemma counter_after_fits incr v d : fits_uint32 (counter_after incr v d).
Proof.
  unfold counter_after.
  destruct (negb (incr =? 0)); [apply to_uint32_range|].
  destruct (d >=? v); [|apply to_uint32_range].
  unfold fits_uint32, UINT32_MAX. lia.
Qed.

(** X16.  A counter is read back as it was written.  Two arithmetic
    operations in a row on an existing item (no flush mark at or after the
    current second, the allocator granting what is asked): the first
    replies and stores the decimal rendering of its result [r1]; the second
    parses exactly [r1] from the stored bytes, so that it replies and
    stores the result of applying its own delta to [r1]. *)
Theorem add_delta_reads_back (key : string) (incr1 d1 incr2 d2 : Z)
    (s : cache) (it : Store.item)
    (Hex : existing key s it) (Hlive : oldest_live s < now s) :
  let r1 := counter_after incr1 (to_uint32 (item_strtoul it)) d1 in
  let r2 := counter_after incr2 r1 d2 in
  exists s1 s2,
    do_add_delta key incr1 d1 true s = (decimal r1, Some r1, s1)
    /\ do_add_delta key incr2 d2 true s1 = (decimal r2, Some r2, s2)
    /\ stored_value key s2 = Some (bytes_of_string (decimal r2)).
Proof.
  intros r1 r2.
  destruct (do_add_delta_live key incr1 d1 s it Hex Hlive)
    as (s1 & it1 & H1 & Hex1 & Hdata1 & Hn1 & Ho1).
  fold r1 in H1, Hdata1.
  assert (Hlive1 : oldest_live s1 < now s1) by lia.
  destruct (do_add_delta_live key incr2 d2 s1 it1 Hex1 Hlive1)
    as (s2 & it2 & H2 & Hex2 & Hdata2 & _ & _).
  assert (Hread : to_uint32 (item_strtoul it1) = r1).
  { pose proof (counter_after_fits incr1 (to_uint32 (item_strtoul it)) d1) as Hf.
    fold r1 in Hf. unfold item_strtoul. rewrite Hdata1.
    rewrite <- (app_nil_r (bytes_of_string (decimal r1))).
    rewrite strtoul_digits_decimal
      by (unfold fits_uint32, UINT32_MAX, ULONG_MAX in *; lia).
    cbn [strtoul_digits]. now apply to_uint32_fits. }
  rewrite Hread in H2, Hdata2. fold r2 in H2, Hdata2.
  exists s1, s2. split; [exact H1|]. split; [exact H2|].
  destruct Hex2 as (p2 & Ha2 & Hh2 & _).
  unfold stored_value, indexed. rewrite Ha2. cbn [mbind option_bind].
  rewrite Hh2. cbn [fmap option_fmap option_map]. now rewrite Hdata2.
Qed.

End CounterFacts.

Lemma add_delta_reads_back_witness :
  exists s1 s2,
    Store.do_add_delta "n" 1 10 true
      (Store.singleton_cache "n" (Bytes.bytes_of_string "5"))
    = ("15", Some 15, s1)
    /\ Store.do_add_delta "n" 0 3 true s1 = ("12", Some 12, s2)
    /\ Store.stored_value "n" s2 = Some (Bytes.bytes_of_string "12").
Proof.
  refine (add_delta_reads_back "n" 1 10 0 3
            (Store.singleton_cache "n" (Bytes.bytes_of_string "5"))
            (Store.Item "n" (Bytes.bytes_of_string "5") 1 0 0 2 1 true false) _ _).
  - exists 0%nat. vm_compute. repeat split; reflexivity.
  - vm_compute. reflexivity.
Defined.

(** ** The arithmetic commands *)

Section ArithCommandFacts.
Import Int Bytes Store Connection Commands.
Context {L : limits}.





End ArithCommandFacts.


(** ** The store: set then get, and the old item's storage *)

Section StoreRoundTripFacts.
Import Int Bytes Store.

Lemma now_do_item_link p key s : now (do_item_link p key s) = now s.
Proof. reflexivity. Qed.

Lemma oldest_live_do_item_link p key s :
  oldest_live (do_item_link p key s) = oldest_live s.
Proof. reflexivity. Qed.

Lemma heap_do_item_link p key s it :
  heap s !! p = Some it ->
  heap (do_item_link p key s) !! p = Some (with_linked true (pin it)).
Proof. intros Hp. cbn [do_item_link heap]. now rewrite lookup_alter_eq, Hp. Qed.

(** What the lookup leaves of an item other than the one the index has
    for the key, and of the two times. *)
Lemma notedeleted_frame key s n :
  assoc s !! key <> Some n ->
  let s1 := (do_item_get_notedeleted key s).2 in
  heap s1 !! n = heap s !! n /\ now s1 = now s
  /\ oldest_live s1 = oldest_live s
  /\ (forall p, (do_item_get_notedeleted key s).1.1 = Some p -> p <> n)
  /\ ((do_item_get_notedeleted key s).1.2 = true ->
        exists p, assoc s1 !! key = Some p /\ p <> n).
Proof.
  intros Hn. unfold do_item_get_notedeleted.
  destruct (assoc s !! key) as [p|] eqn:Ha; [|cbn; split_and!; done].
  assert (Hne : p <> n) by congruence.
  destruct (heap s !! p) as [it|] eqn:Hp; [|cbn; split_and!; done].
  destruct (it_deleted it); cbn [fst snd].
  - split_and!; try done. intros _. now exists p.
  - destruct (item_expired s it); cbn [fst snd].
    + rewrite heap_do_item_unlink_ne, now_do_item_unlink,
        oldest_live_do_item_unlink by done.
      split_and!; done.
    + cbn [heap with_heap now oldest_live].
      rewrite lookup_insert_ne by done. split_and!; try done. congruence.
Qed.

(** The end of [do_store_item] when it stores: the new item is linked
    under the key, whatever the old one was. *)
Lemma store_tail (old : option nat) n key s itn :
  heap s !! n = Some itn -> old <> Some n ->
  let s2 := match old with
            | Some o => do_item_replace o n key s
            | None => do_item_link n key s
            end in
  let s3 := match old with Some o => do_item_deref o s2 | None => s2 end in
  assoc s3 !! key = Some n
  /\ heap s3 !! n = Some (with_linked true (pin itn))
  /\ now s3 = now s /\ oldest_live s3 = oldest_live s.
Proof.
  intros Hn Hold. destruct old as [o|]; cbn zeta.
  - assert (Hne : o <> n) by congruence.
    rewrite assoc_do_item_deref, assoc_do_item_replace.
    rewrite heap_do_item_deref_ne by done.
    rewrite now_do_item_deref, oldest_live_do_item_deref.
    unfold do_item_replace.
    rewrite now_do_item_link, oldest_live_do_item_link,
      now_do_item_unlink, oldest_live_do_item_unlink.
    split_and!; try done. apply heap_do_item_link.
    now rewrite heap_do_item_unlink_ne.
  - split_and!; try done; [apply assoc_do_item_link|now apply heap_do_item_link].
Qed.

(** X18.  Set, then get.  [do_store_item] with [NREAD_SET] and a new item
    (in memory, not delete-locked, not the one the index holds for the
    key) always stores, whatever the key held (nothing, a live item, an
    expired item, a delete-locked item), and leaves the new item under the
    key.  The lookup that follows returns the new item, with the value it
    was given and no delete lock, when the new item is not expired; when it
    is (a set with an exptime in the past), the lookup misses and unlinks
    it. *)
Theorem set_then_get (n : nat) (key : string) (s : cache) (itn : item)
    (Hn : heap s !! n = Some itn)
    (Hfresh : assoc s !! key <> Some n)
    (Hdel : it_deleted itn = false) :
  let r := do_store_item n NREAD_SET key s in
  r.1 = 1 /\ assoc r.2 !! key = Some n
  /\ (item_expired s itn = false ->
        exists s', do_item_get_notedeleted key r.2 = (Some n, false, s')
          /\ it_data <$> heap s' !! n = Some (it_data itn))
  /\ (item_expired s itn = true ->
        do_item_get_notedeleted key r.2 = (None, false, do_item_unlink n r.2)).
Proof.
  intros r.
  destruct (notedeleted_frame key s n Hfresh) as (Hh & Hnow & Hold & Hp & Hlock).
  assert (Hr : r.1 = 1 /\ assoc r.2 !! key = Some n
               /\ heap r.2 !! n = Some (with_linked true (pin itn))
               /\ now r.2 = now s /\ oldest_live r.2 = oldest_live s).
  { subst r. unfold do_store_item.
    destruct (do_item_get_notedeleted key s) as [[old locked] s1].
    cbn [fst snd] in *. rewrite <- Hh in Hn.
    replace (bool_decide (old <> None) && comm_eqb NREAD_SET NREAD_ADD)
      with false by (cbn; now rewrite andb_false_r).
    replace (bool_decide (old = None) && comm_eqb NREAD_SET NREAD_REPLACE)
      with false by (cbn; now rewrite andb_false_r).
    replace (locked && (comm_eqb NREAD_SET NREAD_REPLACE
                        || comm_eqb NREAD_SET NREAD_ADD))
      with false by (cbn; now rewrite andb_false_r).
    destruct locked.
    - (* the set overrides the delete lock *)
      destruct (Hlock eq_refl) as (p & Ha & Hne).
      unfold do_item_get_nocheck. rewrite Ha. cbn [fst snd].
      assert (Hn' : heap (with_heap (alter pin p (heap s1)) s1) !! n = Some itn).
      { cbn [heap with_heap]. now rewrite lookup_alter_ne. }
      destruct (store_tail (Some p) n key _ itn Hn' ltac:(congruence))
        as (H1 & H2 & H3 & H4).
      split; [reflexivity|]. split; [exact H1|]. split; [exact H2|].
      cbn [now oldest_live with_heap] in H3, H4. split; congruence.
    - assert (Ho : old <> Some n).
      { intros ->. now apply (Hp n). }
      destruct (store_tail old n key s1 itn Hn Ho) as (H1 & H2 & H3 & H4).
      destruct old as [o|]; cbn [fst snd];
        (split; [reflexivity|]); (split; [exact H1|]); (split; [exact H2|]);
        split; congruence. }
  destruct Hr as (Hst & Ha & Hheap & Hnow' & Hold').
  split; [exact Hst|]. split; [exact Ha|].
  assert (Hexp : item_expired r.2 (with_linked true (pin itn))
                 = item_expired s itn)
    by (now apply item_expired_ext).
  unfold do_item_get_notedeleted. rewrite Ha, Hheap.
  change (it_deleted (with_linked true (pin itn))) with (it_deleted itn).
  rewrite Hdel, Hexp.
  split; intros ->.
  - eexists. split; [reflexivity|].
    cbn [heap with_heap]. now rewrite lookup_insert_eq.
  - reflexivity.
Qed.

(** X19.  A set over a live item releases it.  Afterwards the old item is
    out of the index and unlinked, and its storage is freed exactly when
    the index held the only reference: an item some connection still holds
    stays in memory, with that holder's references, until it is
    released. *)
Theorem set_releases_old_item (n o : nat) (key : string) (s : cache)
    (ito : item)
    (Ha : assoc s !! key = Some o) (Ho : heap s !! o = Some ito)
    (Hl : it_linked ito = true) (Hd : it_deleted ito = false)
    (He : item_expired s ito = false) (Hne : n <> o) :
  let r := do_store_item n NREAD_SET key s in
  r.1 = 1 /\ assoc r.2 !! key = Some n
  /\ heap r.2 !! o
     = if it_refcount ito <=? 1 then None
       else Some (with_linked false (unpin ito)).
Proof.
  intros r. subst r. unfold do_store_item, do_item_get_notedeleted.
  rewrite Ha, Ho, Hd, He. cbn [comm_eqb orb].
  rewrite !andb_false_r. cbn [fst snd].
  split; [reflexivity|]. split.
  { now rewrite assoc_do_item_deref, assoc_do_item_replace. }
  set (s1 := with_heap (<[o:=pin ito]> (heap s)) s).
  assert (Hu : heap (do_item_unlink o s1) !! o
               = if it_refcount ito <=? 0 then None
                 else Some (with_linked false (with_refcount (it_refcount ito) ito))).
  { unfold do_item_unlink. subst s1. cbn [heap with_heap].
    rewrite lookup_insert_eq.
    change (it_linked (pin ito)) with (it_linked ito). rewrite Hl.
    unfold free_if_unreferenced. cbn [heap]. rewrite lookup_insert_eq.
    change (it_refcount (with_linked false (unpin (pin ito))))
      with (it_refcount ito + 1 - 1).
    change (it_linked (with_linked false (unpin (pin ito)))) with false.
    cbn [negb]. rewrite andb_true_r.
    replace (it_refcount ito + 1 - 1) with (it_refcount ito) by lia.
    destruct (it_refcount ito <=? 0); cbn [heap with_heap].
    - apply lookup_delete_eq.
    - rewrite lookup_insert_eq. f_equal.
      unfold with_linked, unpin, pin, with_refcount. destruct ito.
      cbn [it_key it_data it_slot it_flags it_exptime it_time it_refcount
           it_linked it_deleted].
      f_equal. lia. }
  unfold do_item_replace, do_item_deref, free_if_unreferenced.
  cbn [heap with_heap do_item_link].
  rewrite lookup_alter_eq, lookup_alter_ne, Hu by done.
  destruct (Z.leb_spec (it_refcount ito) 0) as [H0|H0].
  - cbn [fmap option_fmap option_map heap with_heap]. rewrite lookup_alter_eq.
    rewrite lookup_alter_ne, Hu by done.
    destruct (Z.leb_spec (it_refcount ito) 0); [|lia].
    destruct (Z.leb_spec (it_refcount ito) 1); [reflexivity|lia].
  - cbn [fmap option_fmap option_map unpin with_linked with_refcount
           it_refcount it_linked negb].
    rewrite andb_true_r.
    destruct (Z.leb_spec (it_refcount ito - 1) 0) as [H1|H1];
      destruct (Z.leb_spec (it_refcount ito) 1) as [H2|H2]; try lia;
      cbn [heap with_heap].
    + apply lookup_delete_eq.
    + rewrite lookup_alter_eq, lookup_alter_ne, Hu by done.
      destruct (Z.leb_spec (it_refcount ito) 0); [lia|].
      destruct ito; reflexivity.
Qed.

End StoreRoundTripFacts.

(** A set of value "y" over a key holding "x", and a set of an item whose
    expiration time, second 5, has passed at second 10. *)
Lemma set_then_get_witness :
  (let r := Store.do_store_item 1 Store.NREAD_SET "k" Store.pending_cache in
   r.1 = 1
   /\ exists s', Store.do_item_get_notedeleted "k" r.2 = (Some 1%nat, false, s')
        /\ Store.it_data <$> Store.heap s' !! 1%nat = Some [121])
  /\ (let r := Store.do_store_item 1 Store.NREAD_SET "k" Store.past_cache in
      r.1 = 1 /\ Store.assoc r.2 !! "k" = Some 1%nat
      /\ Store.do_item_get_notedeleted "k" r.2
         = (None, false, Store.do_item_unlink 1 r.2)).
Proof.
  split.
  - destruct (set_then_get 1 "k" Store.pending_cache
                (Store.Item "k" [121] 1 0 0 10 1 false false))
      as (H1 & _ & H2 & _).
    + vm_compute. reflexivity.
    + vm_compute. discriminate.
    + reflexivity.
    + split; [exact H1|]. apply H2. vm_compute. reflexivity.
  - destruct (set_then_get 1 "k" Store.past_cache
                (Store.Item "k" [121] 1 0 5 10 1 false false))
      as (H1 & H2 & _ & H3).
    + vm_compute. reflexivity.
    + vm_compute. discriminate.
    + reflexivity.
    + split; [exact H1|]. split; [exact H2|]. apply H3. vm_compute. reflexivity.
Defined.

Lemma set_releases_old_item_witness :
  let r := Store.do_store_item 1 Store.NREAD_SET "k" Store.pending_cache in
  r.1 = 1 /\ Store.assoc r.2 !! "k" = Some 1%nat
  /\ Store.heap r.2 !! 0%nat = None.
Proof.
  refine (set_releases_old_item 1 0 "k" Store.pending_cache
            (Store.Item "k" [120] 1 0 0 2 1 true false) _ _ _ _ _ _).
  - vm_compute. reflexivity.
  - vm_compute. reflexivity.
  - reflexivity.
  - reflexivity.
  - vm_compute. reflexivity.
  - discriminate.
Defined.

(** ** Closing a connection: the references it held *)

Section ClosingFacts.
Import Int Bytes Store Connection Closing.

(** Releasing a list of references, seen from an item of the index. *)
Lemma deref_all_linked (l : list nat) : forall s p it,
  heap s !! p = Some it -> it_linked it = true ->
  heap (foldl (fun s q => do_item_deref q s) s l) !! p
  = Some (with_refcount
            (it_refcount it - Z.of_nat (count_occ Nat.eq_dec l p)) it)
  /\ assoc (foldl (fun s q => do_item_deref q s) s l) = assoc s.
Proof.
  induction l as [|q l IH]; intros s p it Hp Hl; cbn [foldl count_occ].
  - split; [|reflexivity]. rewrite Hp. f_equal.
    unfold with_refcount. destruct it; cbn. f_equal; lia.
  - destruct (Nat.eq_dec q p) as [->|Hne].
    + pose proof (heap_do_item_deref_linked p s it Hp Hl) as Hd.
      destruct (IH _ p (unpin it) Hd Hl) as [Hh Ha].
      rewrite Hh, Ha, assoc_do_item_deref. split; [|reflexivity]. f_equal.
      unfold unpin, with_refcount. destruct it; cbn. f_equal; lia.
    + assert (Hd : heap (do_item_deref q s) !! p = Some it)
        by (now rewrite heap_do_item_deref_ne).
      destruct (IH _ p it Hd Hl) as [Hh Ha].
      now rewrite Hh, Ha, assoc_do_item_deref.
Qed.

(** The release loop gives back the [ileft] items from [icurr] on. *)
Lemma release_items_all : forall n c s,
  ileft c = n -> (icurr c + n <= length (ilist c))%nat ->
  exists c',
    release_items n c s
    = (c', foldl (fun s q => do_item_deref q s) s
             (take n (drop (icurr c) (ilist c))))
    /\ ileft c' = 0%nat /\ item c' = item c
    /\ write_and_free c' = write_and_free c /\ rbuf c' = rbuf c
    /\ iov c' = iov c.
Proof.
  induction n as [|n IH]; intros c s Hn Hlen.
  - exists c. cbn [release_items take foldl]. now rewrite Hn.
  - cbn [release_items]. rewrite Hn.
    rewrite bool_decide_eq_true_2 by lia.
    destruct (lookup_lt_is_Some_2 (ilist c) (icurr c) ltac:(lia)) as [q Hq].
    rewrite Hq, (drop_S _ _ _ Hq). cbn [take foldl].
    set (c2 := set_ileft (S n - 1) (set_icurr (S (icurr c)) c)).
    destruct (IH c2 (do_item_deref q s)) as (c' & Hrel & H0 & Hi & Hw & Hr & Hv).
    + subst c2. cbn [ileft set_ileft]. lia.
    + subst c2. cbn [icurr ilist set_ileft set_icurr]. lia.
    + exists c'. rewrite Hrel. split_and!; done.
Qed.

(** X20.  [conn_cleanup] gives back every item reference the connection
    holds, once each: no item is left attached to it, and an item of the
    index keeps its place there with its reference count lowered by the
    number of times the connection held it. *)
Theorem conn_cleanup_releases (c : conn) (s : cache) (p : nat) (it : Store.item)
    (Hlist : (icurr c + ileft c <= length (ilist c))%nat)
    (Hp : heap s !! p = Some it) (Hl : it_linked it = true) :
  let r := conn_cleanup c s in
  Connection.item r.1 = None /\ ileft r.1 = 0%nat
  /\ write_and_free r.1 = false /\ rbuf r.1 = None /\ iov r.1 = []
  /\ heap r.2 !! p
     = Some (with_refcount
               (it_refcount it - Z.of_nat (count_occ Nat.eq_dec (held c) p)) it)
  /\ assoc r.2 = assoc s.
Proof.
  intros r.
  set (first := option_list (Connection.item c)).
  set (s1 := foldl (fun s q => do_item_deref q s) s first).
  set (c1 := set_item None c).
  assert (H1 : match Connection.item c with
               | Some i => (set_item None c, do_item_deref i s)
               | None => (c, s)
               end = (match Connection.item c with Some _ => c1 | None => c end,
                      s1)).
  { subst s1 first c1. now destruct (Connection.item c). }
  set (c1' := match Connection.item c with Some _ => c1 | None => c end) in *.
  assert (Hc1 : Connection.item c1' = None /\ ileft c1' = ileft c
                /\ icurr c1' = icurr c /\ ilist c1' = ilist c).
  { subst c1' c1. destruct (Connection.item c) eqn:E; repeat split; exact E. }
  destruct Hc1 as (Hi1 & Hl1 & Hc1 & Hil1).
  assert (Hlist1 : (icurr c1' + ileft c1' <= length (ilist c1'))%nat)
    by (rewrite Hl1, Hc1, Hil1; exact Hlist).
  destruct (release_items_all (ileft c1') c1' s1 eq_refl Hlist1)
    as (c2 & Hrel & Hl2 & Hi2 & _ & _ & _).
  set (s2 := foldl (fun s q => do_item_deref q s) s1
               (take (ileft c1') (drop (icurr c1') (ilist c1')))) in *.
  assert (H2 : (if bool_decide (ileft c1' <> 0%nat)
                then release_items (ileft c1') c1' s1 else (c1', s1))
               = ((if bool_decide (ileft c1' <> 0%nat) then c2 else c1'), s2)).
  { case_bool_decide as Hz; [exact Hrel|].
    subst s2. replace (ileft c1') with 0%nat by lia. reflexivity. }
  set (c2' := if bool_decide (ileft c1' <> 0%nat) then c2 else c1') in *.
  assert (Hc2 : Connection.item c2' = None /\ ileft c2' = 0%nat).
  { subst c2'. case_bool_decide as Hz; [split; congruence|].
    split; [exact Hi1|lia]. }
  assert (Htail : forall x : conn,
            let y := if write_and_free x then set_write_and_free false x else x in
            let z := match rbuf y with
                     | Some _ => set_rsize 0 (set_rbuf None y)
                     | None => y
                     end in
            let w := if bool_decide (iov z <> [])
                     then set_iovsize 0 (set_iov [] z) else z in
            Connection.item w = Connection.item x /\ ileft w = ileft x
            /\ write_and_free w = false /\ rbuf w = None /\ iov w = []).
  { intros x. destruct x as [? ? ? ? rb ? ? ? ? ? ? ? wf ? ? ? ? ? ? ? ? ? ? v].
    destruct wf, rb, v; cbn; split_and!; reflexivity. }
  assert (Hr : r.2 = s2 /\ Connection.item r.1 = None /\ ileft r.1 = 0%nat
               /\ write_and_free r.1 = false /\ rbuf r.1 = None /\ iov r.1 = []).
  { subst r. unfold conn_cleanup. rewrite H1, H2. cbn [fst snd].
    destruct Hc2 as [Hi Hz].
    destruct (Htail c2') as (Hi' & Hz' & Hw' & Hr' & Hv').
    cbn zeta in *. rewrite Hi', Hz'. split_and!; done. }
  destruct Hr as (Hs & Hi & Hz & Hw & Hr & Hv).
  split_and!; try assumption.
  - rewrite Hs. subst s2 s1. rewrite <- foldl_app.
    rewrite Hl1, Hc1, Hil1. fold first. fold (held c) .
    now apply deref_all_linked.
  - rewrite Hs. subst s2 s1. rewrite <- foldl_app.
    now apply deref_all_linked with (p := p) (it := it).
Qed.

End ClosingFacts.

Lemma conn_cleanup_releases_witness :
  let r := Closing.conn_cleanup Closing.getting_conn Closing.pinned_cache in
  Connection.ileft r.1 = 0%nat
  /\ Store.it_refcount <$> Store.heap r.2 !! 1%nat = Some 1
  /\ Store.assoc r.2 = Store.assoc Closing.pinned_cache.
Proof.
  intros r.
  destruct (conn_cleanup_releases Closing.getting_conn Closing.pinned_cache
              1%nat (Store.Item "a" [120] 1 0 0 2 3 true false))
    as (_ & Hz & _ & _ & _ & Hh & Ha).
  - cbn. lia.
  - vm_compute. reflexivity.
  - reflexivity.
  - fold r in Hz, Hh, Ha. split; [exact Hz|]. split; [|exact Ha].
    rewrite Hh. reflexivity.
Defined.
